(** * movie_db: the dataset-refresh pipeline, embedded and verified

    A shallow embedding of [src/movie_db/_movies.py], [_people.py],
    [_aka_titles.py], [viewings.py] and [utils/download_imdb_file.py].

    Conventions of the embedding:
    - a Python [str] is a [string]; each [ascii] stands for one character
      (a code point below 256);
    - [Optional[str]] is [option string], a parsed snapshot row
      ([List[Optional[str]]]) is a [list (option string)];
    - a Python exception is the [Raise] branch of [result];
    - a [dict] keyed by strings is a [gmap string _], a [set] of strings a
      [gset string]. *)

From Stdlib Require Import Ascii.
From stdpp Require Import base gmap sets list strings pretty.

Open Scope Z_scope.

(** ** Python prelude *)

Module Py.

(** The exceptions the modelled code can raise. *)
Inductive exn :=
| IndexError
| ValueError
| KeyError (key : string)
| URLError
| CalledProcessError
| ExtractionError
| OperationalError (msg : string)
| ProgrammingError
| OSError
| YAMLError
| TypeError
| ValidationError.

Inductive result (A : Type) :=
| Ok (a : A)
| Raise (e : exn).
Arguments Ok {A} a.
Arguments Raise {A} e.

#[global] Instance result_ret : MRet result := λ A a, Ok a.
#[global] Instance result_bind : MBind result := λ A B f r,
  match r with Ok a => f a | Raise e => Raise e end.

#[global] Instance exn_eq_dec : EqDecision exn.
Proof. solve_decision. Defined.

(** A snapshot row: [List[Optional[str]]]. *)
Abbreviation row := (list (option string)).

(** [l[i]] for a non-negative literal index: [IndexError] out of range. *)
Definition getitem {A} (l : list A) (i : nat) : result A :=
  match l !! i with
  | Some x => Ok x
  | None => Raise IndexError
  end.

(** [str(x)] at an [Optional[str]]: [str(None)] is ['None']. *)
Definition str (x : option string) : string :=
  match x with
  | Some s => s
  | None => "None"
  end.

(** [bool(x)] at an [Optional[str]]: [None] and [''] are falsy. *)
Definition truthy (x : option string) : bool :=
  match x with
  | None | Some "" => false
  | Some _ => true
  end.

(** [s.split(sep)] for a one-character separator: never empty, the empty
    string splits into [['']]. *)
Fixpoint split (sep : ascii) (s : string) : list string :=
  match s with
  | "" => [""]
  | String c s' =>
      if Ascii.eqb c sep then "" :: split sep s'
      else match split sep s' with
           | w :: ws => String c w :: ws
           | [] => [String c ""]
           end
  end.

(** [str.isspace] on one character, for code points below 256: the class
    the [re] module's [\s] matches in a [str] pattern. *)
Definition isspace (c : ascii) : bool :=
  let n := nat_of_ascii c in
  ((9 <=? n) && (n <=? 13) || (28 <=? n) && (n <=? 32)
   || (n =? 133) || (n =? 160))%nat.

(** The whitespace [int] drops around a literal.  [int] first turns the
    Unicode whitespace from code point 127 on into spaces (133 and 160,
    below 256) and then skips C whitespace: tab to carriage return and
    space.  The separators 28 to 31, which [str.isspace] has, stay and
    make the literal invalid. *)
Definition int_space (c : ascii) : bool :=
  let n := nat_of_ascii c in
  ((9 <=? n) && (n <=? 13) || (n =? 32) || (n =? 133) || (n =? 160))%nat.

Fixpoint int_lstrip (s : string) : string :=
  match s with
  | String c s' => if int_space c then int_lstrip s' else s
  | "" => ""
  end.

Definition int_strip (s : string) : string :=
  String.rev (int_lstrip (String.rev (int_lstrip s))).

Definition digit (c : ascii) : option Z := Z.of_nat <$> Ascii.is_nat c.

(** The digits of a decimal literal: single underscores may stand between
    digits.  [after_digit] tells whether the previous character was one. *)
Fixpoint int_digits (s : string) (acc : Z) (after_digit : bool) : result Z :=
  match s with
  | "" => if after_digit then Ok acc else Raise ValueError
  | String c s' =>
      if Ascii.eqb c "_" then
        if after_digit then int_digits s' acc false else Raise ValueError
      else
        match digit c with
        | Some d => int_digits s' (10 * acc + d) true
        | None => Raise ValueError
        end
  end.

(** [sys.int_max_str_digits] as the interpreter starts with it: a literal
    of more digits (underscores and sign not counted) is refused. *)
Definition max_str_digits : N := 4300.

Fixpoint count_digits (s : string) : N :=
  match s with
  | "" => 0
  | String c s' =>
      match digit c with
      | Some _ => N.succ (count_digits s')
      | None => count_digits s'
      end
  end.

Definition int_literal (s : string) : result Z :=
  if (max_str_digits <? count_digits s)%N then Raise ValueError
  else int_digits s 0 false.

(** [int(s)] in base 10: surrounding whitespace is dropped, one sign is
    allowed, anything else that is not a decimal literal, or one of more
    than [max_str_digits] digits, is a [ValueError]. *)
Definition int (s : string) : result Z :=
  match int_strip s with
  | String "-" s' => n ← int_literal s'; mret (- n)
  | String "+" s' => int_literal s'
  | s' => int_literal s'
  end.

End Py.
Export Py.

(** ** The fragment of Python's [re] the code uses

    A backtracking matcher in continuation-passing style over the syntax
    [NAME_REGEX] is written in: anchors, one character of a class, a greedy
    star of a class, capturing groups, concatenation. *)

Module Re.

Inductive regex :=
| Bol                          (* [^] *)
| Eol                          (* [$] *)
| Class (p : ascii → bool)     (* one character of the class *)
| Star (p : ascii → bool)      (* greedy [p*] *)
| Group (r : regex)            (* [(r)] *)
| Seq (r1 r2 : regex).

(** A matcher state: the index reached, the text from there on, and the
    groups, numbered by their opening parenthesis ([None]: not closed). *)
Record config := {
  pos : nat;
  rest : string;
  caps : list (option string);
}.

(** [$] without [MULTILINE]: the end, or just before a final line feed. *)
Definition at_end (s : string) : bool :=
  match s with
  | "" | String "010" "" => true
  | _ => false
  end.

(** [.] without [DOTALL]: anything but a line feed. *)
Definition dot (c : ascii) : bool := negb (Ascii.eqb c "010").

(** [\s] and [[^\s]]. *)
Definition space (c : ascii) : bool := isspace c.
Definition nonspace (c : ascii) : bool := negb (isspace c).

(** Greedy star: take the character when the class has it and the rest of
    the pattern then matches; otherwise stop here. *)
Fixpoint star (p : ascii → bool) (k : config → option config)
  (i : nat) (s : string) (groups : list (option string)) : option config :=
  match s with
  | String a s' =>
      if p a then
        match star p k (S i) s' groups with
        | Some c => Some c
        | None => k {| pos := i; rest := s; caps := groups |}
        end
      else k {| pos := i; rest := s; caps := groups |}
  | "" => k {| pos := i; rest := s; caps := groups |}
  end.

Section Matcher.

(** The string searched. *)
Variable subject : string.

Fixpoint run (r : regex) (c : config) (k : config → option config)
  : option config :=
  match r with
  | Bol => if (pos c =? 0)%nat then k c else None
  | Eol => if at_end (rest c) then k c else None
  | Class p =>
      match rest c with
      | String a s' =>
          if p a then k {| pos := S (pos c); rest := s'; caps := caps c |}
          else None
      | "" => None
      end
  | Star p => star p k (pos c) (rest c) (caps c)
  | Group r' =>
      let n := length (caps c) in
      run r' {| pos := pos c; rest := rest c; caps := caps c ++ [None] |}
        (λ c', k {| pos := pos c'; rest := rest c';
                    caps := <[n := Some (String.substring (pos c) (pos c' - pos c) subject)]>
                              (caps c') |})
  | Seq r1 r2 => run r1 c (λ c', run r2 c' k)
  end.

(** One match attempt at index [i]; under [must_advance] an empty match
    there is refused and the matcher backtracks. *)
Definition try_at (r : regex) (must_advance : bool) (i : nat) (s : string)
  : option config :=
  run r {| pos := i; rest := s; caps := [] |}
    (λ c, if must_advance && (pos c =? i)%nat then None else Some c).

(** [search]: the leftmost index from [i] on where the pattern matches. *)
Fixpoint search (r : regex) (must_advance : bool) (i : nat) (s : string)
  : option (nat * config) :=
  match try_at r must_advance i s with
  | Some c => Some (i, c)
  | None =>
      match s with
      | String _ s' => search r false (S i) s'
      | "" => None
      end
  end.

Definition slice (first last : nat) : string :=
  String.substring first (last - first) subject.

(** The loop of [Pattern.split]: the piece before each match, then its
    groups; the piece after the last match closes the list. *)
Fixpoint split_from (fuel : nat) (r : regex) (must_advance : bool)
  (i : nat) (s : string) (last : nat) : list (option string) :=
  match fuel with
  | O => [Some (slice last (String.length subject))]
  | S fuel' =>
      match search r must_advance i s with
      | None => [Some (slice last (String.length subject))]
      | Some (b, c) =>
          Some (slice last b) :: caps c
            ++ split_from fuel' r (pos c =? b)%nat (pos c) (rest c) (pos c)
      end
  end.

End Matcher.

(** [pattern.split(s)].  A round of the loop either moves on in the
    string or, after an empty match, demands that the next match does:
    the fuel allows two rounds per character, and two more. *)
Definition split (r : regex) (s : string) : list (option string) :=
  split_from s (2 * String.length s + 2) r false 0 s 0.

End Re.

(** ** The world the pipeline runs in

    The process state ([lru_cache] slot), the local file system, the SQLite
    database and the checkpoint markers, threaded explicitly.  The
    environment (remote server, outcome of each transfer, I/O faults of the
    database) is read-only input of a run. *)

Module World.

(** The date part of a [datetime]; the time of day is never used. *)
Record datetime := {
  dt_year : nat;
  dt_month : nat;
  dt_day : nat;
}.

#[global] Instance datetime_eq_dec : EqDecision datetime.
Proof. solve_decision. Defined.

(** The scalars of a viewing record. *)
Inductive scalar :=
| SStr (s : string)
| SInt (n : Z)
| SDate (d : datetime).

#[global] Instance scalar_eq_dec : EqDecision scalar.
Proof. solve_decision. Defined.

(** What a local file holds: the data rows of a completely downloaded
    snapshot (header line already skipped), a torn prefix of one, or a YAML
    document, held as the mapping it parses to ([yaml.safe_load] of what
    [yaml.dump] wrote for a mapping of strings, integers and dates is that
    mapping again). *)
Inductive file :=
| Whole (rows : list row)
| Partial
| Document (mapping : gmap string scalar).

(** How the transfer of one [curl --fail -o dest url] process ends.
    [curl -o] opens [dest] itself and appends the body as it arrives; with
    [--fail] a server error status ends the transfer before anything is
    written. *)
Inductive curl_result :=
| CurlOk (rows : list row)     (* exit 0, the whole body is at [dest] *)
| CurlRefused                  (* non-zero exit, nothing was written *)
| CurlInterrupted.             (* non-zero exit, part of the body is at [dest] *)

(** What a [curl] process does when its arguments are not the intended
    ones (the command line is split by [shlex], so a blank or a quote in
    the destination or in the URL changes them): the files it writes and
    whether it exits with status 0. *)
Record stray := {
  stray_files : gmap string file;
  stray_ok : bool;
}.

(** SQLite values bound to a statement. *)
Inductive value :=
| VNull
| VText (s : string)
| VInt (n : Z)
| VBool (b : bool)
| VDate (d : datetime).

#[global] Instance value_eq_dec : EqDecision value.
Proof. solve_decision. Defined.

Definition of_optional (x : option string) : value :=
  match x with Some s => VText s | None => VNull end.

(** One column of a [CREATE TABLE]: its name, the declared type and
    constraints as written, and its [REFERENCES t(c) DEFERRABLE INITIALLY
    DEFERRED] clause when it has one. *)
Record column := {
  col_name : string;
  col_decl : string;
  col_references : option (string * string);
}.

Record table := {
  t_columns : list column;
  t_rows : list (gmap string value);
  t_indexes : list string;
}.

(** The statements the DDL scripts of the repository are made of. *)
Inductive statement :=
| DropTableIfExists (name : string)
| CreateTable (name : string) (columns : list column).

(** [INSERT INTO name(columns) VALUES(:params)]. *)
Record insert_statement := {
  ins_table : string;
  ins_columns : list string;
  ins_params : list string;
}.

(** The steps of a table rebuild an I/O fault can hit. *)
Inductive db_step := StepDropCreate | StepInsert | StepAddIndex | StepValidate.

#[global] Instance db_step_eq_dec : EqDecision db_step.
Proof. solve_decision. Defined.

(** Observable effects, in the order they happen. *)
Inductive event :=
| EvDownload (url dest : string)
| EvExtract (path : string)
| EvDropCreate (table_name : string)
| EvInsert (table_name : string) (n : nat)
| EvAddIndex (table_name column_name : string)
| EvValidate (table_name : string)
| EvQueryTitleIds
| EvCacheClear
| EvMarker (path : string).

#[global] Instance event_eq_dec : EqDecision event.
Proof. solve_decision. Defined.

Record world := {
  dirs : gset string;
  files : gmap string file;
  markers : gset string;
  tables : gmap string table;
  title_ids_cache : option (gset string);
  trace : list event;
}.

Record env := {
  (** [_db.DB_DIR], a constant of a module outside the sources at hand. *)
  DB_DIR : string;
  (** The [Last-Modified] date the server answers for a URL, parsed; the
      probe fails when the server cannot be reached or sends no date. *)
  last_modified : string → result datetime;
  (** The transfer of a URL by a [curl] process with the intended
      arguments, and what a process with other arguments does. *)
  curl_outcome : string → curl_result;
  curl_other : list string → stray;
  db_fault : string → db_step → bool;
}.

(** Reader of the environment, state of the world, exceptions.  The world
    a raising computation leaves behind is kept: nothing is rolled back. *)
Definition M (A : Type) : Type := env → world → result A * world.

#[global] Instance M_ret : MRet M := λ A a _ w, (Ok a, w).
#[global] Instance M_bind : MBind M := λ A B f m e w,
  match m e w with
  | (Ok a, w') => f a e w'
  | (Raise x, w') => (Raise x, w')
  end.

Definition lift {A} (r : result A) : M A := λ _ w, (r, w).
Definition raise {A} (x : exn) : M A := λ _ w, (Raise x, w).
Definition ask : M env := λ e w, (Ok e, w).
Definition get : M world := λ _ w, (Ok w, w).
Definition put (w : world) : M unit := λ _ _, (Ok (), w).
Definition modify (f : world → world) : M unit := λ _ w, (Ok (), f w).

Definition emit (ev : event) : M unit :=
  modify (λ w, {| dirs := dirs w; files := files w; markers := markers w;
                  tables := tables w; title_ids_cache := title_ids_cache w;
                  trace := trace w ++ [ev] |}).

Definition set_dirs (d : gset string) (w : world) : world :=
  {| dirs := d; files := files w; markers := markers w; tables := tables w;
     title_ids_cache := title_ids_cache w; trace := trace w |}.
Definition set_files (f : gmap string file) (w : world) : world :=
  {| dirs := dirs w; files := f; markers := markers w; tables := tables w;
     title_ids_cache := title_ids_cache w; trace := trace w |}.
Definition set_markers (m : gset string) (w : world) : world :=
  {| dirs := dirs w; files := files w; markers := m; tables := tables w;
     title_ids_cache := title_ids_cache w; trace := trace w |}.
Definition set_tables (t : gmap string table) (w : world) : world :=
  {| dirs := dirs w; files := files w; markers := markers w; tables := t;
     title_ids_cache := title_ids_cache w; trace := trace w |}.
Definition set_cache (c : option (gset string)) (w : world) : world :=
  {| dirs := dirs w; files := files w; markers := markers w;
     tables := tables w; title_ids_cache := c; trace := trace w |}.

(** *** The collaborators outside the sources at hand *)

(** Modelled from the spec: [_imdb_s3_extractor.extract] is missing from the
    sources.  "[extractRows(localPath)] -> lazy sequence of Row ... (first
    line of the file is a header and is skipped). Decompression and parsing
    happen in one streaming pass"; unreadable input is a fatal
    [ExtractionError].  The callers' loop bodies touch nothing but a local
    collection, so the lazy sequence is handed over as a list. *)
Definition extract (path : string) : M (list row) :=
  _ ← emit (EvExtract path);
  w ← get;
  match files w !! path with
  | Some (Whole rows) => mret rows
  | Some Partial | Some (Document _) => raise ExtractionError
  | None => raise OSError
  end.

(** Modelled from the spec: [_imdb_s3_extractor.checkpoint] is missing from
    the sources.  "If the marker is absent, the body runs and the extractor
    commits a completed marker only after the body finishes without error;
    if the marker is already present, the scoped handle yields nothing".
    [checkpoint path body] is [for _ in checkpoint(path): body]. *)
Definition checkpoint (path : string) (body : M unit) : M unit :=
  w ← get;
  if bool_decide (path ∈ markers w) then mret ()
  else
    _ ← body;
    _ ← modify (λ w', set_markers ({[path]} ∪ markers w') w');
    emit (EvMarker path).

Definition new_table (columns : list column) : table :=
  {| t_columns := columns; t_rows := []; t_indexes := [] |}.

Definition has_column (c : string) (t : table) : bool :=
  bool_decide (c ∈ col_name <$> t_columns t).

(** One statement of a DDL script against the database. *)
Definition exec_statement (st : statement) : M unit :=
  w ← get;
  match st with
  | DropTableIfExists name => put (set_tables (delete name (tables w)) w)
  | CreateTable name columns =>
      match tables w !! name with
      | Some _ => raise (OperationalError "table already exists")
      | None => put (set_tables (<[name := new_table columns]> (tables w)) w)
      end
  end.

(** A script runs statement by statement; what ran before a failing
    statement stays. *)
Fixpoint exec_script (ddl : list statement) : M unit :=
  match ddl with
  | [] => mret ()
  | st :: rest => _ ← exec_statement st; exec_script rest
  end.

Definition check_fault (table_name : string) (step : db_step) : M unit :=
  e ← ask;
  if db_fault e table_name step then raise (OperationalError "disk I/O error")
  else mret ().

(** The values one parameter dict binds to the statement's columns. *)
Fixpoint bind_row (columns params : list string) (dict : gmap string value)
  : result (gmap string value) :=
  match columns, params with
  | c :: columns', p :: params' =>
      match dict !! p with
      | Some v => r ← bind_row columns' params' dict; mret (<[c := v]> r)
      | None => Raise ProgrammingError
      end
  | _, _ => mret ∅
  end.

Fixpoint bind_rows (ddl : insert_statement)
  (parameter_seq : list (gmap string value)) : result (list (gmap string value)) :=
  match parameter_seq with
  | [] => mret []
  | dict :: rest =>
      r ← bind_row (ins_columns ddl) (ins_params ddl) dict;
      rs ← bind_rows ddl rest;
      mret (r :: rs)
  end.

(** Modelled from the spec: [_table_base.TableBase] is missing from the
    sources.  Its four steps follow the Table Loader contract: "(1) drop the
    table if present and (re)create it from the fixed schema ...; (2)
    bulk-insert all rows using a single parameterized statement executed
    once per row; (3) (re)create any declared secondary indexes for that
    table; (4) validate -- read back and compare persisted row count ...
    against the input collection's size, raising a fatal error on
    mismatch."  Each step can also be hit by an I/O fault of the
    environment.  The rows of a table are kept in a list whose order is
    never observed. *)
Definition _drop_and_create (table_name : string) (ddl : list statement) : M unit :=
  _ ← check_fault table_name StepDropCreate;
  _ ← emit (EvDropCreate table_name);
  exec_script ddl.

Definition _insert (table_name : string) (ddl : insert_statement)
  (parameter_seq : list (gmap string value)) : M unit :=
  _ ← check_fault table_name StepInsert;
  w ← get;
  match tables w !! ins_table ddl with
  | None => raise (OperationalError "no such table")
  | Some t =>
      if forallb (λ c, has_column c t) (ins_columns ddl) then
        rows ← lift (bind_rows ddl parameter_seq);
        _ ← put (set_tables
                   (<[ins_table ddl :=
                        {| t_columns := t_columns t;
                           t_rows := t_rows t ++ rows;
                           t_indexes := t_indexes t |}]> (tables w)) w);
        emit (EvInsert (ins_table ddl) (length parameter_seq))
      else raise (OperationalError "no such column")
  end.

Definition _add_index (table_name column_name : string) : M unit :=
  _ ← check_fault table_name StepAddIndex;
  w ← get;
  match tables w !! table_name with
  | None => raise (OperationalError "no such table")
  | Some t =>
      if has_column column_name t then
        _ ← put (set_tables
                   (<[table_name :=
                        {| t_columns := t_columns t;
                           t_rows := t_rows t;
                           t_indexes := t_indexes t ++ [column_name] |}]> (tables w)) w);
        emit (EvAddIndex table_name column_name)
      else raise (OperationalError "no such column")
  end.

Definition _validate (table_name : string) (collection_size : nat) : M unit :=
  _ ← check_fault table_name StepValidate;
  w ← get;
  match tables w !! table_name with
  | None => raise (OperationalError "no such table")
  | Some t =>
      if bool_decide (length (t_rows t) = collection_size)
      then emit (EvValidate table_name)
      else raise ValidationError
  end.

(** The number of rows a table holds; 0 when there is no such table. *)
Definition row_count (table_name : string) (w : world) : nat :=
  match tables w !! table_name with
  | Some t => length (t_rows t)
  | None => 0%nat
  end.

End World.
Export World.

(** ** [shlex.split]

    POSIX mode, [whitespace_split] on, comments off, as [shlex.split(s)]
    sets the lexer up. *)

Module Shlex.

Definition whitespace (c : ascii) : bool :=
  Ascii.eqb c " " || Ascii.eqb c "009" || Ascii.eqb c "013" || Ascii.eqb c "010".

(** The two quotes: ['] is 39, the double quote is 34. *)
Definition quote (c : ascii) : bool := Ascii.eqb c "039" || Ascii.eqb c "034".

Definition escape (c : ascii) : bool := Ascii.eqb c "\".

(** The states of [read_token]: between tokens, in a word, inside a quote,
    after a backslash (with the state to go back to: a quote, or the
    word). *)
Inductive state :=
| Blank
| Word
| Quoted (q : ascii)
| Escaped (back : option ascii).

(** [quoted] is the lexer's flag of the same name: an empty token counts
    when a quote opened in it. *)
Fixpoint read_tokens (s : string) (st : state) (token : string) (quoted : bool)
  : result (list string) :=
  match s with
  | "" =>
      match st with
      | Blank => Ok []
      | Word =>
          Ok (if quoted || negb (bool_decide (token = "")) then [token] else [])
      | Quoted _ => Raise ValueError      (* No closing quotation *)
      | Escaped _ => Raise ValueError     (* No escaped character *)
      end
  | String c s' =>
      match st with
      | Blank =>
          if whitespace c then read_tokens s' Blank "" false
          else if escape c then read_tokens s' (Escaped None) "" false
          else if quote c then read_tokens s' (Quoted c) "" true
          else read_tokens s' Word (String c "") false
      | Word =>
          if whitespace c then
            rest ← read_tokens s' Blank "" false;
            mret (if quoted || negb (bool_decide (token = ""))
                  then token :: rest else rest)
          else if quote c then read_tokens s' (Quoted c) token true
          else if escape c then read_tokens s' (Escaped None) token quoted
          else read_tokens s' Word (token +:+ String c "") quoted
      | Quoted q =>
          if Ascii.eqb c q then read_tokens s' Word token true
          else if escape c && Ascii.eqb q "034"
          then read_tokens s' (Escaped (Some q)) token true
          else read_tokens s' (Quoted q) (token +:+ String c "") true
      | Escaped None =>
          read_tokens s' Word (token +:+ String c "") quoted
      | Escaped (Some q) =>
          (* inside a double quote only the quote and the backslash are
             escaped; before anything else the backslash stays *)
          let token' := if escape c || Ascii.eqb c q then token
                        else token +:+ "\" in
          read_tokens s' (Quoted q) (token' +:+ String c "") quoted
      end
  end.

Definition split (s : string) : result (list string) :=
  read_tokens s Blank "" false.

End Shlex.

(** ** [utils/download_imdb_file.py]: the fetcher *)

Module Fetcher.

Definition IMDB_BASE : string := "https://datasets.imdbws.com/".

Definition startswith_sep (s : string) : bool :=
  match s with
  | String "/" _ => true
  | _ => false
  end.

Fixpoint endswith_sep (s : string) : bool :=
  match s with
  | "" => false
  | String c "" => Ascii.eqb c "/"
  | String _ s' => endswith_sep s'
  end.

(** [os.path.join(a, b)] of [posixpath]: an absolute [b] replaces [a]. *)
Definition path_join (a b : string) : string :=
  if startswith_sep b then b
  else if bool_decide (a = "") || endswith_sep a then a +:+ b
  else a +:+ "/" +:+ b.

(** The part of a path up to and including its last slash ([p[:i]] for
    [i = p.rfind('/') + 1]). *)
Fixpoint head_of (p : string) : string :=
  match p with
  | "" => ""
  | String c p' =>
      match head_of p' with
      | "" => if Ascii.eqb c "/" then "/" else ""
      | h => String c h
      end
  end.

Fixpoint all_sep (s : string) : bool :=
  match s with
  | "" => true
  | String c s' => Ascii.eqb c "/" && all_sep s'
  end.

Fixpoint lstrip_sep (s : string) : string :=
  match s with
  | String "/" s' => lstrip_sep s'
  | _ => s
  end.

(** [os.path.dirname] of [posixpath]. *)
Definition dirname (p : string) : string :=
  let head := head_of p in
  if all_sep head then head
  else String.rev (lstrip_sep (String.rev head)).

Fixpoint drop (n : nat) (s : string) : string :=
  match n, s with
  | S n', String _ s' => drop n' s'
  | _, _ => s
  end.

(** [os.path.basename]: what follows the last slash. *)
Definition basename (p : string) : string :=
  drop (String.length (head_of p)) p.

(** [os.path.exists]: paths are compared as written. *)
Definition path_exists (p : string) : M bool :=
  w ← get;
  mret (bool_decide (p ∈ dirs w) || bool_decide (is_Some (files w !! p))).

(** A directory that is there: one of [dirs], the current directory
    (written [""]) or the root. *)
Definition dir_there (p : string) (w : world) : bool :=
  all_sep p || bool_decide (p ∈ dirs w).

(** [os.mkdir]: the path must be new and lie in a directory that is
    there; otherwise it raises [FileExistsError], [NotADirectoryError] or
    [FileNotFoundError], all of them [OSError]s. *)
Definition mkdir (name : string) : M unit :=
  w ← get;
  if bool_decide (name ∈ dirs w) || bool_decide (is_Some (files w !! name))
  then raise OSError
  else if dir_there (dirname name) w
  then put (set_dirs ({[name]} ∪ dirs w) w)
  else raise OSError.

(** [os.makedirs(name)] with [exist_ok=False]: the missing directories
    above [name] are made first, each by a call of its own.  The
    [except FileExistsError] around that call guards against another
    process and never fires here: the head was just seen to be absent.
    A head is shorter than its name, so the length of the name bounds
    the calls. *)
Fixpoint makedirs_from (fuel : nat) (name : string) : M unit :=
  let head := if bool_decide (basename name = "")
              then dirname (dirname name) else dirname name in
  let tail := if bool_decide (basename name = "")
              then basename (dirname name) else basename name in
  match fuel with
  | S fuel' =>
      if negb (bool_decide (head = "")) && negb (bool_decide (tail = "")) then
        ex ← path_exists head;
        if ex : bool then mkdir name
        else
          _ ← makedirs_from fuel' head;
          if bool_decide (tail = ".") then mret () else mkdir name
      else mkdir name
  | O => mkdir name
  end.

Definition makedirs (name : string) : M unit :=
  makedirs_from (String.length name) name.

Fixpoint zeros (n : nat) : string :=
  match n with
  | O => ""
  | S n' => String "0" (zeros n')
  end.

Definition zfill (width : nat) (s : string) : string :=
  zeros (width - String.length s) +:+ s.

(** [strftime('%Y-%m-%d')], the year padded to four digits: what every
    platform prints for the years from 1000 on (below, the C library
    decides whether it pads). *)
Definition strftime_Ymd (d : datetime) : string :=
  zfill 4 (pretty (dt_year d)) +:+ "-" +:+ zfill 2 (pretty (dt_month d))
    +:+ "-" +:+ zfill 2 (pretty (dt_day d)).

Definition starts_with_dash (s : string) : bool :=
  match s with
  | String "-" _ => true
  | _ => false
  end.

Fixpoint has_char (p : ascii → bool) (s : string) : bool :=
  match s with
  | "" => false
  | String c s' => p c || has_char p s'
  end.

(** The characters [curl] expands in a URL (globbing), and the one it
    expands in an output name. *)
Definition glob_char (c : ascii) : bool :=
  Ascii.eqb c "{" || Ascii.eqb c "}" || Ascii.eqb c "[" || Ascii.eqb c "]".
Definition hash_char (c : ascii) : bool := Ascii.eqb c "#".

(** The argument vector the code means to run, [curl --fail
    --progress-bar -o dest url], with a destination and a URL that [curl]
    takes as they are: not empty, not read as an option, nothing to
    expand. *)
Definition intended (args : list string) : option (string * string) :=
  match args with
  | [a0; a1; a2; a3; dest; url] =>
      if bool_decide ([a0; a1; a2; a3] = ["curl"; "--fail"; "--progress-bar"; "-o"])
         && negb (bool_decide (dest = "")) && negb (bool_decide (url = ""))
         && negb (starts_with_dash dest) && negb (starts_with_dash url)
         && negb (has_char hash_char dest) && negb (has_char glob_char url)
      then Some (url, dest) else None
  | _ => None
  end.

(** [curl -o dest] can create [dest] in a directory that is there, when
    [dest] is not a directory itself. *)
Definition can_create (dest : string) (w : world) : bool :=
  dir_there (dirname dest) w && negb (bool_decide (dest ∈ dirs w)).

(** The transfer of [url] to [dest] by a process with the intended
    arguments.  Without [--create-dirs] a destination that cannot be
    created ends the process with an error and nothing written. *)
Definition transfer (url dest : string) : M unit :=
  e ← ask;
  w ← get;
  match curl_outcome e url with
  | CurlOk rows =>
      if can_create dest w
      then put (set_files (<[dest := Whole rows]> (files w)) w)
      else raise CalledProcessError
  | CurlRefused => raise CalledProcessError
  | CurlInterrupted =>
      _ ← (if can_create dest w
           then put (set_files (<[dest := Partial]> (files w)) w)
           else mret ());
      raise CalledProcessError
  end.

(** [subprocess.check_output(args, shell=False)] for a [curl] process: it
    raises on a non-zero exit.  With other arguments than the intended
    ones the environment says what the process writes and how it exits. *)
Definition check_output (args : list string) : M unit :=
  match intended args with
  | Some (url, dest) => transfer url dest
  | None =>
      e ← ask;
      let out := curl_other e args in
      _ ← modify (λ w, set_files (stray_files out ∪ files w) w);
      if stray_ok out then mret () else raise CalledProcessError
  end.

(** [_curl]: the command line is formatted from [dest] and [url], split by
    [shlex.split], which raises [ValueError] on an open quote or a final
    backslash, and run. *)
Definition _curl (url dest : string) : M unit :=
  let cmd := "curl --fail --progress-bar -o " +:+ dest +:+ " " +:+ url in
  args ← lift (Shlex.split cmd);
  _ ← emit (EvDownload url dest);
  check_output args.

Definition _get_last_modified_date (url : string) : M datetime :=
  e ← ask;
  lift (last_modified e url).

Definition _ensure_download_path (download_root : string)
  (last_modified_date : datetime) : M string :=
  let download_path := path_join download_root (strftime_Ymd last_modified_date) in
  ex ← path_exists download_path;
  _ ← (if ex : bool then mret () else makedirs download_path);
  mret download_path.

Definition download_imdb_file (imdb_file_name local_download_dir : string)
  : M string :=
  let url := IMDB_BASE +:+ imdb_file_name in
  last_modified_date ← _get_last_modified_date url;
  download_path ← _ensure_download_path local_download_dir last_modified_date;
  let local_file_path := path_join download_path imdb_file_name in
  ex ← path_exists local_file_path;
  _ ← (if ex : bool then mret () else _curl url local_file_path);
  mret local_file_path.

(** The path a generation of a resource is cached at. *)
Definition cache_path (root : string) (date : datetime) (name : string) : string :=
  path_join (path_join root (strftime_Ymd date)) name.

End Fetcher.

(** ** [_movies.py]: the Movie entity and its acceptance rule *)

Module Movies.

Definition FILE_NAME : string := "title.basics.tsv.gz".
Definition TABLE_NAME : string := "movies".

(** Modelled from the spec: [_imdb_s3_downloader.download] is missing from
    the sources; it is the Fetcher's [fetch(resourceName) -> localPath],
    the contract [utils/download_imdb_file.py] implements. *)
Definition download : string → string → M string := Fetcher.download_imdb_file.

Record Movie := {
  imdb_id : string;
  title : string;
  original_title : bool;
  year : string;
  runtime_minutes : string;
}.

#[global] Instance Movie_eq_dec : EqDecision Movie.
Proof. solve_decision. Defined.

(** [Movie.__init__]. *)
Definition Movie_init (fields : row) : result Movie :=
  f0 ← getitem fields 0;
  f2 ← getitem fields 2;
  f3 ← getitem fields 3;
  f5 ← getitem fields 5;
  f7 ← getitem fields 7;
  mret {| imdb_id := str f0; title := str f2; original_title := truthy f3;
          year := str f5; runtime_minutes := str f7 |}.

(** [_title_is_valid]: the four early returns, in the order of the source. *)
Definition _title_is_valid (title_line : row) : result bool :=
  f1 ← getitem title_line 1;
  if bool_decide (f1 ≠ Some "movie") then mret false else
  f4 ← getitem title_line 4;
  if bool_decide (f4 = Some "1") then mret false else
  f5 ← getitem title_line 5;
  if bool_decide (f5 = None) then mret false else
  f8 ← getitem title_line 8;
  let genres : gset string := list_to_set (split "," (str f8)) in
  if bool_decide ("Documentary" ∈ genres) then mret false else
  mret true.

(** The loop of [_extract_movies] over the rows the extractor yields;
    [movies] is the dict built so far. *)
Fixpoint _extract_movies_loop (rows : list row) (movies : gmap string Movie)
  : result (gmap string Movie) :=
  match rows with
  | [] => mret movies
  | fields :: rest =>
      ok ← _title_is_valid fields;
      if ok : bool then
        movie ← Movie_init fields;
        f0 ← getitem fields 0;
        _extract_movies_loop rest (<[str f0 := movie]> movies)
      else _extract_movies_loop rest movies
  end.

(** [_extract_movies]. *)
Definition _extract_movies (downloaded_file_path : string) : M (gmap string Movie) :=
  rows ← extract downloaded_file_path;
  lift (_extract_movies_loop rows ∅).

(** [dataclasses.asdict] of a [Movie]. *)
Definition asdict (movie : Movie) : gmap string value :=
  {[ "imdb_id" := VText (imdb_id movie);
     "title" := VText (title movie);
     "original_title" := VBool (original_title movie);
     "year" := VText (year movie);
     "runtime_minutes" := VText (runtime_minutes movie) ]}.

Definition MoviesTable_ddl : list statement :=
  [ DropTableIfExists "movies";
    CreateTable "movies"
      [ {| col_name := "imdb_id"; col_decl := "TEXT PRIMARY KEY NOT NULL";
           col_references := None |};
        {| col_name := "title"; col_decl := "TEXT NOT NULL";
           col_references := None |};
        {| col_name := "year"; col_decl := "INT NOT NULL";
           col_references := None |};
        {| col_name := "runtime_minutes"; col_decl := "INT";
           col_references := None |} ] ].

Definition MoviesTable_drop_and_create : M unit :=
  _drop_and_create TABLE_NAME MoviesTable_ddl.

Definition MoviesTable_insert_ddl : insert_statement :=
  {| ins_table := "movies";
     ins_columns := ["imdb_id"; "title"; "year"; "runtime_minutes"];
     ins_params := ["imdb_id"; "title"; "year"; "runtime_minutes"] |}.

Definition MoviesTable_insert (movies : gmap string Movie) : M unit :=
  let parameter_seq := asdict <$> (map_to_list movies).*2 in
  _ ← _insert TABLE_NAME MoviesTable_insert_ddl parameter_seq;
  _ ← _add_index TABLE_NAME "title";
  _validate TABLE_NAME (size movies).

Definition text_of (v : value) : option string :=
  match v with
  | VText s => Some s
  | _ => None
  end.

(** [select imdb_id from movies], each row reduced to its first field. *)
Definition select_imdb_id (t : table) : result (list value) :=
  if has_column "imdb_id" t
  then Ok ((λ r, default VNull (r !! "imdb_id")) <$> t_rows t)
  else Raise (OperationalError "no such column").

(** [title_ids] under [lru_cache(1)]: the one slot is filled by the first
    call that returns, and answers every later call until it is cleared.
    The column is [TEXT NOT NULL]: its values are strings. *)
Definition title_ids : M (gset string) :=
  w ← get;
  match title_ids_cache w with
  | Some ids => mret ids
  | None =>
      _ ← emit EvQueryTitleIds;
      match tables w !! "movies" with
      | None => raise (OperationalError "no such table")
      | Some t =>
          vals ← lift (select_imdb_id t);
          let ids : gset string := list_to_set (omap text_of vals) in
          _ ← modify (set_cache (Some ids));
          mret ids
      end
  end.

(** [title_ids.cache_clear()]. *)
Definition title_ids_cache_clear : M unit :=
  _ ← modify (set_cache None);
  emit EvCacheClear.

(** [update]. *)
Definition update : M unit :=
  e ← ask;
  downloaded_file_path ← download FILE_NAME (DB_DIR e);
  checkpoint downloaded_file_path (
    movies ← _extract_movies downloaded_file_path;
    _ ← MoviesTable_drop_and_create;
    _ ← MoviesTable_insert movies;
    title_ids_cache_clear).

End Movies.

(** ** [_people.py] *)

Module People.

Definition FILE_NAME : string := "name.basics.tsv.gz".
Definition TABLE_NAME : string := "people".

(** The compiled pattern: start of string, a group of non-space
    characters (greedy star), one space character, a group of any
    characters but line feeds (greedy star), end of string. *)
Definition NAME_REGEX : Re.regex :=
  Re.Seq Re.Bol
    (Re.Seq (Re.Group (Re.Star Re.nonspace))
       (Re.Seq (Re.Class Re.space)
          (Re.Seq (Re.Group (Re.Star Re.dot)) Re.Eol))).

Record Person := {
  imdb_id : string;
  full_name : string;
  last_name : option string;
  first_name : option string;
  birth_year : option string;
  death_year : option string;
  primary_profession : option string;
  known_for_title_ids : option string;
}.

#[global] Instance Person_eq_dec : EqDecision Person.
Proof. solve_decision. Defined.

(** The first three lines of [Person.__init__]: the list the name parts
    are read from. *)
Definition name_match (name : string) : result (list (option string)) :=
  let match_ := Re.split NAME_REGEX name in
  if (length match_ =? 1)%nat then
    m0 ← getitem match_ 0;
    mret [Some ""; m0; Some ""; Some ""]
  else mret match_.

(** [Person.__init__]. *)
Definition Person_init (fields : row) : result Person :=
  f1 ← getitem fields 1;
  match_ ← name_match (str f1);
  f0 ← getitem fields 0;
  m2 ← getitem match_ 2;
  m1 ← getitem match_ 1;
  f2 ← getitem fields 2;
  f3 ← getitem fields 3;
  f4 ← getitem fields 4;
  f5 ← getitem fields 5;
  mret {| imdb_id := str f0; full_name := str f1;
          last_name := m2; first_name := m1;
          birth_year := f2; death_year := f3;
          primary_profession := f4; known_for_title_ids := f5 |}.

(** The [for] loop of [_has_valid_known_for_title_ids]. *)
Fixpoint any_valid (title_ids : list string) (valid_title_ids : gset string) : bool :=
  match title_ids with
  | [] => false
  | title_id :: rest =>
      if bool_decide (title_id ∈ valid_title_ids) then true
      else any_valid rest valid_title_ids
  end.

Definition _has_valid_known_for_title_ids (known_for_title_ids : option string)
  (valid_title_ids : gset string) : bool :=
  match known_for_title_ids with
  | None => false
  | Some ids => any_valid (Py.split "," ids) valid_title_ids
  end.

(** The loop of [_extract_people]. *)
Fixpoint _extract_people_loop (rows : list row) (title_ids : gset string)
  (people : gmap string Person) : result (gmap string Person) :=
  match rows with
  | [] => mret people
  | fields :: rest =>
      f5 ← getitem fields 5;
      if _has_valid_known_for_title_ids f5 title_ids then
        person ← Person_init fields;
        f0 ← getitem fields 0;
        _extract_people_loop rest title_ids (<[str f0 := person]> people)
      else _extract_people_loop rest title_ids people
  end.

Definition _extract_people (downloaded_file_path : string) : M (gmap string Person) :=
  title_ids ← Movies.title_ids;
  rows ← extract downloaded_file_path;
  lift (_extract_people_loop rows title_ids ∅).

Definition asdict (person : Person) : gmap string value :=
  {[ "imdb_id" := VText (imdb_id person);
     "full_name" := VText (full_name person);
     "last_name" := of_optional (last_name person);
     "first_name" := of_optional (first_name person);
     "birth_year" := of_optional (birth_year person);
     "death_year" := of_optional (death_year person);
     "primary_profession" := of_optional (primary_profession person);
     "known_for_title_ids" := of_optional (known_for_title_ids person) ]}.

Definition plain (name decl : string) : column :=
  {| col_name := name; col_decl := decl; col_references := None |}.

Definition PeopleTable_ddl : list statement :=
  [ DropTableIfExists "people";
    CreateTable "people"
      [ plain "imdb_id" "TEXT PRIMARY KEY NOT NULL";
        plain "full_name" "varchar(255) NOT NULL";
        plain "last_name" "varchar(255)";
        plain "first_name" "varchar(255)";
        plain "birth_year" "TEXT";
        plain "death_year" "TEXT";
        plain "primary_profession" "TEXT";
        plain "known_for_title_ids" "TEXT" ] ].

Definition PeopleTable_drop_and_create : M unit :=
  _drop_and_create TABLE_NAME PeopleTable_ddl.

Definition PeopleTable_columns : list string :=
  [ "imdb_id"; "full_name"; "last_name"; "first_name"; "birth_year";
    "death_year"; "primary_profession"; "known_for_title_ids" ].

Definition PeopleTable_insert_ddl : insert_statement :=
  {| ins_table := "people";
     ins_columns := PeopleTable_columns;
     ins_params := PeopleTable_columns |}.

Definition PeopleTable_insert (people : gmap string Person) : M unit :=
  let parameter_seq := asdict <$> (map_to_list people).*2 in
  _ ← _insert TABLE_NAME PeopleTable_insert_ddl parameter_seq;
  _ ← _add_index TABLE_NAME "full_name";
  _validate TABLE_NAME (size people).

(** [update]. *)
Definition update : M unit :=
  e ← ask;
  downloaded_file_path ← Movies.download FILE_NAME (DB_DIR e);
  checkpoint downloaded_file_path (
    people ← _extract_people downloaded_file_path;
    _ ← PeopleTable_drop_and_create;
    PeopleTable_insert people).

End People.

(** ** [_aka_titles.py] *)

Module AkaTitles.

Definition FILE_NAME : string := "title.akas.tsv.gz".
Definition TABLE_NAME : string := "aka_titles".

Record AkaTitle := {
  movie_imdb_id : string;
  sequence : Z;
  title : string;
  region : option string;
  language : option string;
  types : option string;
  attributes : option string;
  is_original_title : option string;
}.

#[global] Instance AkaTitle_eq_dec : EqDecision AkaTitle.
Proof. solve_decision. Defined.

(** [AkaTitle.__init__]. *)
Definition AkaTitle_init (fields : row) : result AkaTitle :=
  f0 ← getitem fields 0;
  f1 ← getitem fields 1;
  seq ← int (str f1);
  f2 ← getitem fields 2;
  f3 ← getitem fields 3;
  f4 ← getitem fields 4;
  f5 ← getitem fields 5;
  f6 ← getitem fields 6;
  f7 ← getitem fields 7;
  mret {| movie_imdb_id := str f0; sequence := seq; title := str f2;
          region := f3; language := f4; types := f5; attributes := f6;
          is_original_title := f7 |}.

(** [fields[0] in title_ids]: [None] is in no set of strings. *)
Definition in_title_ids (f0 : option string) (title_ids : gset string) : bool :=
  match f0 with
  | Some s => bool_decide (s ∈ title_ids)
  | None => false
  end.

(** The loop of [_extract_aka_titles]; [append] adds at the end. *)
Fixpoint _extract_aka_titles_loop (rows : list row) (title_ids : gset string)
  (aka_titles : list AkaTitle) : result (list AkaTitle) :=
  match rows with
  | [] => mret aka_titles
  | fields :: rest =>
      f0 ← getitem fields 0;
      if in_title_ids f0 title_ids then
        aka_title ← AkaTitle_init fields;
        _extract_aka_titles_loop rest title_ids (aka_titles ++ [aka_title])
      else _extract_aka_titles_loop rest title_ids aka_titles
  end.

Definition _extract_aka_titles (downloaded_file_path : string) : M (list AkaTitle) :=
  title_ids ← Movies.title_ids;
  rows ← extract downloaded_file_path;
  lift (_extract_aka_titles_loop rows title_ids []).

Definition asdict (aka_title : AkaTitle) : gmap string value :=
  {[ "movie_imdb_id" := VText (movie_imdb_id aka_title);
     "sequence" := VInt (sequence aka_title);
     "title" := VText (title aka_title);
     "region" := of_optional (region aka_title);
     "language" := of_optional (language aka_title);
     "types" := of_optional (types aka_title);
     "attributes" := of_optional (attributes aka_title);
     "is_original_title" := of_optional (is_original_title aka_title) ]}.

Definition AkaTitlesTable_ddl (table_name : string) : list statement :=
  [ DropTableIfExists table_name;
    CreateTable table_name
      [ People.plain "id" "INTEGER PRIMARY KEY AUTOINCREMENT NOT NULL";
        {| col_name := "movie_imdb_id"; col_decl := "TEXT NOT NULL";
           col_references := Some ("movies", "imdb_id") |};
        People.plain "sequence" "INT NOT NULL";
        People.plain "title" "TEXT NOT NULL";
        People.plain "region" "TEXT";
        People.plain "language" "TEXT";
        People.plain "types" "TEXT";
        People.plain "attributes" "TEXT";
        People.plain "is_original_title" "BOOLEAN DEFAULT FALSE" ] ].

Definition AkaTitlesTable_drop_and_create : M unit :=
  _drop_and_create TABLE_NAME (AkaTitlesTable_ddl TABLE_NAME).

Definition AkaTitlesTable_columns : list string :=
  [ "movie_imdb_id"; "sequence"; "title"; "region"; "language"; "types";
    "attributes"; "is_original_title" ].

Definition AkaTitlesTable_insert_ddl (table_name : string) : insert_statement :=
  {| ins_table := table_name;
     ins_columns := AkaTitlesTable_columns;
     ins_params := AkaTitlesTable_columns |}.

Definition AkaTitlesTable_insert (aka_titles : list AkaTitle) : M unit :=
  let parameter_seq := asdict <$> aka_titles in
  _ ← _insert TABLE_NAME (AkaTitlesTable_insert_ddl TABLE_NAME) parameter_seq;
  _ ← _add_index TABLE_NAME "title";
  _validate TABLE_NAME (length aka_titles).

(** [update]. *)
Definition update : M unit :=
  e ← ask;
  downloaded_file_path ← Movies.download FILE_NAME (DB_DIR e);
  checkpoint downloaded_file_path (
    aka_titles ← _extract_aka_titles downloaded_file_path;
    _ ← AkaTitlesTable_drop_and_create;
    AkaTitlesTable_insert aka_titles).

End AkaTitles.

(** ** [viewings.py] *)

Module Viewings.

Definition TABLE_NAME : string := "viewings".

Record Viewing := {
  imdb_id : string;
  title : string;
  year : Z;
  venue : string;
  sequence : Z;
  date : datetime;
  file_path : option string;
}.

#[global] Instance Viewing_eq_dec : EqDecision Viewing.
Proof. solve_decision. Defined.

(** [d[key]] on a dict. *)
Definition dict_getitem (d : gmap string scalar) (key : string) : result scalar :=
  match d !! key with
  | Some v => Ok v
  | None => Raise (KeyError key)
  end.

(** The record is typed by the annotations of the dataclass, which Python
    does not check: a document whose value is of another type is outside
    this model and reported as a [TypeError]. *)
Definition as_str (v : scalar) : result string :=
  match v with SStr s => Ok s | _ => Raise TypeError end.
Definition as_int (v : scalar) : result Z :=
  match v with SInt n => Ok n | _ => Raise TypeError end.
Definition as_date (v : scalar) : result datetime :=
  match v with SDate d => Ok d | _ => Raise TypeError end.

(** [open(path, 'r')] followed by [yaml.safe_load]. *)
Definition read_yaml (path : string) : M (gmap string scalar) :=
  w ← get;
  match files w !! path with
  | Some (Document d) => mret d
  | Some _ => raise YAMLError
  | None => raise OSError
  end.

(** [Viewing.load]: the keyword arguments are evaluated in the order they
    are written. *)
Definition load (yaml_file_path : string) : M Viewing :=
  yaml_object ← read_yaml yaml_file_path;
  lift (
    v_imdb_id ← dict_getitem yaml_object "imdb_id";
    v_title ← dict_getitem yaml_object "title";
    v_year ← dict_getitem yaml_object "year";
    v_venue ← dict_getitem yaml_object "venue";
    v_sequence ← dict_getitem yaml_object "sequence";
    v_date ← dict_getitem yaml_object "date";
    a_imdb_id ← as_str v_imdb_id;
    a_title ← as_str v_title;
    a_year ← as_int v_year;
    a_venue ← as_str v_venue;
    a_sequence ← as_int v_sequence;
    a_date ← as_date v_date;
    mret {| imdb_id := a_imdb_id; title := a_title; year := a_year;
            venue := a_venue; sequence := a_sequence; date := a_date;
            file_path := Some yaml_file_path |}).

(** [title_with_year]: [f'{self.title} ({self.year})']. *)
Definition title_with_year (v : Viewing) : string :=
  title v +:+ " (" +:+ pretty (year v) +:+ ")".

(** [f'{n:04}']: sign first, then zeros up to four characters in all. *)
Definition format_04 (n : Z) : string :=
  if n <? 0 then "-" +:+ Fetcher.zfill 3 (pretty (- n))
  else Fetcher.zfill 4 (pretty n).

(** [to_yaml]: the mapping [yaml.dump] writes, keys in this order
    ([sort_keys=False]). *)
Definition to_yaml (v : Viewing) : gmap string scalar :=
  {[ "sequence" := SInt (sequence v);
     "date" := SDate (date v);
     "imdb_id" := SStr (imdb_id v);
     "title" := SStr (title_with_year v);
     "venue" := SStr (venue v) ]}.

(** [os.path.dirname], as the fetcher uses it. *)
Definition dirname : string → string := Fetcher.dirname.

(** [open(path, 'wb')] and [write]: the directory has to be there, and the
    path must not be a directory. *)
Definition write_yaml (path : string) (mapping : gmap string scalar) : M unit :=
  w ← get;
  let d := dirname path in
  if (bool_decide (d = "") || bool_decide (d ∈ dirs w))
     && negb (bool_decide (path ∈ dirs w))
  then put (set_files (<[path := Document mapping]> (files w)) w)
  else raise OSError.

Definition with_file_path (v : Viewing) (p : string) : Viewing :=
  {| imdb_id := imdb_id v; title := title v; year := year v;
     venue := venue v; sequence := sequence v; date := date v;
     file_path := Some p |}.

Section Slugify.

(** [slugify] of the [python-slugify] package. *)
Variable slugify : string → string.

(** [save]: the path written, and the object with its [file_path] set. *)
Definition save (self : Viewing) : M (string * Viewing) :=
  file_path ←
    (if truthy (file_path self) then mret (str (file_path self))
     else
       let slug := slugify (format_04 (sequence self) +:+ " " +:+ title_with_year self) in
       let file_path := Fetcher.path_join TABLE_NAME (slug +:+ ".yml") in
       ex ← Fetcher.path_exists (dirname file_path);
       _ ← (if ex : bool then mret () else Fetcher.makedirs (dirname file_path));
       mret file_path);
  _ ← write_yaml file_path (to_yaml self);
  mret (file_path, with_file_path self file_path).

End Slugify.

(** The columns as SQLite reads them: in ["id" "movie_imdb_id" TEXT ...]
    the first name is the column and the second belongs to its type. *)
Definition ViewingsTable_ddl (table_name : string) : list statement :=
  [ DropTableIfExists table_name;
    CreateTable "movies"
      [ {| col_name := "id"; col_decl := "movie_imdb_id TEXT NOT NULL";
           col_references := Some ("movies", "id") |};
        People.plain "date" "DATE NOT NULL";
        People.plain "sequence" "INT NOT NULL";
        People.plain "venue" "TEXT NOT NULL" ] ].

Definition ViewingsTable_drop_and_create : M unit :=
  _drop_and_create TABLE_NAME (ViewingsTable_ddl TABLE_NAME).

Definition asdict (v : Viewing) : gmap string value :=
  {[ "imdb_id" := VText (imdb_id v);
     "title" := VText (title v);
     "year" := VInt (year v);
     "venue" := VText (venue v);
     "sequence" := VInt (sequence v);
     "date" := VDate (date v);
     "file_path" := of_optional (file_path v) ]}.

Definition ViewingsTable_insert_ddl : insert_statement :=
  {| ins_table := "viewings";
     ins_columns := ["movie_imdb_id"; "date"; "sequence"; "venue"];
     ins_params := ["imdb_id"; "date"; "sequence"; "venue"] |}.

Definition ViewingsTable_insert (viewings : list Viewing) : M unit :=
  let parameter_seq := asdict <$> viewings in
  _ ← _insert TABLE_NAME ViewingsTable_insert_ddl parameter_seq;
  _ ← _add_index TABLE_NAME "sequence";
  _ ← _add_index TABLE_NAME "venue";
  _ ← _add_index TABLE_NAME "movie_imdb_id";
  _validate TABLE_NAME (length viewings).

(** A file name [glob('*.yml')] matches: no slash in it, no leading dot. *)
Fixpoint no_sep (s : string) : bool :=
  match s with
  | "" => true
  | String c s' => negb (Ascii.eqb c "/") && no_sep s'
  end.

Fixpoint strip_prefix (prefix s : string) : option string :=
  match prefix, s with
  | "", _ => Some s
  | String a prefix', String b s' =>
      if Ascii.eqb a b then strip_prefix prefix' s' else None
  | _, "" => None
  end.

Definition matches_yml (path : string) : bool :=
  match strip_prefix "viewings/" path with
  | Some name =>
      no_sep name
      && match name with String "." _ => false | _ => true end
      && match strip_prefix "lmy." (String.rev name) with
         | Some _ => true
         | None => false
         end
  | None => false
  end.

(** [glob(os.path.join(TABLE_NAME, '*.yml'))], in some order: the
    entries that match, files and directories alike. *)
Definition glob_yml : M (list string) :=
  w ← get;
  mret (filter (λ p, matches_yml p = true)
          (elements (dom (files w) ∪ dirs w))).

Fixpoint load_all (paths : list string) (viewings : list Viewing) : M (list Viewing) :=
  match paths with
  | [] => mret viewings
  | yaml_file_path :: rest =>
      v ← load yaml_file_path;
      load_all rest (viewings ++ [v])
  end.

Definition _load_viewings : M (list Viewing) :=
  paths ← glob_yml;
  load_all paths [].

(** [update]. *)
Definition update : M unit :=
  viewings ← _load_viewings;
  _ ← ViewingsTable_drop_and_create;
  ViewingsTable_insert viewings.

End Viewings.

(** * Properties *)

#[global] Instance result_eq_dec {A} `{EqDecision A} : EqDecision (result A).
Proof. solve_decision. Defined.

(** Unfolds the monads down to matches on results and worlds. *)
Ltac run :=
  unfold mbind, mret, M_bind, M_ret, result_bind, result_ret, lift, raise,
    emit, get, put, modify, ask in *; simpl in *.

Lemma getitem_Ok {A} (l : list A) (i : nat) (x : A) :
  getitem l i = Ok x ↔ l !! i = Some x.
Proof. unfold getitem. destruct (l !! i); split; congruence. Qed.

Lemma getitem_lt {A} (l : list A) (i : nat) :
  (i < length l)%nat → ∃ x, getitem l i = Ok x ∧ l !! i = Some x.
Proof.
  intros Hi. destruct (lookup_lt_is_Some_2 l i Hi) as [x Hx].
  exists x. split; [by apply getitem_Ok | done].
Qed.

(** ** Loops that file accepted rows in a dict

    [_extract_movies] and [_extract_people] are the same loop around
    different acceptance tests and constructors: for each row, test it,
    build the entity, store it under [str(fields[0])]. *)

Module DictLoop.

(** The key a row is filed under, [str(fields[0])]. *)
Definition key_of (fields : row) : string := str (default None (fields !! 0%nat)).

Lemma key_of_getitem (fields : row) (f0 : option string) :
  getitem fields 0 = Ok f0 → key_of fields = str f0.
Proof. intros H%getitem_Ok. unfold key_of. by rewrite H. Qed.

Lemma NoDup_key_inj (rows : list row) (f g : row) :
  NoDup (key_of <$> rows) → f ∈ rows → g ∈ rows → key_of f = key_of g → f = g.
Proof.
  intros Hnd Hf Hg Hk.
  apply list_elem_of_lookup in Hf as [i Hi].
  apply list_elem_of_lookup in Hg as [j Hj].
  assert (i = j) as ->.
  { eapply NoDup_lookup; [exact Hnd | |].
    - rewrite list_lookup_fmap, Hi. done.
    - rewrite list_lookup_fmap, Hj. simpl. by rewrite Hk. }
  congruence.
Qed.

Section Generic.

Context {V : Type}.
Variable accept : row → result bool.
Variable make : row → result V.
Variable loop : list row → gmap string V → result (gmap string V).
(** The number of columns the loop body reads. *)
Variable width : nat.

Hypothesis loop_nil : ∀ acc, loop [] acc = Ok acc.
Hypothesis loop_cons : ∀ fields rest acc,
  loop (fields :: rest) acc =
  match accept fields with
  | Ok true =>
      match make fields with
      | Ok v =>
          match getitem fields 0 with
          | Ok f0 => loop rest (<[str f0 := v]> acc)
          | Raise x => Raise x
          end
      | Raise x => Raise x
      end
  | Ok false => loop rest acc
  | Raise x => Raise x
  end.
Hypothesis accept_total : ∀ fields,
  (width ≤ length fields)%nat → ∃ b, accept fields = Ok b.
Hypothesis make_total : ∀ fields,
  (width ≤ length fields)%nat → ∃ v, make fields = Ok v.
Hypothesis width_pos : (1 ≤ width)%nat.

(** The last accepted row filed under [k]. *)
Fixpoint last_accepted (k : string) (rows : list row) : option row :=
  match rows with
  | [] => None
  | fields :: rest =>
      match last_accepted k rest with
      | Some g => Some g
      | None =>
          if decide (accept fields = Ok true ∧ key_of fields = k)
          then Some fields else None
      end
  end.

Lemma last_accepted_Some (k : string) (rows : list row) (fields : row) :
  last_accepted k rows = Some fields →
  fields ∈ rows ∧ accept fields = Ok true ∧ key_of fields = k.
Proof.
  induction rows as [|f rest IH]; simpl; [done|].
  destruct (last_accepted k rest) as [g|].
  - intros [= <-]. destruct IH as (? & ? & ?); [done|].
    split; [apply elem_of_cons; by right | done].
  - case_decide as Hd; [|done]. intros [= <-].
    split; [apply elem_of_cons; by left | done].
Qed.

Lemma last_accepted_is_Some (rows : list row) (fields : row) :
  fields ∈ rows → accept fields = Ok true →
  is_Some (last_accepted (key_of fields) rows).
Proof.
  induction rows as [|f rest IH]; intros Hin Hacc.
  - by apply elem_of_nil in Hin.
  - simpl. destruct (last_accepted (key_of fields) rest) as [g|] eqn:Hrest; [eauto|].
    apply elem_of_cons in Hin as [->|Hin].
    + rewrite decide_True; [eauto | done].
    + destruct (IH Hin Hacc) as [g Hg]. congruence.
Qed.

Lemma last_accepted_None (k : string) (rows : list row) :
  Forall (λ g, accept g = Ok true → key_of g ≠ k) rows →
  last_accepted k rows = None.
Proof.
  induction 1 as [|g rest Hg _ IH]; [done|]. simpl. rewrite IH.
  case_decide as Hd; [|done]. destruct Hd as [Hacc Hk]. by destruct (Hg Hacc).
Qed.

(** An accepted row that no accepted row with its key follows is the last
    accepted row filed under that key. *)
Lemma last_accepted_last (before after : list row) (fields : row) :
  accept fields = Ok true →
  Forall (λ g, accept g = Ok true → key_of g ≠ key_of fields) after →
  last_accepted (key_of fields) (before ++ fields :: after) = Some fields.
Proof.
  intros Hacc Hafter. induction before as [|b before IH]; simpl.
  - rewrite (last_accepted_None _ _ Hafter). by rewrite decide_True.
  - by rewrite IH.
Qed.

(** What the loop leaves under each key: the entity of the last accepted
    row filed there, or what the dict held before. *)
Lemma loop_lookup (rows : list row) (acc : gmap string V) :
  Forall (λ fields, (width ≤ length fields)%nat) rows →
  ∃ d, loop rows acc = Ok d
    ∧ ∀ k, d !! k = match last_accepted k rows with
                    | Some fields =>
                        match make fields with Ok v => Some v | Raise _ => None end
                    | None => acc !! k
                    end.
Proof.
  intros Hwide. revert acc.
  induction Hwide as [|fields rest Hlen _ IH]; intros acc.
  - exists acc. by rewrite loop_nil.
  - destruct (accept_total fields Hlen) as [b Hb].
    destruct (make_total fields Hlen) as [v Hv].
    destruct (getitem_lt fields 0) as (f0 & Hf0 & _); [lia|].
    pose proof (key_of_getitem _ _ Hf0) as Hkey.
    assert (loop (fields :: rest) acc
            = loop rest (if b then <[str f0 := v]> acc else acc)) as Hstep.
    { rewrite loop_cons, Hb. destruct b; [by rewrite Hv, Hf0 | done]. }
    destruct (IH (if b then <[str f0 := v]> acc else acc)) as (d & Hrun & Hlook).
    exists d. split; [by rewrite Hstep|].
    intros k. rewrite Hlook. simpl.
    destruct (last_accepted k rest); [done|].
    case_decide as Hd.
    + destruct Hd as [Hacc <-].
      assert (b = true) as -> by congruence.
      by rewrite Hkey, lookup_insert_eq, Hv.
    + destruct b; [|done].
      rewrite lookup_insert_ne; [done|].
      intros Heq. apply Hd. split; [exact Hb | congruence].
Qed.

(** The loop from an empty dict: it returns; every accepted row has an
    entry under its key; every entry is the entity of an accepted row with
    that key; with distinct keys, a row is accepted exactly when the dict
    holds its own entity under its key. *)
Lemma loop_spec (rows : list row) :
  Forall (λ fields, (width ≤ length fields)%nat) rows →
  ∃ d, loop rows ∅ = Ok d
    ∧ (∀ fields, fields ∈ rows → accept fields = Ok true →
         is_Some (d !! key_of fields))
    ∧ (∀ k v, d !! k = Some v →
         ∃ fields, fields ∈ rows ∧ accept fields = Ok true
                   ∧ key_of fields = k ∧ make fields = Ok v)
    ∧ (NoDup (key_of <$> rows) → ∀ fields, fields ∈ rows →
         (accept fields = Ok true ↔
            ∃ v, make fields = Ok v ∧ d !! key_of fields = Some v)).
Proof.
  intros Hwide.
  destruct (loop_lookup rows ∅ Hwide) as (d & Hrun & Hlook).
  exists d. split; [done|].
  assert (∀ fields, fields ∈ rows → (width ≤ length fields)%nat) as Hlen.
  { by apply Forall_forall. }
  assert (∀ k v, d !! k = Some v →
            ∃ fields, last_accepted k rows = Some fields ∧ make fields = Ok v)
    as Hentry.
  { intros k v Hk. rewrite Hlook in Hk.
    destruct (last_accepted k rows) as [g|]; [|by rewrite lookup_empty in Hk].
    exists g. split; [done|]. destruct (make g); congruence. }
  assert (∀ fields, fields ∈ rows → accept fields = Ok true →
            ∃ g v, last_accepted (key_of fields) rows = Some g
                   ∧ make g = Ok v ∧ d !! key_of fields = Some v)
    as Hfiled.
  { intros fields Hin Hacc.
    destruct (last_accepted_is_Some rows fields Hin Hacc) as [g Hg].
    destruct (last_accepted_Some _ _ _ Hg) as (Hgin & _ & Hgk).
    destruct (make_total g (Hlen g Hgin)) as [v Hv].
    exists g, v. by rewrite Hlook, Hg, Hv. }
  split; [|split].
  - intros fields Hin Hacc.
    destruct (Hfiled fields Hin Hacc) as (g & v & _ & _ & Hv). eauto.
  - intros k v Hk. destruct (Hentry k v Hk) as (g & Hg & Hv).
    destruct (last_accepted_Some _ _ _ Hg) as (Hgin & Hgacc & Hgk).
    exists g. done.
  - intros Hnd fields Hin. split.
    + intros Hacc.
      destruct (Hfiled fields Hin Hacc) as (g & v & Hg & Hgv & Hv).
      destruct (last_accepted_Some _ _ _ Hg) as (Hgin & _ & Hgk).
      assert (g = fields) as -> by (by eapply NoDup_key_inj).
      eauto.
    + intros (v & _ & Hv). destruct (Hentry _ v Hv) as (g & Hg & _).
      destruct (last_accepted_Some _ _ _ Hg) as (Hgin & Hgacc & Hgk).
      assert (g = fields) as -> by (by eapply NoDup_key_inj).
      exact Hgacc.
Qed.

End Generic.

End DictLoop.

(** ** Concrete snapshots, worlds and environments *)

Module Fixtures.

Definition basics_path : string := "db/2020-01-02/title.basics.tsv.gz".
Definition names_path : string := "db/2020-01-02/name.basics.tsv.gz".
Definition akas_path : string := "db/2020-01-02/title.akas.tsv.gz".

Definition date0 : datetime := {| dt_year := 2020; dt_month := 1; dt_day := 2 |}.

(** A feature, a documentary, a short, an adult title, a title without a
    year. *)
Definition basics_rows : list row :=
  [ [Some "tt0000001"; Some "movie"; Some "Alpha"; Some "Alpha"; Some "0";
     Some "1999"; None; Some "90"; Some "Drama,Comedy"];
    [Some "tt0000002"; Some "movie"; Some "Beta"; Some "Beta"; Some "0";
     Some "2001"; None; Some "80"; Some "Documentary"];
    [Some "tt0000003"; Some "short"; Some "Gamma"; Some "Gamma"; Some "0";
     Some "2002"; None; Some "10"; Some "Drama"];
    [Some "tt0000004"; Some "movie"; Some "Delta"; Some "Delta"; Some "1";
     Some "2003"; None; Some "95"; Some "Drama"];
    [Some "tt0000005"; Some "movie"; Some "Epsilon"; Some "Epsilon"; Some "0";
     None; None; None; Some "Crime,Documentary"] ].

Definition john : row :=
  [Some "nm0000001"; Some "John Smith"; Some "1950"; None; Some "actor";
   Some "tt0000002,tt0000001"].
Definition madonna : row :=
  [Some "nm0000002"; Some "Madonna"; None; None; None; Some "tt0000003"].
Definition mary : row :=
  [Some "nm0000003"; Some "Mary Jane Watson"; None; None; None; None].

(** A person known only for the documentary. *)
Definition veteran : row :=
  [Some "nm0000004"; Some "Ann Lee"; None; None; None; Some "tt0000002"].

Definition names_rows : list row := [john; madonna; mary; veteran].

(** A title row whose identifier column is empty, and a person row whose
    "known for" column is empty. *)
Definition untitled : row :=
  [Some ""; Some "movie"; Some "Zeta"; Some "Zeta"; Some "0"; Some "1987";
   None; Some "70"; Some "Drama"].
Definition unknown_for : row :=
  [Some "nm0000009"; Some "Jo Doe"; None; None; None; Some ""].

Definition akas_rows : list row :=
  [ [Some "tt0000001"; Some "7"; Some "Alfa"; Some "ES"; None; None; None; Some "0"];
    [Some "tt0000003"; Some "1"; Some "Gama"; Some "ES"; None; None; None; Some "0"];
    [Some "tt0000001"; Some "3"; Some "Alpha"; None; None; None; None; Some "1"] ].

(** A server that answers every probe with the same date and serves each
    snapshot whole; a database without faults. *)
Definition env0 : env :=
  {| DB_DIR := "db";
     last_modified := λ _, Ok date0;
     curl_outcome := λ url,
       if bool_decide (url = "https://datasets.imdbws.com/title.basics.tsv.gz")
       then CurlOk basics_rows
       else if bool_decide (url = "https://datasets.imdbws.com/name.basics.tsv.gz")
       then CurlOk names_rows
       else CurlOk akas_rows;
     curl_other := λ _, {| stray_files := ∅; stray_ok := false |};
     db_fault := λ _ _, false |}.

(** The same server when it refuses every transfer, and when every
    transfer breaks off partway. *)
Definition env_down : env :=
  {| DB_DIR := "db"; last_modified := λ _, Ok date0;
     curl_outcome := λ _, CurlRefused;
     curl_other := λ _, {| stray_files := ∅; stray_ok := false |};
     db_fault := λ _ _, false |}.
Definition env_torn : env :=
  {| DB_DIR := "db"; last_modified := λ _, Ok date0;
     curl_outcome := λ _, CurlInterrupted;
     curl_other := λ _, {| stray_files := ∅; stray_ok := false |};
     db_fault := λ _ _, false |}.


(** A viewing that has not been saved yet. *)
Definition viewing0 : Viewings.Viewing :=
  {| Viewings.imdb_id := "tt0000001"; Viewings.title := "Alpha";
     Viewings.year := 1999; Viewings.venue := "Home"; Viewings.sequence := 1;
     Viewings.date := {| dt_year := 2020; dt_month := 3; dt_day := 7 |};
     Viewings.file_path := None |}.

(** A fresh machine: nothing downloaded, an empty database. *)
Definition fresh : world :=
  {| dirs := ∅; files := ∅; markers := ∅; tables := ∅;
     title_ids_cache := None; trace := [] |}.

(** The three snapshots in place, nothing loaded yet. *)
Definition downloaded : world :=
  {| dirs := {[ "db/2020-01-02" ]};
     files := {[ basics_path := Whole basics_rows;
                 names_path := Whole names_rows;
                 akas_path := Whole akas_rows ]};
     markers := ∅; tables := ∅; title_ids_cache := None; trace := [] |}.

End Fixtures.

(** ** The Movie extractor *)

Module MoviesProps.
Import Movies DictLoop.

Lemma title_is_valid_iff (fields : row) :
  _title_is_valid fields = Ok true ↔
    fields !! 1%nat = Some (Some "movie")
    ∧ (∃ adult, fields !! 4%nat = Some adult ∧ adult ≠ Some "1")
    ∧ (∃ y, fields !! 5%nat = Some (Some y))
    ∧ (∃ genres, fields !! 8%nat = Some genres
                 ∧ "Documentary" ∉ Py.split "," (str genres)).
Proof.
  unfold _title_is_valid, getitem. run.
  destruct (fields !! 1%nat) as [f1|]; simpl; [|naive_solver].
  case_bool_decide as H1; [naive_solver|].
  subst f1.
  destruct (fields !! 4%nat) as [f4|]; simpl; [|naive_solver].
  case_bool_decide as H4; [naive_solver|].
  destruct (fields !! 5%nat) as [f5|]; simpl; [|naive_solver].
  case_bool_decide as H5; [naive_solver|].
  destruct f5 as [y|]; [|done].
  destruct (fields !! 8%nat) as [f8|]; simpl; [|naive_solver].
  case_bool_decide as H8.
  - rewrite elem_of_list_to_set in H8. naive_solver.
  - rewrite elem_of_list_to_set in H8. naive_solver.
Qed.

Lemma title_is_valid_total (fields : row) :
  (9 ≤ length fields)%nat → ∃ b, _title_is_valid fields = Ok b.
Proof.
  intros Hlen. unfold _title_is_valid.
  destruct (getitem_lt fields 1) as (f1 & -> & _); [lia|].
  destruct (getitem_lt fields 4) as (f4 & -> & _); [lia|].
  destruct (getitem_lt fields 5) as (f5 & -> & _); [lia|].
  destruct (getitem_lt fields 8) as (f8 & -> & _); [lia|].
  run. repeat case_bool_decide; eauto.
Qed.

Lemma Movie_init_total (fields : row) :
  (9 ≤ length fields)%nat → ∃ m, Movie_init fields = Ok m.
Proof.
  intros Hlen. unfold Movie_init.
  destruct (getitem_lt fields 0) as (f0 & -> & _); [lia|].
  destruct (getitem_lt fields 2) as (f2 & -> & _); [lia|].
  destruct (getitem_lt fields 3) as (f3 & -> & _); [lia|].
  destruct (getitem_lt fields 5) as (f5 & -> & _); [lia|].
  destruct (getitem_lt fields 7) as (f7 & -> & _); [lia|].
  run. eauto.
Qed.

Lemma Movie_init_imdb_id (fields : row) (m : Movie) :
  Movie_init fields = Ok m → imdb_id m = key_of fields.
Proof.
  unfold Movie_init, key_of, getitem. run.
  destruct (fields !! 0%nat) as [f0|]; [|done]. simpl.
  repeat (match goal with |- context [match ?l !! ?i with _ => _ end] =>
                            destruct (l !! i); [|done] end; simpl).
  by intros [= <-].
Qed.

Lemma extract_movies_loop_cons (fields : row) (rest : list row)
    (acc : gmap string Movie) :
  _extract_movies_loop (fields :: rest) acc =
  match _title_is_valid fields with
  | Ok true =>
      match Movie_init fields with
      | Ok v =>
          match getitem fields 0 with
          | Ok f0 => _extract_movies_loop rest (<[str f0 := v]> acc)
          | Raise x => Raise x
          end
      | Raise x => Raise x
      end
  | Ok false => _extract_movies_loop rest acc
  | Raise x => Raise x
  end.
Proof.
  simpl. run. destruct (_title_is_valid fields) as [[]|]; [|done..].
  destruct (Movie_init fields); [|done]. by destruct (getitem fields 0).
Qed.

Lemma extract_movies_run (path : string) (e : env) (w : world) (rows : list row) :
  files w !! path = Some (Whole rows) →
  _extract_movies path e w
  = (_extract_movies_loop rows ∅,
     {| dirs := dirs w; files := files w; markers := markers w;
        tables := tables w; title_ids_cache := title_ids_cache w;
        trace := trace w ++ [EvExtract path] |}).
Proof. intros Hfile. unfold _extract_movies, extract. run. by rewrite Hfile. Qed.

(** C1, amended.  Over a snapshot of nine-column rows the Movie extractor
    returns a mapping, and (1) it accepts a row exactly when the type
    field is ['movie'], the adult field is not the text ['1'], the year is
    not null and the comma-separated genres do not hold ['Documentary'];
    (2) every accepted row has an entry under its identifier, an entity
    with that identifier; (3) every entry is the entity of an accepted row
    with that identifier, so no entry comes from a rejected row; (4) an
    accepted row that no accepted row with the same identifier follows is
    in the mapping itself: for each identifier the last accepted row
    wins; (5) when the identifiers of the snapshot are distinct, a row is
    accepted exactly when the mapping holds its own entity under its
    identifier. *)
Theorem extract_movies_accepts (path : string) (e : env) (w : world)
    (rows : list row) :
  files w !! path = Some (Whole rows) →
  Forall (λ fields, (9 ≤ length fields)%nat) rows →
  ∃ movies w',
    _extract_movies path e w = (Ok movies, w')
    ∧ (∀ fields, fields ∈ rows →
         (_title_is_valid fields = Ok true ↔
            fields !! 1%nat = Some (Some "movie")
            ∧ fields !! 4%nat ≠ Some (Some "1")
            ∧ fields !! 5%nat ≠ Some None
            ∧ ∀ genres, fields !! 8%nat = Some genres →
                        "Documentary" ∉ Py.split "," (str genres)))
    ∧ (∀ fields, fields ∈ rows → _title_is_valid fields = Ok true →
         ∃ m, movies !! key_of fields = Some m ∧ imdb_id m = key_of fields)
    ∧ (∀ k m, movies !! k = Some m →
         ∃ fields, fields ∈ rows ∧ _title_is_valid fields = Ok true
                   ∧ key_of fields = k ∧ Movie_init fields = Ok m)
    ∧ (∀ before fields after,
         rows = before ++ fields :: after →
         _title_is_valid fields = Ok true →
         Forall (λ g, _title_is_valid g = Ok true → key_of g ≠ key_of fields)
           after →
         ∃ m, Movie_init fields = Ok m ∧ movies !! key_of fields = Some m)
    ∧ (NoDup (key_of <$> rows) → ∀ fields, fields ∈ rows →
         (_title_is_valid fields = Ok true ↔
            ∃ m, Movie_init fields = Ok m ∧ movies !! key_of fields = Some m)).
Proof.
  intros Hfile Hwide.
  destruct (loop_spec _title_is_valid Movie_init _extract_movies_loop 9
              (λ _, eq_refl) extract_movies_loop_cons
              title_is_valid_total Movie_init_total ltac:(lia) rows Hwide)
    as (movies & Hrun & Hin & Hfrom & Hdistinct).
  destruct (loop_lookup _title_is_valid Movie_init _extract_movies_loop 9
              (λ _, eq_refl) extract_movies_loop_cons
              title_is_valid_total Movie_init_total ltac:(lia) rows ∅ Hwide)
    as (movies' & Hrun' & Hlook).
  assert (movies' = movies) as -> by congruence.
  exists movies. eexists.
  split; [by rewrite (extract_movies_run _ _ _ rows), Hrun|].
  split; [|split; [|split; [|split]]]; [| | exact Hfrom | | exact Hdistinct].
  - intros fields Hf. rewrite title_is_valid_iff.
    pose proof (proj1 (Forall_forall _ _) Hwide fields Hf) as Hl. simpl in Hl.
    destruct (getitem_lt fields 4) as (f4 & _ & H4); [lia|].
    destruct (getitem_lt fields 5) as (f5 & _ & H5); [lia|].
    destruct (getitem_lt fields 8) as (f8 & _ & H8); [lia|].
    rewrite H4, H5, H8. split.
    + intros (H1 & (a & [= <-] & Ha) & (y & [= ->]) & (g & [= <-] & Hg)).
      repeat split; [done | congruence | done | by intros ? [= <-]].
    + intros (H1 & Ha & Hy & Hg). split; [done|]. split; [|split].
      * exists f4. split; [done | congruence].
      * destruct f5 as [y|]; [by exists y | done].
      * exists f8. split; [done | by apply Hg].
  - intros fields Hf Hacc. destruct (Hin fields Hf Hacc) as [m Hm].
    exists m. split; [done|].
    destruct (Hfrom _ _ Hm) as (g & _ & _ & Hgk & Hgm).
    rewrite <- Hgk. by apply Movie_init_imdb_id.
  - intros before fields after -> Hacc Hafter.
    rewrite Hlook, (last_accepted_last _ before after fields Hacc Hafter).
    assert (fields ∈ before ++ fields :: after) as Hf
      by (apply elem_of_app; right; apply elem_of_cons; by left).
    destruct (Movie_init_total fields) as [m Hm].
    { apply (proj1 (Forall_forall _ _) Hwide fields Hf). }
    exists m. by rewrite Hm.
Qed.

(** The snapshot of [Fixtures]: nine-column rows, read whole. *)
Lemma extract_movies_accepts_witness :
  files Fixtures.downloaded !! Fixtures.basics_path = Some (Whole Fixtures.basics_rows)
  ∧ Forall (λ fields : row, (9 ≤ length fields)%nat) Fixtures.basics_rows
  ∧ ∃ movies w',
      _extract_movies Fixtures.basics_path Fixtures.env0 Fixtures.downloaded
      = (Ok movies, w')
      ∧ ∀ k m, movies !! k = Some m →
          ∃ fields, fields ∈ Fixtures.basics_rows
                    ∧ _title_is_valid fields = Ok true
                    ∧ key_of fields = k ∧ Movie_init fields = Ok m.
Proof.
  assert (files Fixtures.downloaded !! Fixtures.basics_path
          = Some (Whole Fixtures.basics_rows)) as Hfile by (vm_compute; reflexivity).
  assert (Forall (λ fields : row, (9 ≤ length fields)%nat) Fixtures.basics_rows)
    as Hwide by (repeat constructor; simpl; lia).
  split; [exact Hfile|]. split; [exact Hwide|].
  destruct (extract_movies_accepts Fixtures.basics_path Fixtures.env0
              Fixtures.downloaded Fixtures.basics_rows Hfile Hwide)
    as (movies & w' & Hrun & _ & _ & Hfrom & _).
  exists movies, w'. split; [exact Hrun | exact Hfrom].
Defined.

(** C1 as stated fails on rows the extractor can receive.  The adult test
    is a comparison with the text ['1'], not a truth test: a row whose
    adult field is ['true'], truthy and not ['0'], is accepted and filed.
    And not every accepted row appears in the mapping: of two accepted
    rows with one identifier the mapping holds the second, and the entity
    of the first is nowhere in it. *)
Lemma flagged_and_replaced_rows :
  let flagged : row :=
    [Some "tt0000007"; Some "movie"; Some "Eta"; Some "Eta"; Some "true";
     Some "1990"; None; Some "90"; Some "Drama"] in
  let first : row :=
    [Some "tt0000001"; Some "movie"; Some "Alpha"; Some "Alpha"; Some "0";
     Some "1999"; None; Some "90"; Some "Drama"] in
  let second : row :=
    [Some "tt0000001"; Some "movie"; Some "Alpha Again"; Some "Alpha Again";
     Some "0"; Some "2009"; None; Some "95"; Some "Drama"] in
  (flagged !! 4%nat = Some (Some "true")
   ∧ truthy (Some "true") = true
   ∧ _title_is_valid flagged = Ok true
   ∧ ∃ movies, _extract_movies_loop [flagged] ∅ = Ok movies
               ∧ is_Some (movies !! "tt0000007"))
  ∧ (_title_is_valid first = Ok true ∧ _title_is_valid second = Ok true
     ∧ ∃ movies m1 m2,
         _extract_movies_loop [first; second] ∅ = Ok movies
         ∧ Movie_init first = Ok m1 ∧ Movie_init second = Ok m2
         ∧ movies !! "tt0000001" = Some m2
         ∧ ∀ k, movies !! k ≠ Some m1).
Proof.
  intros flagged first second. split.
  - split; [reflexivity|]. split; [reflexivity|]. split; [reflexivity|].
    eexists. split; [reflexivity|]. by rewrite lookup_insert_eq.
  - split; [reflexivity|]. split; [reflexivity|].
    eexists _, _, _. split; [reflexivity|]. split; [reflexivity|].
    split; [reflexivity|]. split; [by rewrite lookup_insert_eq|].
    intros k. destruct (decide (k = "tt0000001")) as [->|Hk].
    + by rewrite lookup_insert_eq.
    + by rewrite !lookup_insert_ne, lookup_empty.
Qed.

End MoviesProps.

(** ** Strings *)

Module Str.

Fixpoint take_while (p : ascii → bool) (s : string) : string :=
  match s with
  | String a s' => if p a then String a (take_while p s') else ""
  | "" => ""
  end.

Fixpoint drop_while (p : ascii → bool) (s : string) : string :=
  match s with
  | String a s' => if p a then drop_while p s' else s
  | "" => ""
  end.

Fixpoint all_chars (p : ascii → bool) (s : string) : bool :=
  match s with
  | String a s' => p a && all_chars p s'
  | "" => true
  end.

Lemma app_cons (a : ascii) (s t : string) :
  String a s +:+ t = String a (s +:+ t).
Proof. reflexivity. Qed.

Lemma app_nil_l (t : string) : "" +:+ t = t.
Proof. reflexivity. Qed.

Lemma length_app (s t : string) :
  String.length (s +:+ t) = (String.length s + String.length t)%nat.
Proof. induction s as [|a s IH]; [done|]. rewrite app_cons. simpl. by rewrite IH. Qed.

Lemma take_drop_while (p : ascii → bool) (s : string) :
  take_while p s +:+ drop_while p s = s.
Proof.
  induction s as [|a s IH]; [done|]. simpl.
  destruct (p a); [|done]. by rewrite app_cons, IH.
Qed.

Lemma take_while_all (p : ascii → bool) (s t : string) :
  all_chars p s = true →
  match t with String a _ => p a = false | "" => True end →
  take_while p (s +:+ t) = s ∧ drop_while p (s +:+ t) = t.
Proof.
  intros Hs Ht. induction s as [|a s IH].
  - rewrite app_nil_l. destruct t as [|a t]; [done|]. simpl. by rewrite Ht.
  - simpl in Hs. apply andb_true_iff in Hs as [Ha Hs].
    rewrite app_cons. simpl. rewrite Ha.
    destruct (IH Hs) as [-> ->]. done.
Qed.

Lemma drop_while_head (p : ascii → bool) (s : string) (a : ascii) (t : string) :
  drop_while p s = String a t → p a = false.
Proof.
  induction s as [|b s IH]; [done|]. simpl.
  destruct (p b) eqn:Hb; [done|]. by intros [= <- _].
Qed.

Lemma all_chars_drop_while (p : ascii → bool) (s : string) :
  all_chars p s = true → drop_while p s = "" ∧ take_while p s = s.
Proof.
  induction s as [|a s IH]; [done|]. simpl.
  intros [Ha Hs]%andb_true_iff. rewrite Ha.
  destruct (IH Hs) as [-> ->]. done.
Qed.

Lemma substring_all (s : string) : String.substring 0 (String.length s) s = s.
Proof. induction s as [|a s IH]; [done|]. simpl. by rewrite IH. Qed.

Lemma substring_0_0 (s : string) : String.substring 0 0 s = "".
Proof. by destruct s. Qed.

Lemma substring_prefix (s t : string) :
  String.substring 0 (String.length s) (s +:+ t) = s.
Proof.
  induction s as [|a s IH]; [apply substring_0_0|].
  rewrite app_cons. simpl. by rewrite IH.
Qed.

Lemma substring_skip (s t : string) (n m : nat) :
  String.substring (String.length s + n) m (s +:+ t) = String.substring n m t.
Proof. induction s as [|a s IH]; [done|]. rewrite app_cons. simpl. exact IH. Qed.

End Str.

(** ** The matcher on [NAME_REGEX] *)

Module ReProps.
Import Re Str.

(** A greedy star whose continuation cannot start with a character of the
    class never backtracks: it takes the longest run. *)
Lemma star_commit (p : ascii → bool) (k : config → option config)
    (i : nat) (s : string) (groups : list (option string)) :
  (∀ j a s' g, p a = true →
     k {| pos := j; rest := String a s'; caps := g |} = None) →
  star p k i s groups
  = k {| pos := i + String.length (take_while p s);
         rest := drop_while p s; caps := groups |}.
Proof.
  intros Hk. revert i. induction s as [|a s IH]; intros i; simpl.
  - by rewrite Nat.add_0_r.
  - destruct (p a) eqn:Ha.
    + rewrite IH. simpl. rewrite Nat.add_succ_r.
      destruct (k _) eqn:Hrun; [done|]. by rewrite Hk.
    + by rewrite Nat.add_0_r.
Qed.

(** A pattern anchored at the start matches nowhere else. *)
Lemma search_anchored (subject : string) (r : regex) (must_advance : bool)
    (i : nat) (s : string) :
  (1 ≤ i)%nat → search subject (Seq Bol r) must_advance i s = None.
Proof.
  revert i must_advance. induction s as [|a s IH]; intros i must Hi.
  - simpl. unfold try_at. simpl. by destruct i; [lia|].
  - simpl. unfold try_at. simpl. destruct i; [lia|]. simpl.
    apply IH. lia.
Qed.

Lemma dot_not_at_end (b : ascii) (s : string) :
  dot b = true → at_end (String b s) = false.
Proof.
  unfold dot. destruct (Ascii.eqb_spec b "010") as [->|Hb]; [done|]. intros _.
  destruct s; [|by destruct b as [[] [] [] [] [] [] [] []]].
  destruct b as [[] [] [] [] [] [] [] []]; try done.
Qed.

Lemma name_regex_at_0 (s : string) :
  try_at s People.NAME_REGEX false 0 s =
  match drop_while nonspace s with
  | "" => None
  | String a r =>
      if at_end (drop_while dot r) then
        Some {| pos := S (String.length (take_while nonspace s) + String.length (take_while dot r));
                rest := drop_while dot r;
                caps := [Some (take_while nonspace s); Some (take_while dot r)] |}
      else None
  end.
Proof.
  unfold try_at, People.NAME_REGEX. simpl.
  rewrite star_commit.
  2:{ intros j a s' g Ha. simpl. unfold space. unfold nonspace in Ha.
      by destruct (isspace a). }
  simpl.
  destruct (drop_while nonspace s) as [|a r] eqn:Hdrop; [done|].
  apply drop_while_head in Hdrop as Ha. unfold nonspace in Ha. unfold space.
  destruct (isspace a); [|done]. simpl.
  rewrite star_commit.
  2:{ intros j b s' g Hb. cbn [run rest pos caps]. by rewrite dot_not_at_end. }
  simpl. destruct (at_end (drop_while dot r)); [|done].
  pose proof (take_drop_while nonspace s) as Hs. rewrite Hdrop in Hs.
  pose proof (take_drop_while dot r) as Hr.
  set (pre := take_while nonspace s) in *.
  set (g2 := take_while dot r) in *.
  assert (String.substring 0 (String.length pre - 0) s = pre) as ->.
  { rewrite Nat.sub_0_r, <- Hs at 1. apply substring_prefix. }
  assert (String.substring (S (String.length pre))
            (String.length pre + String.length g2 - String.length pre) s = g2) as ->.
  { replace (String.length pre + String.length g2 - String.length pre)%nat
      with (String.length g2) by lia.
    replace (S (String.length pre)) with (String.length pre + 1)%nat by lia.
    rewrite <- Hs, substring_skip. simpl. rewrite <- Hr at 1. apply substring_prefix. }
  done.
Qed.

Lemma name_regex_split (s : string) :
  Re.split People.NAME_REGEX s =
  match drop_while nonspace s with
  | "" => [Some s]
  | String a r =>
      if at_end (drop_while dot r)
      then [Some ""; Some (take_while nonspace s); Some (take_while dot r);
            Some (drop_while dot r)]
      else [Some s]
  end.
Proof.
  assert (slice s 0 (String.length s) = s) as Hwhole.
  { unfold slice. rewrite Nat.sub_0_r. apply substring_all. }
  assert (search s People.NAME_REGEX false 0 s =
          match try_at s People.NAME_REGEX false 0 s with
          | Some c => Some (0%nat, c)
          | None => None
          end) as Hsearch.
  { destruct s as [|a s']; cbn [search];
      (destruct (try_at _ People.NAME_REGEX false 0%nat _); [done|]); [done|].
    unfold People.NAME_REGEX. by rewrite search_anchored. }
  unfold Re.split.
  replace (2 * String.length s + 2)%nat with (S (S (2 * String.length s))) by lia.
  cbn [split_from]. rewrite Hsearch, name_regex_at_0.
  destruct (drop_while nonspace s) as [|a r] eqn:Hdrop; [by rewrite Hwhole|].
  destruct (at_end (drop_while dot r)) eqn:Hend; [|by rewrite Hwhole].
  cbn [pos rest caps]. unfold People.NAME_REGEX at 1. rewrite search_anchored by lia.
  simpl. f_equal; [unfold slice; by rewrite substring_0_0|]. do 2 f_equal.
  pose proof (take_drop_while nonspace s) as Hs. rewrite Hdrop in Hs.
  pose proof (take_drop_while dot r) as Hr.
  set (pre := take_while nonspace s) in *.
  set (g2 := take_while dot r) in *.
  set (tail := drop_while dot r) in *.
  unfold slice. f_equal.
  assert (String.length s = String.length pre + S (String.length g2 + String.length tail))%nat as Hlen.
  { rewrite <- Hs, length_app. simpl. by rewrite <- Hr, length_app. }
  rewrite Hlen.
  replace (String.length pre + S (String.length g2 + String.length tail)
           - S (String.length pre + String.length g2))%nat
    with (String.length tail) by lia.
  replace (S (String.length pre + String.length g2))
    with (String.length pre + S (String.length g2))%nat by lia.
  rewrite <- Hs, substring_skip. simpl. rewrite <- Hr.
  replace (String.length g2) with (String.length g2 + 0)%nat at 1 by lia.
  rewrite substring_skip. by rewrite substring_all.
Qed.

End ReProps.

(** ** The registry of accepted movie identifiers *)

Module RegistryProps.
Import Movies.

(** The identifiers the persisted Movie table holds. *)
Definition table_ids (w : world) : option (gset string) :=
  match tables w !! "movies" with
  | Some t =>
      match select_imdb_id t with
      | Ok vals => Some (list_to_set (omap text_of vals))
      | Raise _ => None
      end
  | None => None
  end.

(** A call of [title_ids] that returns either answers from the slot, or
    queries the table and fills the slot. *)
Lemma title_ids_Ok (e : env) (w w1 : world) (ids : gset string) :
  title_ids e w = (Ok ids, w1) →
  (title_ids_cache w = Some ids ∧ w1 = w)
  ∨ (title_ids_cache w = None ∧ table_ids w = Some ids
     ∧ w1 = {| dirs := dirs w; files := files w; markers := markers w;
               tables := tables w; title_ids_cache := Some ids;
               trace := trace w ++ [EvQueryTitleIds] |}).
Proof.
  unfold title_ids, table_ids. run.
  destruct (title_ids_cache w) as [c|] eqn:Hc.
  - intros [= <- <-]. by left.
  - simpl. destruct (tables w !! "movies") as [t|]; [|done].
    destruct (select_imdb_id t) as [vals|]; [|done]. simpl.
    intros [= <- <-]. by right.
Qed.

Lemma title_ids_files (e : env) (w w1 : world) (ids : gset string) :
  title_ids e w = (Ok ids, w1) → files w1 = files w.
Proof. intros [[_ ->]|(_ & _ & ->)]%title_ids_Ok; done. Qed.

End RegistryProps.

(** ** The Person entity: name split and acceptance *)

Module PeopleProps.
Import People DictLoop Str.

(** The list [Person.__init__] reads the name parts from, in closed form. *)
Lemma name_match_spec (name : string) :
  name_match name = Ok
    match drop_while Re.nonspace name with
    | "" => [Some ""; Some name; Some ""; Some ""]
    | String a r =>
        if Re.at_end (drop_while Re.dot r)
        then [Some ""; Some (take_while Re.nonspace name);
              Some (take_while Re.dot r); Some (drop_while Re.dot r)]
        else [Some ""; Some name; Some ""; Some ""]
    end.
Proof.
  unfold name_match. rewrite ReProps.name_regex_split.
  destruct (drop_while Re.nonspace name) as [|a r]; [done|].
  by destruct (Re.at_end _).
Qed.

Lemma name_match_parts (name : string) :
  ∃ m0 first last m3, name_match name = Ok [m0; first; last; m3].
Proof.
  rewrite name_match_spec.
  destruct (drop_while Re.nonspace name) as [|a r]; [by eexists _, _, _, _|].
  destruct (Re.at_end _); by eexists _, _, _, _.
Qed.

Lemma Person_init_names (fields : row) (p : Person) :
  Person_init fields = Ok p →
  ∃ f1 m0 m3, fields !! 1%nat = Some f1
    ∧ name_match (str f1) = Ok [m0; first_name p; last_name p; m3]
    ∧ imdb_id p = key_of fields ∧ full_name p = str f1
    ∧ Some (known_for_title_ids p) = fields !! 5%nat.
Proof.
  unfold Person_init, key_of, getitem.
  destruct (fields !! 1%nat) as [f1|]; [|done]. run.
  destruct (name_match_parts (str f1)) as (m0 & first & last & m3 & Hm).
  rewrite Hm. simpl.
  destruct (fields !! 0%nat) as [f0|]; [|done]. simpl.
  repeat (match goal with |- context [match ?l !! ?i with _ => _ end] =>
                            destruct (l !! i); [|done] end; simpl).
  intros [= <-]. simpl. by exists f1, m0, m3.
Qed.

Lemma Person_init_total (fields : row) :
  (6 ≤ length fields)%nat → ∃ p, Person_init fields = Ok p.
Proof.
  intros Hlen. unfold Person_init.
  destruct (getitem_lt fields 1) as (f1 & -> & _); [lia|]. run.
  destruct (name_match_parts (str f1)) as (m0 & first & last & m3 & ->).
  destruct (getitem_lt fields 0) as (f0 & -> & _); [lia|].
  destruct (getitem_lt fields 2) as (f2 & -> & _); [lia|].
  destruct (getitem_lt fields 3) as (f3 & -> & _); [lia|].
  destruct (getitem_lt fields 4) as (f4 & -> & _); [lia|].
  destruct (getitem_lt fields 5) as (f5 & -> & _); [lia|].
  simpl. eauto.
Qed.

(** C4, amended.  The first name is the text before the first whitespace
    character and the last name the text after it, provided no line feed
    follows; a name without whitespace is the first name whole, and the
    last name is empty. *)
Theorem person_name_split (fields : row) (p : Person) (name : string) :
  Person_init fields = Ok p →
  str <$> fields !! 1%nat = Some name →
  (all_chars Re.nonspace name = true →
     first_name p = Some name ∧ last_name p = Some "")
  ∧ (∀ pre a rest,
       name = pre +:+ String a rest →
       all_chars Re.nonspace pre = true → isspace a = true →
       all_chars Re.dot rest = true →
       first_name p = Some pre ∧ last_name p = Some rest)
  ∧ (name = "John Smith" →
       first_name p = Some "John" ∧ last_name p = Some "Smith")
  ∧ (name = "Madonna" →
       first_name p = Some "Madonna" ∧ last_name p = Some "")
  ∧ (name = "Mary Jane Watson" →
       first_name p = Some "Mary" ∧ last_name p = Some "Jane Watson").
Proof.
  intros Hinit Hname.
  destruct (Person_init_names _ _ Hinit) as (f1 & m0 & m3 & Hf1 & Hm & _).
  rewrite Hf1 in Hname. simpl in Hname. injection Hname as Hname.
  rewrite Hname, name_match_spec in Hm.
  assert (∀ pre a rest,
            name = pre +:+ String a rest →
            all_chars Re.nonspace pre = true → isspace a = true →
            all_chars Re.dot rest = true →
            first_name p = Some pre ∧ last_name p = Some rest) as Hsplit.
  { intros pre a rest -> Hpre Ha Hrest.
    destruct (take_while_all Re.nonspace pre (String a rest) Hpre) as [Htake Hdrop].
    { unfold Re.nonspace. by rewrite Ha. }
    rewrite Htake, Hdrop in Hm.
    destruct (all_chars_drop_while _ _ Hrest) as [Hd Ht].
    rewrite Hd, Ht in Hm. simpl in Hm. injection Hm as _ E1 E2 _.
    by rewrite <- E1, <- E2. }
  assert (all_chars Re.nonspace name = true →
          first_name p = Some name ∧ last_name p = Some "") as Hwhole.
  { intros Hall. destruct (all_chars_drop_while _ _ Hall) as [Hd _].
    rewrite Hd in Hm. injection Hm as _ E1 E2 _. by rewrite <- E1, <- E2. }
  split; [exact Hwhole|]. split; [exact Hsplit|]. split; [|split].
  - intros ->. by apply (Hsplit "John" " "%char "Smith").
  - intros ->. by apply Hwhole.
  - intros ->. by apply (Hsplit "Mary" " "%char "Jane Watson").
Qed.

(** The first row of the names snapshot. *)
Lemma person_name_split_witness :
  ∃ p, Person_init Fixtures.john = Ok p
    ∧ str <$> Fixtures.john !! 1%nat = Some "John Smith"
    ∧ first_name p = Some "John" ∧ last_name p = Some "Smith".
Proof.
  destruct (Person_init_total Fixtures.john) as [p Hp]; [simpl; lia|].
  exists p. split; [exact Hp|]. split; [reflexivity|].
  by apply (person_name_split Fixtures.john p "John Smith" Hp eq_refl).
Defined.

(** C4 as stated fails: a name without whitespace becomes the first name,
    and the last name is empty. *)
Lemma madonna_is_a_first_name :
  ∃ p, Person_init Fixtures.madonna = Ok p
    ∧ first_name p = Some "Madonna" ∧ last_name p = Some ""
    ∧ ¬ (first_name p = Some "" ∧ last_name p = Some "Madonna").
Proof.
  eexists. split; [vm_compute; reflexivity|]. simpl.
  split; [done|]. split; [done|]. by intros [? _].
Qed.

Lemma any_valid_iff (ids : list string) (valid : gset string) :
  any_valid ids valid = true ↔ ∃ id, id ∈ ids ∧ id ∈ valid.
Proof.
  induction ids as [|id rest IH]; simpl.
  - split; [done|]. by intros (? & ?%elem_of_nil & _).
  - case_bool_decide as Hid.
    + split; [|done]. intros _. exists id. split; [apply elem_of_cons; by left | done].
    + rewrite IH. split.
      * intros (x & Hx & Hv). exists x. split; [apply elem_of_cons; by right | done].
      * intros (x & [->|Hx]%elem_of_cons & Hv); [done | eauto].
Qed.

Lemma has_valid_known_for_iff (known : option string) (valid : gset string) :
  _has_valid_known_for_title_ids known valid = true ↔
    ∃ ids id, known = Some ids ∧ id ∈ Py.split "," ids ∧ id ∈ valid.
Proof.
  destruct known as [ids|]; simpl.
  - rewrite any_valid_iff. split.
    + intros (id & ? & ?). by exists ids, id.
    + intros (? & id & [= <-] & ? & ?). by exists id.
  - split; [done|]. by intros (? & ? & ? & _).
Qed.

(** The test the loop of [_extract_people] makes on a row. *)
Definition accept (title_ids : gset string) (fields : row) : result bool :=
  f5 ← getitem fields 5;
  mret (_has_valid_known_for_title_ids f5 title_ids).

Lemma accept_iff (title_ids : gset string) (fields : row) :
  accept title_ids fields = Ok true ↔
    ∃ known, fields !! 5%nat = Some known
             ∧ _has_valid_known_for_title_ids known title_ids = true.
Proof.
  unfold accept, getitem. run. destruct (fields !! 5%nat) as [f5|]; simpl.
  - split; [intros [= H]; eauto | by intros (? & [= <-] & ->)].
  - split; [done | by intros (? & ? & _)].
Qed.

Lemma extract_people_loop_cons (title_ids : gset string) (fields : row)
    (rest : list row) (acc : gmap string Person) :
  _extract_people_loop (fields :: rest) title_ids acc =
  match accept title_ids fields with
  | Ok true =>
      match Person_init fields with
      | Ok v =>
          match getitem fields 0 with
          | Ok f0 => _extract_people_loop rest title_ids (<[str f0 := v]> acc)
          | Raise x => Raise x
          end
      | Raise x => Raise x
      end
  | Ok false => _extract_people_loop rest title_ids acc
  | Raise x => Raise x
  end.
Proof.
  unfold accept. simpl. run. destruct (getitem fields 5) as [f5|]; [|done]. simpl.
  destruct (_has_valid_known_for_title_ids f5 title_ids); [|done].
  destruct (Person_init fields); [|done]. by destruct (getitem fields 0).
Qed.

Lemma accept_total (title_ids : gset string) (fields : row) :
  (6 ≤ length fields)%nat → ∃ b, accept title_ids fields = Ok b.
Proof.
  intros Hlen. unfold accept.
  destruct (getitem_lt fields 5) as (f5 & -> & _); [lia|]. run. eauto.
Qed.

Lemma extract_people_run (path : string) (e : env) (w w1 : world)
    (title_ids : gset string) (rows : list row) :
  Movies.title_ids e w = (Ok title_ids, w1) →
  files w !! path = Some (Whole rows) →
  ∃ w', _extract_people path e w = (_extract_people_loop rows title_ids ∅, w').
Proof.
  intros Hids Hfile. pose proof (RegistryProps.title_ids_files _ _ _ _ Hids) as Hfiles.
  unfold _extract_people, extract. run. rewrite Hids. simpl.
  rewrite Hfiles, Hfile. eauto.
Qed.

(** C2, amended.  Against the identifier set [title_ids()] returns, the
    Person extractor over a snapshot of six-column rows returns a mapping;
    (1) it accepts a row exactly when one of the identifiers of its
    comma-separated "known for" field is in the set; (2) every accepted
    row has an entry under its identifier; (3) every entry is the entity
    of an accepted row with that identifier; (4) with distinct
    identifiers, a row is accepted exactly when the mapping holds its own
    entity; (5) a null "known for" field is always rejected; (6) an empty
    one is rejected exactly when the empty string is no accepted Movie
    identifier. *)
Theorem extract_people_accepts (path : string) (e : env) (w w1 : world)
    (title_ids : gset string) (rows : list row) :
  Movies.title_ids e w = (Ok title_ids, w1) →
  files w !! path = Some (Whole rows) →
  Forall (λ fields, (6 ≤ length fields)%nat) rows →
  ∃ people w',
    _extract_people path e w = (Ok people, w')
    ∧ (∀ fields known, fields ∈ rows → fields !! 5%nat = Some known →
         (_has_valid_known_for_title_ids known title_ids = true ↔
            ∃ ids id, known = Some ids ∧ id ∈ Py.split "," ids ∧ id ∈ title_ids))
    ∧ (∀ fields known, fields ∈ rows → fields !! 5%nat = Some known →
         _has_valid_known_for_title_ids known title_ids = true →
         is_Some (people !! key_of fields))
    ∧ (∀ k p, people !! k = Some p →
         ∃ fields, fields ∈ rows ∧ key_of fields = k
           ∧ Person_init fields = Ok p
           ∧ _has_valid_known_for_title_ids (known_for_title_ids p) title_ids = true)
    ∧ (NoDup (key_of <$> rows) → ∀ fields known,
         fields ∈ rows → fields !! 5%nat = Some known →
         (_has_valid_known_for_title_ids known title_ids = true ↔
            ∃ p, Person_init fields = Ok p ∧ people !! key_of fields = Some p))
    ∧ _has_valid_known_for_title_ids None title_ids = false
    ∧ (_has_valid_known_for_title_ids (Some "") title_ids = true ↔ "" ∈ title_ids).
Proof.
  intros Hids Hfile Hwide.
  destruct (loop_spec (accept title_ids) Person_init
              (λ rows, _extract_people_loop rows title_ids) 6
              (λ _, eq_refl) (extract_people_loop_cons title_ids)
              (accept_total title_ids) Person_init_total ltac:(lia) rows Hwide)
    as (people & Hrun & Hin & Hfrom & Hdistinct).
  destruct (extract_people_run path e w w1 title_ids rows Hids Hfile) as [w' Hw'].
  exists people, w'. split; [by rewrite Hw', Hrun|].
  assert (∀ fields known, fields !! 5%nat = Some known →
            (accept title_ids fields = Ok true ↔
               _has_valid_known_for_title_ids known title_ids = true)) as Hacc.
  { intros fields known Hk. rewrite accept_iff. split.
    - intros (k' & Hk' & Hv). congruence.
    - intros Hv. eauto. }
  split; [|split; [|split; [|split; [|split]]]].
  - intros fields known _ _. apply has_valid_known_for_iff.
  - intros fields known Hf Hk Hv. apply Hin; [done|]. by apply (Hacc fields known).
  - intros k p Hp. destruct (Hfrom k p Hp) as (fields & Hf & Ha & Hkey & Hinit).
    exists fields. split; [done|]. split; [done|]. split; [done|].
    apply accept_iff in Ha as (known & Hk & Hv).
    destruct (Person_init_names _ _ Hinit) as (_ & _ & _ & _ & _ & _ & _ & Hknown).
    rewrite Hk in Hknown. by injection Hknown as ->.
  - intros Hnd fields known Hf Hk. rewrite <- (Hacc fields known Hk).
    by apply Hdistinct.
  - done.
  - rewrite has_valid_known_for_iff. split.
    + intros (ids & id & [= <-] & Hid & Hv). simpl in Hid.
      apply elem_of_cons in Hid as [->|Hid]; [done | by apply elem_of_nil in Hid].
    + intros Hv. exists "", "". split; [done|]. split; [|done].
      apply elem_of_cons. by left.
Qed.

(** The names snapshot of [Fixtures], against the identifiers of its one
    accepted title. *)
Lemma extract_people_accepts_witness :
  let w := {| dirs := dirs Fixtures.downloaded; files := files Fixtures.downloaded;
              markers := ∅; tables := ∅;
              title_ids_cache := Some {[ "tt0000001" ]}; trace := [] |} in
  Movies.title_ids Fixtures.env0 w = (Ok {[ "tt0000001" ]}, w)
  ∧ files w !! Fixtures.names_path = Some (Whole Fixtures.names_rows)
  ∧ Forall (λ fields : row, (6 ≤ length fields)%nat) Fixtures.names_rows
  ∧ ∃ people w',
      _extract_people Fixtures.names_path Fixtures.env0 w = (Ok people, w')
      ∧ is_Some (people !! key_of Fixtures.john).
Proof.
  intros w.
  assert (Movies.title_ids Fixtures.env0 w = (Ok {[ "tt0000001" ]}, w))
    as Hids by reflexivity.
  assert (files w !! Fixtures.names_path = Some (Whole Fixtures.names_rows))
    as Hfile by (vm_compute; reflexivity).
  assert (Forall (λ fields : row, (6 ≤ length fields)%nat) Fixtures.names_rows)
    as Hwide by (repeat constructor; simpl; lia).
  split; [exact Hids|]. split; [exact Hfile|]. split; [exact Hwide|].
  destruct (extract_people_accepts Fixtures.names_path Fixtures.env0 w w
              {[ "tt0000001" ]} Fixtures.names_rows Hids Hfile Hwide)
    as (people & w' & Hrun & _ & Hin & _).
  exists people, w'. split; [exact Hrun|].
  apply (Hin Fixtures.john (Some "tt0000002,tt0000001")).
  - apply elem_of_cons. by left.
  - reflexivity.
  - vm_compute. reflexivity.
Defined.

(** C2 as stated fails: a title row with an empty identifier column is
    accepted as a Movie, and then a person whose "known for" field is the
    empty string is accepted too. *)
Lemma empty_known_for_is_accepted :
  ∃ movies people,
    Movies._extract_movies_loop [Fixtures.untitled] ∅ = Ok movies
    ∧ Fixtures.unknown_for !! 5%nat = Some (Some "")
    ∧ _has_valid_known_for_title_ids (Some "") (dom movies) = true
    ∧ _extract_people_loop [Fixtures.unknown_for] (dom movies) ∅ = Ok people
    ∧ is_Some (people !! "nm0000009").
Proof.
  eexists _, _. split; [vm_compute; reflexivity|].
  split; [reflexivity|]. split; [vm_compute; reflexivity|].
  split; [vm_compute; reflexivity|]. vm_compute. eauto.
Qed.

End PeopleProps.

(** ** The AkaTitle extractor *)

Module AkaTitlesProps.
Import AkaTitles DictLoop.

(** The test the loop of [_extract_aka_titles] makes on a row. *)
Definition accepts (title_ids : gset string) (fields : row) : bool :=
  match fields !! 0%nat with
  | Some f0 => in_title_ids f0 title_ids
  | None => false
  end.

(** The text of the sequence column, [str(fields[1])]. *)
Definition sequence_text (fields : row) : string :=
  str (default None (fields !! 1%nat)).

Lemma accepts_iff (title_ids : gset string) (fields : row) :
  accepts title_ids fields = true ↔
    ∃ s, fields !! 0%nat = Some (Some s) ∧ s ∈ title_ids.
Proof.
  unfold accepts, in_title_ids.
  destruct (fields !! 0%nat) as [[s|]|]; [|naive_solver..].
  rewrite bool_decide_eq_true. naive_solver.
Qed.

Lemma AkaTitle_init_Ok (fields : row) (aka : AkaTitle) :
  AkaTitle_init fields = Ok aka →
  movie_imdb_id aka = key_of fields ∧ int (sequence_text fields) = Ok (sequence aka).
Proof.
  unfold AkaTitle_init, key_of, sequence_text, getitem. run.
  destruct (fields !! 0%nat) as [f0|]; [|done]. simpl.
  destruct (fields !! 1%nat) as [f1|]; [|done]. simpl.
  destruct (int (str f1)) as [n|]; [|done]. simpl.
  repeat (match goal with |- context [match ?l !! ?i with _ => _ end] =>
                            destruct (l !! i); [|done] end; simpl).
  by intros [= <-].
Qed.

Lemma AkaTitle_init_total (fields : row) (n : Z) :
  (8 ≤ length fields)%nat → int (sequence_text fields) = Ok n →
  ∃ aka, AkaTitle_init fields = Ok aka.
Proof.
  intros Hlen. unfold AkaTitle_init, sequence_text.
  destruct (getitem_lt fields 0) as (f0 & -> & _); [lia|].
  destruct (getitem_lt fields 1) as (f1 & -> & ->); [lia|].
  destruct (getitem_lt fields 2) as (f2 & -> & _); [lia|].
  destruct (getitem_lt fields 3) as (f3 & -> & _); [lia|].
  destruct (getitem_lt fields 4) as (f4 & -> & _); [lia|].
  destruct (getitem_lt fields 5) as (f5 & -> & _); [lia|].
  destruct (getitem_lt fields 6) as (f6 & -> & _); [lia|].
  destruct (getitem_lt fields 7) as (f7 & -> & _); [lia|].
  simpl. intros ->. run. eauto.
Qed.

(** The loop appends, to what it was given, the entities of the accepted
    rows in the order of the rows. *)
Lemma extract_aka_titles_loop_spec (title_ids : gset string) (rows : list row)
    (acc : list AkaTitle) :
  Forall (λ fields, (8 ≤ length fields)%nat) rows →
  Forall (λ fields, accepts title_ids fields = true →
                    ∃ n, int (sequence_text fields) = Ok n) rows →
  ∃ new, _extract_aka_titles_loop rows title_ids acc = Ok (acc ++ new)
    ∧ Forall2 (λ fields aka, AkaTitle_init fields = Ok aka)
        (filter (λ fields, accepts title_ids fields = true) rows) new.
Proof.
  intros Hwide. revert acc.
  induction Hwide as [|fields rest Hlen _ IH]; intros acc Hseq.
  - exists []. rewrite app_nil_r. split; [done | constructor].
  - apply Forall_cons in Hseq as [Hhead Hseq]. simpl.
    destruct (getitem_lt fields 0) as (f0 & Hget & Hf0); [lia|].
    assert (in_title_ids f0 title_ids = accepts title_ids fields) as Htest.
    { unfold accepts. by rewrite Hf0. }
    rewrite Hget. run. rewrite Htest, filter_cons.
    destruct (accepts title_ids fields) eqn:Hacc.
    + destruct Hhead as [n Hn]; [done|].
      destruct (AkaTitle_init_total fields n Hlen Hn) as [aka Haka].
      rewrite Haka. destruct (IH (acc ++ [aka]) Hseq) as (new & -> & Hnew).
      exists (aka :: new). rewrite <- app_assoc. split; [done|].
      rewrite decide_True by done. by constructor.
    + destruct (IH acc Hseq) as (new & -> & Hnew).
      exists new. split; [done|]. by rewrite decide_False.
Qed.

Lemma extract_aka_titles_run (path : string) (e : env) (w w1 : world)
    (title_ids : gset string) (rows : list row) :
  Movies.title_ids e w = (Ok title_ids, w1) →
  files w !! path = Some (Whole rows) →
  ∃ w', _extract_aka_titles path e w
        = (_extract_aka_titles_loop rows title_ids [], w').
Proof.
  intros Hids Hfile. pose proof (RegistryProps.title_ids_files _ _ _ _ Hids) as Hfiles.
  unfold _extract_aka_titles, extract. run. rewrite Hids. simpl.
  rewrite Hfiles, Hfile. eauto.
Qed.

(** C3.  Against the identifier set [title_ids()] returns, the AkaTitle
    extractor over a snapshot of eight-column rows whose accepted rows
    carry a decimal sequence number returns a list; it accepts a row
    exactly when its owning movie identifier is in the set; the list holds
    one entity per accepted row, in the order the rows were read, each with
    the identifier of its row and the number its row's sequence field
    denotes. *)
Theorem extract_aka_titles_accepts (path : string) (e : env) (w w1 : world)
    (title_ids : gset string) (rows : list row) :
  Movies.title_ids e w = (Ok title_ids, w1) →
  files w !! path = Some (Whole rows) →
  Forall (λ fields, (8 ≤ length fields)%nat) rows →
  Forall (λ fields, accepts title_ids fields = true →
                    ∃ n, int (sequence_text fields) = Ok n) rows →
  ∃ aka_titles w',
    _extract_aka_titles path e w = (Ok aka_titles, w')
    ∧ (∀ fields, fields ∈ rows →
         (accepts title_ids fields = true ↔
            ∃ s, fields !! 0%nat = Some (Some s) ∧ s ∈ title_ids))
    ∧ Forall2 (λ fields aka,
                 AkaTitle_init fields = Ok aka
                 ∧ movie_imdb_id aka = key_of fields
                 ∧ int (sequence_text fields) = Ok (sequence aka))
        (filter (λ fields, accepts title_ids fields = true) rows) aka_titles.
Proof.
  intros Hids Hfile Hwide Hseq.
  destruct (extract_aka_titles_loop_spec title_ids rows [] Hwide Hseq)
    as (new & Hrun & Hnew).
  destruct (extract_aka_titles_run path e w w1 title_ids rows Hids Hfile) as [w' Hw'].
  exists new, w'. split; [by rewrite Hw', Hrun|].
  split; [intros; apply accepts_iff|].
  eapply Forall2_impl; [exact Hnew|]. simpl. intros fields aka Hinit.
  split; [done|]. by apply AkaTitle_init_Ok.
Qed.

(** The alternate titles of [Fixtures]: two of the three rows belong to
    the accepted title, with sequence numbers 7 and 3, in that order. *)
Lemma extract_aka_titles_accepts_witness :
  let w := {| dirs := dirs Fixtures.downloaded; files := files Fixtures.downloaded;
              markers := ∅; tables := ∅;
              title_ids_cache := Some {[ "tt0000001" ]}; trace := [] |} in
  ∃ aka_titles w',
    _extract_aka_titles Fixtures.akas_path Fixtures.env0 w = (Ok aka_titles, w')
    ∧ sequence <$> aka_titles = [7; 3].
Proof.
  intros w.
  assert (Movies.title_ids Fixtures.env0 w = (Ok {[ "tt0000001" ]}, w))
    as Hids by reflexivity.
  assert (files w !! Fixtures.akas_path = Some (Whole Fixtures.akas_rows))
    as Hfile by (vm_compute; reflexivity).
  assert (Forall (λ fields : row, (8 ≤ length fields)%nat) Fixtures.akas_rows)
    as Hwide by (repeat constructor; simpl; lia).
  assert (Forall (λ fields, accepts {[ "tt0000001" ]} fields = true →
                            ∃ n, int (sequence_text fields) = Ok n)
            Fixtures.akas_rows) as Hseq.
  { repeat constructor; intros _; vm_compute; eauto. }
  destruct (extract_aka_titles_accepts Fixtures.akas_path Fixtures.env0 w w
              {[ "tt0000001" ]} Fixtures.akas_rows Hids Hfile Hwide Hseq)
    as (aka_titles & w' & Hrun & _ & Hall).
  exists aka_titles, w'. split; [exact Hrun|].
  change (filter _ Fixtures.akas_rows)
    with [Fixtures.akas_rows !!! 0%nat; Fixtures.akas_rows !!! 2%nat] in Hall.
  apply Forall2_cons_inv_l in Hall as (a1 & rest & (_ & _ & H1) & Hall & ->).
  apply Forall2_cons_inv_l in Hall as (a2 & rest' & (_ & _ & H2) & Hall & ->).
  apply Forall2_nil_inv_l in Hall as ->.
  assert (int (sequence_text (Fixtures.akas_rows !!! 0%nat)) = Ok 7) as E1
    by (vm_compute; reflexivity).
  assert (int (sequence_text (Fixtures.akas_rows !!! 2%nat)) = Ok 3) as E2
    by (vm_compute; reflexivity).
  rewrite E1 in H1. rewrite E2 in H2. simpl. congruence.
Defined.

End AkaTitlesProps.

(** ** Strings: reversal, decimal numerals, comma lists *)

Module Text.
Import Str.

Definition is_digit (c : ascii) : bool :=
  match Ascii.is_nat c with Some _ => true | None => false end.

Definition not_space (c : ascii) : bool := negb (int_space c).

Lemma app_nil_r (s : string) : s +:+ "" = s.
Proof. induction s as [|a s IH]; [done|]. by rewrite app_cons, IH. Qed.

Lemma app_assoc (s t u : string) : (s +:+ t) +:+ u = s +:+ (t +:+ u).
Proof. induction s as [|a s IH]; [done|]. by rewrite !app_cons, IH. Qed.

Lemma app_inv_head (s t u : string) : s +:+ t = s +:+ u → t = u.
Proof.
  induction s as [|a s IH]; [done|]. rewrite !app_cons. intros [= ?]. auto.
Qed.

Lemma all_chars_app (p : ascii → bool) (s t : string) :
  all_chars p (s +:+ t) = all_chars p s && all_chars p t.
Proof.
  induction s as [|a s IH]; [done|]. rewrite app_cons. simpl.
  rewrite IH. by destruct (p a).
Qed.

Lemma all_chars_impl (p q : ascii → bool) (s : string) :
  (∀ c, p c = true → q c = true) → all_chars p s = true → all_chars q s = true.
Proof.
  intros Hpq. induction s as [|a s IH]; [done|]. simpl.
  intros [? ?]%andb_true_iff. rewrite Hpq by done. auto.
Qed.

Lemma rev_app_spec (s t : string) : String.rev_app s t = String.rev s +:+ t.
Proof.
  revert t. unfold String.rev. induction s as [|a s IH]; intros t; [done|].
  simpl. rewrite (IH (String a "")), IH, app_assoc. done.
Qed.

Lemma rev_cons (a : ascii) (s : string) :
  String.rev (String a s) = String.rev s +:+ String a "".
Proof. unfold String.rev at 1. simpl. apply rev_app_spec. Qed.

Lemma rev_app (s t : string) :
  String.rev (s +:+ t) = String.rev t +:+ String.rev s.
Proof.
  induction s as [|a s IH].
  - by rewrite app_nil_l, app_nil_r.
  - by rewrite app_cons, !rev_cons, IH, app_assoc.
Qed.

Lemma rev_involutive (s : string) : String.rev (String.rev s) = s.
Proof.
  induction s as [|a s IH]; [done|]. by rewrite rev_cons, rev_app, IH.
Qed.

Lemma all_chars_rev (p : ascii → bool) (s : string) :
  all_chars p (String.rev s) = all_chars p s.
Proof.
  induction s as [|a s IH]; [done|]. rewrite rev_cons, all_chars_app, IH.
  simpl. by destruct (p a), (all_chars p s).
Qed.

Lemma int_lstrip_id (s : string) :
  all_chars not_space s = true → int_lstrip s = s.
Proof.
  destruct s as [|a s]; [done|]. simpl. unfold not_space.
  by destruct (int_space a).
Qed.

(** [int] leaves a literal without whitespace as it is. *)
Lemma int_strip_id (s : string) : all_chars not_space s = true → int_strip s = s.
Proof.
  intros Hs. unfold int_strip. rewrite (int_lstrip_id s) by done.
  rewrite int_lstrip_id by by rewrite all_chars_rev. apply rev_involutive.
Qed.

Lemma is_digit_not_space (c : ascii) : is_digit c = true → not_space c = true.
Proof. by destruct c as [[] [] [] [] [] [] [] []]. Qed.

Lemma is_digit_digit (c : ascii) : is_digit c = true → ∃ d, digit c = Some d.
Proof.
  unfold is_digit, digit. destruct (Ascii.is_nat c); [by eexists | done].
Qed.

Lemma count_digits_all (s : string) :
  all_chars is_digit s = true → count_digits s = N.of_nat (String.length s).
Proof.
  induction s as [|c s IH]; [done|]. simpl.
  intros [Hc Hs]%andb_true_iff. destruct (is_digit_digit c Hc) as [d ->].
  rewrite IH by done. lia.
Qed.

Lemma int_unsigned (c : ascii) (s : string) :
  is_digit c = true →
  all_chars is_digit s = true →
  int (String c s) = int_literal (String c s).
Proof.
  intros Hc Hs. unfold int. rewrite int_strip_id.
  - by destruct c as [[] [] [] [] [] [] [] []].
  - simpl. rewrite is_digit_not_space by done.
    by apply (all_chars_impl is_digit); [apply is_digit_not_space|].
Qed.

Lemma pretty_N_char_digit (x : N) :
  (x < 10)%N →
  is_digit (pretty_N_char x) = true
  ∧ digit (pretty_N_char x) = Some (Z.of_N x)
  ∧ Ascii.eqb (pretty_N_char x) "_" = false.
Proof.
  intros Hx.
  assert (x = 0 ∨ x = 1 ∨ x = 2 ∨ x = 3 ∨ x = 4 ∨ x = 5 ∨ x = 6 ∨ x = 7
          ∨ x = 8 ∨ x = 9)%N as Hcases by lia.
  repeat destruct Hcases as [-> | Hcases]; try subst x; done.
Qed.

(** The digits [pretty_N_go] puts in front of its accumulator: how many
    they are, and what [int_digits] makes of them. *)
Lemma pretty_N_go_digits (x : N) :
  ∃ t, (∀ s, pretty_N_go x s = t +:+ s)
    ∧ all_chars is_digit t = true
    ∧ ((0 < x)%N → t ≠ "")
    ∧ Z.of_N x < 10 ^ Z.of_nat (String.length t)
    ∧ ((0 < x)%N → 10 ^ Z.of_nat (String.length t) ≤ 10 * Z.of_N x)
    ∧ ∀ s acc b,
        int_digits (t +:+ s) acc b
        = int_digits s (acc * 10 ^ Z.of_nat (String.length t) + Z.of_N x)
            (match t with "" => b | _ => true end).
Proof.
  induction (N.lt_wf_0 x) as [x _ IH].
  destruct (decide (x = 0)%N) as [-> | Hx].
  { exists "". repeat split; [lia..|]. intros s acc b. rewrite app_nil_l.
    f_equal. simpl. lia. }
  destruct (IH (x `div` 10)%N) as (t & Hgo & Hall & Hne & Hlt & Hge & Hint).
  { apply N.div_lt; lia. }
  destruct (pretty_N_char_digit (x `mod` 10)) as (Hd & Hv & Hu).
  { apply N.mod_lt. lia. }
  pose proof (N.div_mod x 10 ltac:(lia)) as Hdm.
  pose proof (N.mod_lt x 10 ltac:(lia)) as Hmod.
  assert (Z.of_N x = 10 * Z.of_N (x `div` 10) + Z.of_N (x `mod` 10)) as HxZ.
  { rewrite Hdm at 1. rewrite N2Z.inj_add, N2Z.inj_mul. done. }
  assert (0 ≤ Z.of_N (x `mod` 10) < 10) as Hr.
  { split; [apply N2Z.is_nonneg|]. change 10 with (Z.of_N 10).
    by apply N2Z.inj_lt. }
  assert (0 ≤ Z.of_N (x `div` 10)) as Hq0 by apply N2Z.is_nonneg.
  assert ((x `div` 10 ≠ 0)%N → 0 < Z.of_N (x `div` 10)) as Hqpos.
  { intros ?. change 0 with (Z.of_N 0). apply N2Z.inj_lt.
    by apply N.neq_0_lt_0. }
  assert (10 ^ Z.of_nat (String.length (t +:+ String (pretty_N_char (x `mod` 10)) ""))
          = 10 * 10 ^ Z.of_nat (String.length t)) as Hpow.
  { rewrite length_app. simpl String.length.
    rewrite Nat2Z.inj_add, Z.pow_add_r by lia. change (10 ^ Z.of_nat 1) with 10.
    lia. }
  exists (t +:+ String (pretty_N_char (x `mod` 10)) "").
  split; [|split; [|split; [|split; [|split]]]].
  - intros s. rewrite pretty_N_go_step by lia. by rewrite Hgo, app_assoc.
  - rewrite all_chars_app, Hall. simpl. by rewrite Hd.
  - intros _. by destruct t.
  - rewrite Hpow. revert Hlt HxZ Hr.
    generalize (10 ^ Z.of_nat (String.length t)).
    generalize (Z.of_N (x `div` 10)) (Z.of_N (x `mod` 10)) (Z.of_N x).
    intros. lia.
  - intros _. rewrite Hpow.
    destruct (decide (x `div` 10 = 0)%N) as [Hq | Hq].
    + assert (t = "") as ->.
      { rewrite Hq in Hgo. specialize (Hgo ""). rewrite pretty_N_go_0 in Hgo.
        destruct t; [done | discriminate Hgo]. }
      assert (0 < Z.of_N x) as Hxpos.
      { change 0 with (Z.of_N 0). apply N2Z.inj_lt. by apply N.neq_0_lt_0. }
      simpl. revert Hxpos. generalize (Z.of_N x). intros. lia.
    + specialize (Hge ltac:(by apply N.neq_0_lt_0)).
      revert Hge HxZ Hr. generalize (10 ^ Z.of_nat (String.length t)).
      generalize (Z.of_N (x `div` 10)) (Z.of_N (x `mod` 10)) (Z.of_N x).
      intros. lia.
  - intros s acc b. rewrite app_assoc, Hint. rewrite app_cons, app_nil_l.
    cbn [int_digits]. rewrite Hu, Hv.
    replace (match t +:+ String (pretty_N_char (x `mod` 10)) "" with
             | "" => b | _ => true end) with true by by destruct t.
    f_equal. rewrite Hpow, HxZ.
    generalize (10 ^ Z.of_nat (String.length t)).
    generalize (Z.of_N (x `div` 10)) (Z.of_N (x `mod` 10)). intros. lia.
Qed.

(** The decimal form of a natural number: digits only, not empty, as many
    as the number needs, and read back by [int_digits] whatever follows. *)
Lemma pretty_N_digits (x : N) :
  all_chars is_digit (pretty x) = true
  ∧ pretty x ≠ ""
  ∧ Z.of_N x < 10 ^ Z.of_nat (String.length (pretty x))
  ∧ ((0 < x)%N → 10 ^ Z.of_nat (String.length (pretty x)) ≤ 10 * Z.of_N x)
  ∧ ∀ s acc b,
      int_digits (pretty x +:+ s) acc b
      = int_digits s (acc * 10 ^ Z.of_nat (String.length (pretty x)) + Z.of_N x) true.
Proof.
  unfold pretty, pretty_N. destruct (decide (x = 0)%N) as [-> | Hx].
  { repeat split; [done | lia |]. intros s acc b. rewrite app_cons, app_nil_l.
    cbn. f_equal. lia. }
  destruct (pretty_N_go_digits x) as (t & Hgo & Hall & Hne & Hlt & Hge & Hint).
  rewrite Hgo, app_nil_r. specialize (Hne ltac:(lia)).
  repeat split; [done..|]. intros s acc b. rewrite Hint. by destruct t.
Qed.

(** A number below [10 ^ k] is written with at most [k] digits, one from
    [10 ^ k] on with more. *)
Lemma pretty_N_length_le (x : N) (k : nat) :
  (0 < k)%nat → Z.of_N x < 10 ^ Z.of_nat k → (String.length (pretty x) ≤ k)%nat.
Proof.
  intros Hk Hx. destruct (pretty_N_digits x) as (_ & _ & _ & Hge & _).
  destruct (decide (x = 0)%N) as [-> | Hpos]; [simpl; lia|].
  specialize (Hge ltac:(lia)).
  assert (10 ^ Z.of_nat (String.length (pretty x)) < 10 ^ Z.of_nat (S k)) as Hlt.
  { rewrite Nat2Z.inj_succ, Z.pow_succ_r by lia. lia. }
  apply Z.pow_lt_mono_r_iff in Hlt; lia.
Qed.

Lemma pretty_N_length_gt (x : N) (k : nat) :
  10 ^ Z.of_nat k ≤ Z.of_N x → (k < String.length (pretty x))%nat.
Proof.
  intros Hx. destruct (pretty_N_digits x) as (_ & _ & Hlt & _).
  assert (10 ^ Z.of_nat k < 10 ^ Z.of_nat (String.length (pretty x))) as H by lia.
  apply Z.pow_lt_mono_r_iff in H; lia.
Qed.

Lemma int_digits_zeros (n : nat) (s : string) (b : bool) :
  int_digits (Fetcher.zeros n +:+ s) 0 b
  = int_digits s 0 (match n with O => b | _ => true end).
Proof.
  revert b. induction n as [|n IH]; intros b; [done|].
  cbn [Fetcher.zeros]. rewrite app_cons. cbn [int_digits]. simpl.
  rewrite IH. by destruct n.
Qed.

Lemma all_digits_zeros (n : nat) : all_chars is_digit (Fetcher.zeros n) = true.
Proof. induction n; [done|]. done. Qed.

Lemma zfill_digits (width : nat) (x : N) :
  all_chars is_digit (Fetcher.zfill width (pretty x)) = true
  ∧ Fetcher.zfill width (pretty x) ≠ "".
Proof.
  destruct (pretty_N_digits x) as (Hall & Hne & _). unfold Fetcher.zfill.
  split.
  - by rewrite all_chars_app, all_digits_zeros, Hall.
  - intros H. destruct (Fetcher.zeros _); [|done].
    by rewrite app_nil_l in H.
Qed.

(** The digits of a zero-filled decimal form read back as the number. *)
Lemma digits_zfill (width : nat) (x : N) :
  int_digits (Fetcher.zfill width (pretty x)) 0 false = Ok (Z.of_N x).
Proof.
  unfold Fetcher.zfill. rewrite int_digits_zeros.
  destruct (pretty_N_digits x) as (_ & _ & _ & _ & Hint).
  rewrite <- (app_nil_r (pretty x)), Hint. simpl. by f_equal.
Qed.

Lemma int_pretty_N (x : N) :
  Z.of_N x < 10 ^ 4300 → int (pretty x) = Ok (Z.of_N x).
Proof.
  intros Hx. destruct (pretty_N_digits x) as (Hall & Hne & _).
  pose proof (pretty_N_length_le x 4300 ltac:(lia) Hx) as Hlen.
  pose proof (digits_zfill 0 x) as Hd. unfold Fetcher.zfill in Hd.
  rewrite app_nil_l in Hd.
  destruct (pretty x) as [|c s] eqn:Hp; [done|].
  simpl in Hall. apply andb_true_iff in Hall as [Hc Hs].
  rewrite int_unsigned by done. unfold int_literal.
  rewrite count_digits_all by (simpl; by rewrite Hc, Hs).
  unfold max_str_digits. destruct (N.ltb_spec 4300 (N.of_nat (String.length (String c s))));
    [lia | done].
Qed.

(** [int(str(n)) == n] for a number of at most 4300 digits. *)
Lemma int_pretty (n : Z) : Z.abs n < 10 ^ 4300 → int (pretty n) = Ok n.
Proof.
  destruct n as [|p|p]; intros Hn.
  - done.
  - apply (int_pretty_N (N.pos p)). exact Hn.
  - unfold pretty, pretty_Z.
    destruct (pretty_N_digits (N.pos p)) as (Hall & Hne & _ & _ & Hint).
    pose proof (pretty_N_length_le (N.pos p) 4300 ltac:(lia) Hn) as Hlen.
    change (pretty p) with (pretty (N.pos p)) in *.
    unfold int. rewrite int_strip_id.
    + rewrite app_cons, app_nil_l. unfold int_literal.
      rewrite count_digits_all by done. unfold max_str_digits.
      destruct (N.ltb_spec 4300 (N.of_nat (String.length (pretty (N.pos p)))));
        [lia|].
      rewrite <- (app_nil_r (pretty (N.pos p))), Hint. simpl. f_equal.
    + rewrite app_cons, app_nil_l. simpl.
      by apply (all_chars_impl is_digit); [apply is_digit_not_space|].
Qed.

(** From [10 ^ 4300] on, [int(str(n))] is refused. *)
Lemma int_pretty_large (n : Z) :
  10 ^ 4300 ≤ Z.abs n → int (pretty n) = Raise ValueError.
Proof.
  assert (∀ x : N, 10 ^ 4300 ≤ Z.of_N x →
            int_literal (pretty x) = Raise ValueError) as Hlit.
  { intros x Hx. destruct (pretty_N_digits x) as (Hall & _).
    pose proof (pretty_N_length_gt x 4300 Hx) as Hlen.
    unfold int_literal. rewrite count_digits_all by done.
    unfold max_str_digits.
    destruct (N.ltb_spec 4300 (N.of_nat (String.length (pretty x))));
      [done | lia]. }
  destruct n as [|p|p]; intros Hn.
  - exfalso. change (Z.abs 0) with 0 in Hn.
    assert (0 < 10 ^ 4300) by (apply Z.pow_pos_nonneg; lia). lia.
  - change (pretty (Z.pos p)) with (pretty (N.pos p)).
    destruct (pretty_N_digits (N.pos p)) as (Hall & Hne & _).
    specialize (Hlit (N.pos p) Hn).
    destruct (pretty (N.pos p)) as [|c s] eqn:Hp; [done|].
    simpl in Hall. apply andb_true_iff in Hall as [Hc Hs].
    by rewrite int_unsigned.
  - unfold pretty, pretty_Z.
    destruct (pretty_N_digits (N.pos p)) as (Hall & _).
    change (pretty p) with (pretty (N.pos p)) in *.
    unfold int. rewrite int_strip_id.
    + rewrite app_cons, app_nil_l. by rewrite (Hlit (N.pos p) Hn).
    + rewrite app_cons, app_nil_l. simpl.
      by apply (all_chars_impl is_digit); [apply is_digit_not_space|].
Qed.

(** Comma lists. *)
Definition no_comma (s : string) : bool :=
  all_chars (λ c, negb (Ascii.eqb c ",")) s.

Lemma split_nonempty (sep : ascii) (s : string) : split sep s ≠ [].
Proof.
  induction s as [|c s IH]; [done|]. simpl.
  destruct (Ascii.eqb c sep); [done|]. by destruct (split sep s).
Qed.

Lemma split_token (t : string) :
  no_comma t = true → split "," t = [t].
Proof.
  induction t as [|c t IH]; [done|]. unfold no_comma. simpl.
  intros [Hc Ht]%andb_true_iff. apply negb_true_iff in Hc. rewrite Hc.
  by rewrite IH.
Qed.

Lemma split_token_app (t r : string) :
  no_comma t = true → split "," (t +:+ String "," r) = t :: split "," r.
Proof.
  induction t as [|c t IH]; [done|]. rewrite app_cons. unfold no_comma.
  simpl. intros [Hc Ht]%andb_true_iff. apply negb_true_iff in Hc.
  rewrite Hc. by rewrite IH.
Qed.

(** [','.join(tokens).split(',') == tokens] for tokens without a comma. *)
Lemma split_concat (tokens : list string) :
  tokens ≠ [] →
  Forall (λ t, no_comma t = true) tokens →
  split "," (String.concat "," tokens) = tokens.
Proof.
  intros Hne Hall. induction Hall as [|t ts Ht Hts IH]; [done|].
  destruct ts as [|t' ts].
  - simpl. by apply split_token.
  - change (String.concat "," (t :: t' :: ts))
      with (t +:+ String "," (String.concat "," (t' :: ts))).
    rewrite split_token_app by done. by rewrite IH.
Qed.

(** [','.join(s.split(',')) == s], and no token holds a comma. *)
Lemma concat_split (s : string) :
  String.concat "," (split "," s) = s
  ∧ Forall (λ t, no_comma t = true) (split "," s).
Proof.
  induction s as [|c s [IH1 IH2]]; [by repeat constructor|].
  simpl. destruct (Ascii.eqb c ",") eqn:Hc.
  - apply Ascii.eqb_eq in Hc as ->. split; [|by constructor].
    pose proof (split_nonempty "," s).
    destruct (split "," s) as [|w ws] eqn:Hs; [done|].
    change (String.concat "," ("" :: w :: ws))
      with (String "," (String.concat "," (w :: ws))).
    by rewrite IH1.
  - pose proof (split_nonempty "," s).
    destruct (split "," s) as [|w ws] eqn:Hs; [done|].
    apply Forall_cons in IH2 as [Hw Hws]. split.
    + rewrite <- IH1. by destruct ws.
    + constructor; [|done]. unfold no_comma in *. simpl. by rewrite Hc.
Qed.

End Text.

(** ** Rebuilding a table *)

Module TableProps.

Lemma bind_run {A B} (m : M A) (f : A → M B) (e : env) (w : world) :
  (m ≫= f) e w
  = match m e w with
    | (Ok a, w') => f a e w'
    | (Raise x, w') => (Raise x, w')
    end.
Proof. reflexivity. Qed.

Definition add_trace (evs : list event) (w : world) : world :=
  {| dirs := dirs w; files := files w; markers := markers w;
     tables := tables w; title_ids_cache := title_ids_cache w;
     trace := trace w ++ evs |}.

Lemma emit_run (ev : event) (e : env) (w : world) :
  emit ev e w = (Ok (), add_trace [ev] w).
Proof. reflexivity. Qed.

Lemma check_fault_run (table_name : string) (step : db_step) (e : env) (w : world) :
  check_fault table_name step e w
  = if db_fault e table_name step
    then (Raise (OperationalError "disk I/O error"), w) else (Ok (), w).
Proof. unfold check_fault. run. by destruct (db_fault e table_name step). Qed.

(** The four steps of a rebuild, in the order every [update] runs them. *)
Definition rebuild (table_name : string) (columns : list column)
    (ddl : insert_statement) (index : string)
    (parameter_seq : list (gmap string value)) (size : nat) : M unit :=
  _ ← _drop_and_create table_name
        [DropTableIfExists table_name; CreateTable table_name columns];
  _ ← _insert table_name ddl parameter_seq;
  _ ← _add_index table_name index;
  _validate table_name size.

(** The world a rebuild without fault leaves. *)
Definition rebuilt (table_name : string) (columns : list column)
    (index : string) (rows : list (gmap string value)) (w : world) : world :=
  {| dirs := dirs w; files := files w; markers := markers w;
     tables := <[table_name := {| t_columns := columns; t_rows := rows;
                                  t_indexes := [index] |}]> (tables w);
     title_ids_cache := title_ids_cache w;
     trace := trace w ++ [EvDropCreate table_name;
                          EvInsert table_name (length rows);
                          EvAddIndex table_name index;
                          EvValidate table_name] |}.

Definition no_fault (e : env) (table_name : string) : Prop :=
  ∀ step, db_fault e table_name step = false.

Lemma bind_rows_length (ddl : insert_statement)
    (parameter_seq rows : list (gmap string value)) :
  bind_rows ddl parameter_seq = Ok rows → length rows = length parameter_seq.
Proof.
  revert rows. induction parameter_seq as [|d rest IH]; intros rows; simpl.
  - by intros [= <-].
  - run. destruct (bind_row _ _ d); [|done].
    destruct (bind_rows ddl rest) as [rs|]; [|done].
    intros [= <-]. simpl. f_equal. by apply IH.
Qed.

Lemma drop_and_create_run (table_name : string) (columns : list column)
    (e : env) (w : world) :
  _drop_and_create table_name
    [DropTableIfExists table_name; CreateTable table_name columns] e w
  = if db_fault e table_name StepDropCreate
    then (Raise (OperationalError "disk I/O error"), w)
    else (Ok (), set_tables (<[table_name := new_table columns]> (tables w))
                   (add_trace [EvDropCreate table_name] w)).
Proof.
  unfold _drop_and_create. rewrite bind_run, check_fault_run.
  destruct (db_fault e table_name StepDropCreate); [done|].
  unfold exec_script, exec_statement. run.
  rewrite lookup_delete_eq. simpl. unfold set_tables. simpl.
  by rewrite insert_delete_eq.
Qed.

Lemma insert_run (table_name : string) (ddl : insert_statement)
    (parameter_seq rows : list (gmap string value)) (t : table)
    (e : env) (w : world) :
  tables w !! ins_table ddl = Some t →
  forallb (λ c, has_column c t) (ins_columns ddl) = true →
  bind_rows ddl parameter_seq = Ok rows →
  _insert table_name ddl parameter_seq e w
  = if db_fault e table_name StepInsert
    then (Raise (OperationalError "disk I/O error"), w)
    else (Ok (),
          add_trace [EvInsert (ins_table ddl) (length parameter_seq)]
            (set_tables (<[ins_table ddl :=
                             {| t_columns := t_columns t;
                                t_rows := t_rows t ++ rows;
                                t_indexes := t_indexes t |}]> (tables w)) w)).
Proof.
  intros Ht Hcols Hrows. unfold _insert. rewrite bind_run, check_fault_run.
  destruct (db_fault e table_name StepInsert); [done|].
  run. by rewrite Ht, Hcols, Hrows.
Qed.

Lemma add_index_run (table_name index : string) (t : table) (e : env) (w : world) :
  tables w !! table_name = Some t →
  has_column index t = true →
  _add_index table_name index e w
  = if db_fault e table_name StepAddIndex
    then (Raise (OperationalError "disk I/O error"), w)
    else (Ok (),
          add_trace [EvAddIndex table_name index]
            (set_tables (<[table_name :=
                             {| t_columns := t_columns t; t_rows := t_rows t;
                                t_indexes := t_indexes t ++ [index] |}]> (tables w)) w)).
Proof.
  intros Ht Hcol. unfold _add_index. rewrite bind_run, check_fault_run.
  destruct (db_fault e table_name StepAddIndex); [done|].
  run. by rewrite Ht, Hcol.
Qed.

Lemma validate_run (table_name : string) (size : nat) (t : table)
    (e : env) (w : world) :
  tables w !! table_name = Some t →
  _validate table_name size e w
  = if db_fault e table_name StepValidate
    then (Raise (OperationalError "disk I/O error"), w)
    else if bool_decide (length (t_rows t) = size)
         then (Ok (), add_trace [EvValidate table_name] w)
         else (Raise ValidationError, w).
Proof.
  intros Ht. unfold _validate. rewrite bind_run, check_fault_run.
  destruct (db_fault e table_name StepValidate); [done|].
  run. rewrite Ht. simpl. by destruct (bool_decide _).
Qed.

Section Rebuild.

Variables (table_name : string) (columns : list column)
  (ddl : insert_statement) (index : string).
Hypothesis ddl_table : ins_table ddl = table_name.
Hypothesis ddl_columns :
  forallb (λ c, has_column c (new_table columns)) (ins_columns ddl) = true.
Hypothesis index_column : has_column index (new_table columns) = true.

(** A rebuild returns exactly when no step is hit by a fault, and then
    leaves the table with the rows bound from the parameters. *)
Lemma rebuild_Ok (parameter_seq rows : list (gmap string value))
    (e : env) (w w1 : world) :
  bind_rows ddl parameter_seq = Ok rows →
  rebuild table_name columns ddl index parameter_seq (length parameter_seq) e w
  = (Ok (), w1) ↔
  no_fault e table_name ∧ w1 = rebuilt table_name columns index rows w.
Proof.
  intros Hrows. pose proof (bind_rows_length _ _ _ Hrows) as Hlen.
  unfold rebuild, no_fault.
  rewrite bind_run, drop_and_create_run.
  destruct (db_fault e table_name StepDropCreate) eqn:F1.
  { split; [done|]. intros [Hno _]. by rewrite Hno in F1. }
  rewrite bind_run.
  erewrite (insert_run _ _ _ rows (new_table columns));
    [| by rewrite ddl_table; apply lookup_insert_eq | exact ddl_columns | exact Hrows].
  destruct (db_fault e table_name StepInsert) eqn:F2.
  { split; [done|]. intros [Hno _]. by rewrite Hno in F2. }
  rewrite bind_run, ddl_table.
  erewrite add_index_run; [| apply lookup_insert_eq | exact index_column].
  destruct (db_fault e table_name StepAddIndex) eqn:F3.
  { split; [done|]. intros [Hno _]. by rewrite Hno in F3. }
  erewrite validate_run; [| apply lookup_insert_eq].
  destruct (db_fault e table_name StepValidate) eqn:F4.
  { split; [done|]. intros [Hno _]. by rewrite Hno in F4. }
  simpl. rewrite bool_decide_true by done.
  unfold rebuilt, set_tables, add_trace. simpl.
  rewrite !insert_insert_eq, <- !app_assoc, Hlen. simpl.
  split.
  - intros [= <-]. split; [|done]. by intros [].
  - by intros [_ ->].
Qed.

End Rebuild.

End TableProps.

(** ** The fetcher *)

Module FetcherProps.
Import Fetcher Str Text TableProps.

(** [os.path.exists] as a proposition. *)
Definition present (p : string) (w : world) : Prop :=
  p ∈ dirs w ∨ is_Some (files w !! p).

Lemma path_exists_run (p : string) (e : env) (w : world) :
  path_exists p e w
  = (Ok (bool_decide (p ∈ dirs w) || bool_decide (is_Some (files w !! p))), w).
Proof. reflexivity. Qed.

Lemma present_true (p : string) (w : world) :
  present p w ↔
  bool_decide (p ∈ dirs w) || bool_decide (is_Some (files w !! p)) = true.
Proof.
  unfold present. rewrite orb_true_iff, !bool_decide_eq_true. done.
Qed.

(** *** Paths *)

Lemma no_sep_app (s t : string) :
  Viewings.no_sep (s +:+ t) = Viewings.no_sep s && Viewings.no_sep t.
Proof.
  induction s as [|c s IH]; [done|]. rewrite app_cons. simpl. rewrite IH.
  by destruct (Ascii.eqb c "/").
Qed.

Lemma head_of_no_sep (s : string) : Viewings.no_sep s = true → head_of s = "".
Proof.
  induction s as [|c s IH]; [done|]. simpl.
  intros [Hc Hs]%andb_true_iff. rewrite IH by done.
  apply negb_true_iff in Hc. by rewrite Hc.
Qed.

Lemma no_sep_digits (s : string) :
  all_chars is_digit s = true → Viewings.no_sep s = true.
Proof.
  induction s as [|c s IH]; [done|]. simpl.
  intros [Hc Hs]%andb_true_iff. rewrite IH by done.
  by destruct c as [[] [] [] [] [] [] [] []].
Qed.

Lemma head_of_app (x s : string) :
  Viewings.no_sep s = true → head_of (x +:+ s) = head_of x.
Proof.
  intros Hs. induction x as [|c x IH].
  - rewrite app_nil_l. by apply head_of_no_sep.
  - rewrite app_cons. simpl. by rewrite IH.
Qed.

Lemma head_of_length (x : string) :
  (String.length (head_of x) ≤ String.length x)%nat.
Proof.
  induction x as [|c x IH]; [done|]. simpl.
  destruct (head_of x) as [|h hs].
  - destruct (Ascii.eqb c "/"); simpl; lia.
  - simpl in *. lia.
Qed.

Lemma drop_app (n : nat) (x s : string) :
  (n ≤ String.length x)%nat → drop n (x +:+ s) = drop n x +:+ s.
Proof.
  revert x. induction n as [|n IH]; intros x Hn.
  - by destruct x.
  - destruct x as [|c x]; [simpl in Hn; lia|]. rewrite app_cons. simpl.
    apply IH. simpl in Hn. lia.
Qed.

(** What follows a path's last slash grows with the path. *)
Lemma basename_app (x s : string) :
  Viewings.no_sep s = true → basename (x +:+ s) = basename x +:+ s.
Proof.
  intros Hs. unfold basename. rewrite head_of_app by done.
  apply drop_app, head_of_length.
Qed.

(** *** The dated directory *)

Lemma zfill_nat_digits (width n : nat) :
  all_chars is_digit (zfill width (pretty n)) = true
  ∧ zfill width (pretty n) ≠ ""
  ∧ int_digits (zfill width (pretty n)) 0 false = Ok (Z.of_nat n).
Proof.
  change (pretty n) with (pretty (N.of_nat n)).
  destruct (zfill_digits width (N.of_nat n)) as [? ?].
  split; [done|]. split; [done|]. rewrite digits_zfill. f_equal. lia.
Qed.

(** Where a run of digits ends is determined by the string. *)
Lemma digits_prefix_inj (a a' t t' : string) :
  all_chars is_digit a = true → all_chars is_digit a' = true →
  match t with String c _ => is_digit c = false | "" => True end →
  match t' with String c _ => is_digit c = false | "" => True end →
  a +:+ t = a' +:+ t' → a = a' ∧ t = t'.
Proof.
  intros Ha Ha' Ht Ht' Heq.
  destruct (take_while_all is_digit a t Ha Ht) as [H1 H2].
  destruct (take_while_all is_digit a' t' Ha' Ht') as [H1' H2'].
  rewrite Heq in H1, H2. split; congruence.
Qed.

Lemma endswith_sep_app (s t : string) :
  t ≠ "" → endswith_sep (s +:+ t) = endswith_sep t.
Proof.
  intros Ht. induction s as [|c s IH]; [done|]. rewrite app_cons.
  cbn [endswith_sep]. rewrite IH.
  destruct (s +:+ t) eqn:Hst; [|done].
  destruct s; [|done]. by rewrite app_nil_l in Hst.
Qed.

Lemma endswith_sep_digits (s : string) :
  all_chars is_digit s = true → endswith_sep s = false.
Proof.
  induction s as [|c s IH]; [done|]. simpl.
  intros [Hc Hs]%andb_true_iff. destruct s as [|c' s'].
  - by destruct c as [[] [] [] [] [] [] [] []].
  - by apply IH.
Qed.

(** The directory name of a generation: three runs of digits around two
    hyphens, from which the date reads back. *)
Lemma strftime_Ymd_shape (d : datetime) :
  ∃ y m dd,
    strftime_Ymd d = y +:+ String "-" (m +:+ String "-" dd)
    ∧ all_chars is_digit y = true ∧ all_chars is_digit m = true
    ∧ all_chars is_digit dd = true ∧ y ≠ "" ∧ dd ≠ ""
    ∧ int_digits y 0 false = Ok (Z.of_nat (dt_year d))
    ∧ int_digits m 0 false = Ok (Z.of_nat (dt_month d))
    ∧ int_digits dd 0 false = Ok (Z.of_nat (dt_day d)).
Proof.
  destruct (zfill_nat_digits 4 (dt_year d)) as (? & ? & ?).
  destruct (zfill_nat_digits 2 (dt_month d)) as (? & ? & ?).
  destruct (zfill_nat_digits 2 (dt_day d)) as (? & ? & ?).
  by eexists _, _, _.
Qed.

Lemma strftime_Ymd_no_sep (d : datetime) :
  Viewings.no_sep (strftime_Ymd d) = true
  ∧ (2 ≤ String.length (strftime_Ymd d))%nat
  ∧ startswith_sep (strftime_Ymd d) = false.
Proof.
  destruct (strftime_Ymd_shape d)
    as (y & m & dd & -> & Hy & Hm & Hd & Hny & _).
  split; [|split].
  - rewrite no_sep_app. cbn [Viewings.no_sep]. rewrite no_sep_app.
    cbn [Viewings.no_sep]. by rewrite !no_sep_digits.
  - rewrite length_app. simpl. destruct y; [done | simpl; lia].
  - destruct y as [|c y]; [done|]. simpl in Hy.
    apply andb_true_iff in Hy as [Hc _]. rewrite app_cons.
    by destruct c as [[] [] [] [] [] [] [] []].
Qed.

(** The dated directory is the root, a slash where one is needed, and
    the name of the date. *)
Lemma dated_dir_shape (root : string) (d : datetime) :
  path_join root (strftime_Ymd d)
  = (if bool_decide (root = "") || endswith_sep root then root else root +:+ "/")
    +:+ strftime_Ymd d.
Proof.
  destruct (strftime_Ymd_no_sep d) as (_ & _ & Hstart).
  unfold path_join. rewrite Hstart.
  destruct (bool_decide (root = "") || endswith_sep root); [done|].
  by rewrite app_assoc.
Qed.

Lemma dated_dir_basename (root : string) (d : datetime) :
  basename (path_join root (strftime_Ymd d)) ≠ ""
  ∧ basename (path_join root (strftime_Ymd d)) ≠ ".".
Proof.
  destruct (strftime_Ymd_no_sep d) as (Hsep & Hlen & _).
  rewrite dated_dir_shape, basename_app by done.
  assert (2 ≤ String.length
                (basename (if bool_decide (root = "") || endswith_sep root
                           then root else root +:+ "/") +:+ strftime_Ymd d))%nat
    as H by (rewrite length_app; lia).
  split; intros Heq; rewrite Heq in H; simpl in H; lia.
Qed.

(** The cache path is a prefix fixed by the root, the directory name of
    the date, a slash and the file name. *)
Lemma cache_path_shape (root name : string) :
  startswith_sep name = false →
  ∃ prefix, prefix = (if bool_decide (root = "") || endswith_sep root
                      then root else root +:+ "/")
    ∧ ∀ d,
    cache_path root d name
    = prefix +:+ (strftime_Ymd d +:+ String "/" name).
Proof.
  intros Hname. eexists. split; [reflexivity|].
  intros d. destruct (strftime_Ymd_shape d)
    as (y & m & dd & Hs & Hy & Hm & Hd & Hny & Hnd & _).
  unfold cache_path. rewrite dated_dir_shape.
  set (prefix := if bool_decide (root = "") || endswith_sep root
                 then root else root +:+ "/").
  assert (endswith_sep (prefix +:+ strftime_Ymd d) = false) as Hend.
  { rewrite Hs.
    replace (prefix +:+ (y +:+ String "-" (m +:+ String "-" dd)))
      with ((prefix +:+ (y +:+ String "-" (m +:+ String "-" ""))) +:+ dd).
    - rewrite endswith_sep_app by done. by apply endswith_sep_digits.
    - rewrite !app_assoc, !app_cons, !app_assoc, !app_cons. by rewrite !app_nil_l. }
  assert (prefix +:+ strftime_Ymd d ≠ "") as Hne.
  { intros Ha. rewrite Hs in Ha. destruct prefix, y; done. }
  unfold path_join. rewrite Hname, Hend.
  rewrite bool_decide_eq_false_2 by apply Hne. simpl.
  by rewrite !app_assoc.
Qed.

Lemma cache_path_inj (root name : string) (d d' : datetime) :
  startswith_sep name = false →
  cache_path root d name = cache_path root d' name → d = d'.
Proof.
  intros Hname. destruct (cache_path_shape root name Hname) as (prefix & _ & Hp).
  rewrite !Hp. intros Heq%app_inv_head.
  destruct (strftime_Ymd_shape d)
    as (y & m & dd & Hs & Hy & Hm & Hd & _ & _ & Iy & Im & Id).
  destruct (strftime_Ymd_shape d')
    as (y' & m' & dd' & Hs' & Hy' & Hm' & Hd' & _ & _ & Iy' & Im' & Id').
  rewrite Hs, Hs' in Heq. rewrite !app_assoc, !app_cons, !app_assoc in Heq.
  rewrite !app_cons in Heq.
  apply digits_prefix_inj in Heq as [-> [= Heq]]; [|done..].
  apply digits_prefix_inj in Heq as [-> [= Heq]]; [|done..].
  apply digits_prefix_inj in Heq as [-> _]; [|done..].
  destruct d, d'. simpl in *. f_equal; apply Nat2Z.inj; congruence.
Qed.





(** *** Making directories *)

(** Worlds that differ in their directories only, the later one having
    all of the earlier. *)
Definition grown (w w1 : world) : Prop :=
  files w1 = files w ∧ markers w1 = markers w ∧ tables w1 = tables w
  ∧ title_ids_cache w1 = title_ids_cache w ∧ trace w1 = trace w
  ∧ dirs w ⊆ dirs w1.

Lemma grown_refl (w : world) : grown w w.
Proof. by repeat split. Qed.

Lemma grown_trans (w w1 w2 : world) : grown w w1 → grown w1 w2 → grown w w2.
Proof.
  intros (? & ? & ? & ? & ? & ?) (? & ? & ? & ? & ? & ?).
  repeat split; [congruence..|set_solver].
Qed.

Lemma mkdir_run (name : string) (e : env) (w : world) :
  mkdir name e w
  = if bool_decide (name ∈ dirs w) || bool_decide (is_Some (files w !! name))
    then (Raise OSError, w)
    else if dir_there (dirname name) w
    then (Ok (), set_dirs ({[name]} ∪ dirs w) w)
    else (Raise OSError, w).
Proof.
  unfold mkdir. run. destruct (_ || _); [done|].
  by destruct (dir_there _ w).
Qed.

Lemma mkdir_spec (name : string) (e : env) (w w1 : world) (r : result unit) :
  mkdir name e w = (r, w1) →
  grown w w1
  ∧ match r with Ok _ => name ∈ dirs w1 | Raise x => x = OSError ∧ w1 = w end.
Proof.
  rewrite mkdir_run. destruct (_ || _).
  { intros [= <- <-]. split; [apply grown_refl | done]. }
  destruct (dir_there _ w); intros [= <- <-].
  - split; [|set_solver]. repeat split; simpl; set_solver.
  - split; [apply grown_refl | done].
Qed.

Lemma makedirs_from_S (fuel : nat) (name : string) (e : env) (w : world) :
  makedirs_from (S fuel) name e w
  = let head := if bool_decide (basename name = "")
                then dirname (dirname name) else dirname name in
    let tail := if bool_decide (basename name = "")
                then basename (dirname name) else basename name in
    if negb (bool_decide (head = "")) && negb (bool_decide (tail = ""))
    then
      if bool_decide (head ∈ dirs w) || bool_decide (is_Some (files w !! head))
      then mkdir name e w
      else match makedirs_from fuel head e w with
           | (Ok _, w') =>
               if bool_decide (tail = ".") then (Ok (), w') else mkdir name e w'
           | (Raise x, w') => (Raise x, w')
           end
    else mkdir name e w.
Proof.
  cbn [makedirs_from]. cbv zeta. destruct (_ && _); [|done].
  rewrite bind_run, path_exists_run. destruct (_ || _); [done|].
  rewrite bind_run. destruct (makedirs_from fuel _ e w) as [[[]|x] w']; [|done].
  by destruct (bool_decide (_ = ".")).
Qed.

(** [os.makedirs] touches directories only, and raises nothing but
    [OSError]. *)
Lemma makedirs_from_spec (fuel : nat) (name : string) (e : env) (w w1 : world)
    (r : result unit) :
  makedirs_from fuel name e w = (r, w1) →
  grown w w1 ∧ ∀ x, r = Raise x → x = OSError.
Proof.
  revert name w w1 r. induction fuel as [|fuel IH]; intros name w w1 r.
  { cbn [makedirs_from]. intros [Hg Hr]%mkdir_spec. split; [done|].
    intros x ->. by destruct Hr. }
  rewrite makedirs_from_S. cbv zeta.
  assert (mkdir name e w = (r, w1) → grown w w1 ∧ ∀ x, r = Raise x → x = OSError)
    as Hmk.
  { intros [Hg Hr]%mkdir_spec. split; [done|]. intros x ->. by destruct Hr. }
  destruct (_ && _); [|done]. destruct (_ || _); [done|].
  destruct (makedirs_from fuel _ e w) as [[[]|x] w'] eqn:Hrec.
  - destruct (IH _ _ _ _ Hrec) as [Hg _].
    destruct (bool_decide (_ = ".")).
    + intros [= <- <-]. done.
    + intros [Hg' Hr]%mkdir_spec. split; [by eapply grown_trans|].
      intros y ->. by destruct Hr.
  - intros [= <- <-]. destruct (IH _ _ _ _ Hrec) as [Hg Hx]. split; [done|].
    intros y [= <-]. by apply Hx.
Qed.

(** After [os.makedirs] has returned, a directory whose last component is
    not empty and not a dot is there. *)
Lemma makedirs_from_there (fuel : nat) (name : string) (e : env) (w w1 : world) :
  basename name ≠ "" → basename name ≠ "." →
  makedirs_from fuel name e w = (Ok (), w1) → name ∈ dirs w1.
Proof.
  intros Hb Hdot.
  assert (∀ w', mkdir name e w' = (Ok (), w1) → name ∈ dirs w1) as Hmk.
  { by intros w' [_ ?]%mkdir_spec. }
  destruct fuel as [|fuel]; [apply Hmk|].
  rewrite makedirs_from_S. cbv zeta.
  rewrite (bool_decide_eq_false_2 (basename name = "")) by done.
  rewrite (bool_decide_eq_false_2 (basename name = ".")) by done.
  destruct (_ && _); [|apply Hmk]. destruct (_ || _); [apply Hmk|].
  destruct (makedirs_from fuel _ e w) as [[[]|x] w']; [apply Hmk | done].
Qed.

(** [_ensure_download_path] touches directories only; when it returns,
    the dated directory is there; it raises nothing but [OSError]. *)
Lemma ensure_download_path_spec (root : string) (date : datetime) (e : env)
    (w w1 : world) (r : result string) :
  _ensure_download_path root date e w = (r, w1) →
  grown w w1
  ∧ match r with
    | Ok download_path =>
        download_path = path_join root (strftime_Ymd date)
        ∧ present download_path w1
    | Raise x => x = OSError
    end.
Proof.
  unfold _ensure_download_path. rewrite bind_run, path_exists_run.
  cbv beta iota. destruct (_ || _) eqn:Hex.
  - intros [= <- <-]. split; [apply grown_refl|]. split; [done|].
    by apply present_true.
  - rewrite bind_run. unfold makedirs.
    destruct (makedirs_from _ _ e w) as [[[]|x] w'] eqn:Hmk.
    + intros [= <- <-]. destruct (makedirs_from_spec _ _ _ _ _ _ Hmk) as [Hg _].
      split; [done|]. split; [done|]. left.
      destruct (dated_dir_basename root date) as [? ?].
      by eapply makedirs_from_there.
    + intros [= <- <-]. destruct (makedirs_from_spec _ _ _ _ _ _ Hmk) as [Hg Hx].
      split; [done | by apply Hx].
Qed.

(** *** The command line *)

(** Characters that neither [shlex] nor [curl] reads anything into, and
    the words made of them that [curl] takes as a file name or a URL. *)
Definition safe_char (c : ascii) : bool :=
  negb (Shlex.whitespace c || Shlex.quote c || Shlex.escape c
        || glob_char c || hash_char c).

Definition safe_word (s : string) : bool :=
  negb (bool_decide (s = "")) && negb (starts_with_dash s)
  && all_chars safe_char s.

Lemma safe_char_spec (c : ascii) :
  safe_char c = true →
  Shlex.whitespace c = false ∧ Shlex.quote c = false ∧ Shlex.escape c = false
  ∧ glob_char c = false ∧ hash_char c = false.
Proof.
  unfold safe_char.
  by destruct (Shlex.whitespace c), (Shlex.quote c), (Shlex.escape c),
    (glob_char c), (hash_char c).
Qed.

Lemma read_word (t s token : string) (quoted : bool) :
  all_chars safe_char t = true →
  Shlex.read_tokens (t +:+ s) Shlex.Word token quoted
  = Shlex.read_tokens s Shlex.Word (token +:+ t) quoted.
Proof.
  revert token. induction t as [|c t IH]; intros token.
  - intros _. by rewrite app_nil_l, app_nil_r.
  - intros Hall. rewrite app_cons. simpl in Hall.
    apply andb_true_iff in Hall as [Hc Ht].
    cbn [Shlex.read_tokens].
    destruct (safe_char_spec c Hc) as (-> & -> & -> & _).
    rewrite IH by done. by rewrite app_assoc.
Qed.

Lemma read_first (t s : string) :
  t ≠ "" → all_chars safe_char t = true →
  Shlex.read_tokens (t +:+ s) Shlex.Blank "" false
  = Shlex.read_tokens s Shlex.Word t false.
Proof.
  destruct t as [|c t]; [done|]. intros _ Hall. rewrite app_cons.
  simpl in Hall. apply andb_true_iff in Hall as [Hc Ht].
  cbn [Shlex.read_tokens].
  destruct (safe_char_spec c Hc) as (-> & -> & -> & _).
  by rewrite read_word.
Qed.

(** A safe word followed by a blank is the next token. *)
Lemma read_token (t rest : string) :
  t ≠ "" → all_chars safe_char t = true →
  Shlex.read_tokens (t +:+ String " " rest) Shlex.Blank "" false
  = (r ← Shlex.read_tokens rest Shlex.Blank "" false; mret (t :: r)).
Proof.
  intros Hne Ht. rewrite read_first by done. cbn [Shlex.read_tokens].
  change (Shlex.whitespace " ") with true. cbv iota.
  by rewrite (bool_decide_eq_false_2 (t = "")) by done.
Qed.

Lemma read_last (t : string) :
  t ≠ "" → all_chars safe_char t = true →
  Shlex.read_tokens t Shlex.Blank "" false = Ok [t].
Proof.
  intros Hne Ht. rewrite <- (app_nil_r t) at 1. rewrite read_first by done.
  cbn [Shlex.read_tokens]. by rewrite (bool_decide_eq_false_2 (t = "")) by done.
Qed.

Lemma safe_word_spec (s : string) :
  safe_word s = true →
  s ≠ "" ∧ starts_with_dash s = false ∧ all_chars safe_char s = true.
Proof.
  unfold safe_word. intros [[H1 H2]%andb_true_iff H3]%andb_true_iff.
  apply negb_true_iff, bool_decide_eq_false in H1.
  by apply negb_true_iff in H2.
Qed.

Lemma has_char_safe (p : ascii → bool) (s : string) :
  (∀ c, safe_char c = true → p c = false) →
  all_chars safe_char s = true → has_char p s = false.
Proof.
  intros Hp. induction s as [|c s IH]; [done|]. simpl.
  intros [Hc Hs]%andb_true_iff. by rewrite Hp, IH.
Qed.

(** For a safe URL and a safe destination the command line splits into
    the intended arguments. *)
Lemma split_command (url dest : string) :
  safe_word url = true → safe_word dest = true →
  Shlex.split ("curl --fail --progress-bar -o " +:+ dest +:+ " " +:+ url)
  = Ok ["curl"; "--fail"; "--progress-bar"; "-o"; dest; url]
  ∧ intended ["curl"; "--fail"; "--progress-bar"; "-o"; dest; url]
    = Some (url, dest).
Proof.
  intros (Hu1 & Hu2 & Hu3)%safe_word_spec (Hd1 & Hd2 & Hd3)%safe_word_spec.
  split.
  - unfold Shlex.split.
    change ("curl --fail --progress-bar -o " +:+ dest +:+ " " +:+ url)
      with ("curl" +:+ String " " ("--fail" +:+ String " "
             ("--progress-bar" +:+ String " " ("-o" +:+ String " "
               (dest +:+ String " " url))))).
    rewrite !read_token by done. by rewrite read_last.
  - unfold intended. rewrite bool_decide_eq_true_2 by done.
    rewrite (bool_decide_eq_false_2 (dest = "")) by done.
    rewrite (bool_decide_eq_false_2 (url = "")) by done.
    rewrite Hu2, Hd2.
    rewrite (has_char_safe hash_char dest), (has_char_safe glob_char url);
      [done | | done | | done]; intros c Hc;
      by destruct (safe_char_spec c Hc) as (_ & _ & _ & ? & ?).
Qed.

(** [shlex.split] raises nothing but [ValueError]. *)
Lemma read_tokens_Raise (s : string) (st : Shlex.state) (token : string)
    (quoted : bool) (x : exn) :
  Shlex.read_tokens s st token quoted = Raise x → x = ValueError.
Proof.
  revert st token quoted. induction s as [|c s IH]; intros st token quoted; simpl.
  - by destruct st; intros [=].
  - destruct st as [| |q|[q|]].
    + destruct (Shlex.whitespace c); [apply IH|].
      destruct (Shlex.escape c); [apply IH|].
      destruct (Shlex.quote c); apply IH.
    + destruct (Shlex.whitespace c).
      * destruct (Shlex.read_tokens s Shlex.Blank "" false) eqn:Hr; [done|].
        intros [= <-]. by apply IH in Hr.
      * destruct (Shlex.quote c); [apply IH|].
        destruct (Shlex.escape c); apply IH.
    + destruct (Ascii.eqb c q); [apply IH|].
      destruct (_ && _); apply IH.
    + apply IH.
    + apply IH.
Qed.

(** *** One [curl] process *)

Lemma transfer_run (url dest : string) (e : env) (w : world) :
  transfer url dest e w
  = match curl_outcome e url with
    | CurlOk rows =>
        if can_create dest w
        then (Ok (), set_files (<[dest := Whole rows]> (files w)) w)
        else (Raise CalledProcessError, w)
    | CurlRefused => (Raise CalledProcessError, w)
    | CurlInterrupted =>
        (Raise CalledProcessError,
         if can_create dest w
         then set_files (<[dest := Partial]> (files w)) w else w)
    end.
Proof.
  unfold transfer. run.
  destruct (curl_outcome e url); [|done|]; by destruct (can_create dest w).
Qed.

(** Worlds that differ in their files only. *)
Definition rewritten (w w1 : world) : Prop :=
  dirs w1 = dirs w ∧ markers w1 = markers w ∧ tables w1 = tables w
  ∧ title_ids_cache w1 = title_ids_cache w ∧ trace w1 = trace w.

Lemma check_output_spec (args : list string) (e : env) (w w1 : world)
    (r : result unit) :
  check_output args e w = (r, w1) →
  rewritten w w1 ∧ ∀ x, r = Raise x → x = CalledProcessError.
Proof.
  unfold check_output. destruct (intended args) as [[url dest]|].
  - rewrite transfer_run.
    destruct (curl_outcome e url); [destruct (can_create dest w)| |
                                    destruct (can_create dest w)];
      intros [= <- <-]; (split; [done | by intros ? [= <-]]).
  - run. destruct (stray_ok _); intros [= <- <-];
      (split; [done | by intros ? [= <-]]).
Qed.

(** [_curl] leaves directories, markers, tables and the registry alone and
    records at most the one process it starts; it raises [ValueError] when
    the command line cannot be split and [CalledProcessError] when the
    process fails. *)
Lemma curl_spec (url dest : string) (e : env) (w w1 : world) (r : result unit) :
  _curl url dest e w = (r, w1) →
  dirs w1 = dirs w ∧ markers w1 = markers w ∧ tables w1 = tables w
  ∧ title_ids_cache w1 = title_ids_cache w
  ∧ ((trace w1 = trace w ∧ files w1 = files w ∧ r = Raise ValueError)
     ∨ trace w1 = trace w ++ [EvDownload url dest])
  ∧ ∀ x, r = Raise x → x = ValueError ∨ x = CalledProcessError.
Proof.
  unfold _curl. rewrite bind_run. unfold lift at 1.
  destruct (Shlex.split _) as [args|x] eqn:Hsplit.
  - rewrite bind_run, emit_run.
    intros [(Hd & Hm & Ht & Hc & Htr) Hx]%check_output_spec.
    repeat split; [done..| by right | by intros x ?%Hx; right].
  - apply read_tokens_Raise in Hsplit as ->.
    intros [= <- <-]. repeat split; [by left | by intros ? [= <-]; left].
Qed.

(** With a safe URL and a safe destination the process is the intended
    one. *)
Lemma curl_safe (url dest : string) (e : env) (w : world) :
  safe_word url = true → safe_word dest = true →
  _curl url dest e w = transfer url dest e (add_trace [EvDownload url dest] w).
Proof.
  intros Hu Hd. destruct (split_command url dest Hu Hd) as [Hsplit Hint].
  unfold _curl. rewrite bind_run. unfold lift at 1. rewrite Hsplit.
  rewrite bind_run, emit_run. unfold check_output. by rewrite Hint.
Qed.

(** *** One fetch *)

Lemma download_imdb_file_run (name root : string) (e : env) (w : world) :
  download_imdb_file name root e w =
  match last_modified e (IMDB_BASE +:+ name) with
  | Raise x => (Raise x, w)
  | Ok date =>
      match _ensure_download_path root date e w with
      | (Raise x, w1) => (Raise x, w1)
      | (Ok download_path, w1) =>
          let p := path_join download_path name in
          if bool_decide (p ∈ dirs w1) || bool_decide (is_Some (files w1 !! p))
          then (Ok p, w1)
          else match _curl (IMDB_BASE +:+ name) p e w1 with
               | (Ok _, w2) => (Ok p, w2)
               | (Raise x, w2) => (Raise x, w2)
               end
      end
  end.
Proof.
  unfold download_imdb_file. rewrite bind_run.
  change (_get_last_modified_date (IMDB_BASE +:+ name) e w)
    with (last_modified e (IMDB_BASE +:+ name), w).
  destruct (last_modified e _) as [date|x]; [|done].
  rewrite bind_run.
  destruct (_ensure_download_path root date e w) as [[dp|x] w1]; [|done].
  cbv zeta. rewrite bind_run, path_exists_run. cbv iota beta.
  destruct (_ || _); [done|]. rewrite bind_run.
  by destruct (_curl _ _ e w1) as [[[]|x] w2].
Qed.

(** What a fetch leaves alone. *)
Lemma download_frame (name root : string) (e : env) (w w1 : world)
    (r : result string) :
  download_imdb_file name root e w = (r, w1) →
  markers w1 = markers w ∧ tables w1 = tables w
  ∧ title_ids_cache w1 = title_ids_cache w
  ∧ dirs w ⊆ dirs w1
  ∧ (trace w1 = trace w ∨ ∃ url dest, trace w1 = trace w ++ [EvDownload url dest]).
Proof.
  rewrite download_imdb_file_run.
  destruct (last_modified e _) as [date|x]; [|intros [= <- <-]; auto 10].
  destruct (_ensure_download_path root date e w) as [[dp|x] wd] eqn:Hens.
  2: { destruct (ensure_download_path_spec _ _ _ _ _ _ Hens)
         as [(Hf & Hm & Ht & Hc & Htr & Hd) _].
       intros [= <- <-]. auto 10. }
  destruct (ensure_download_path_spec _ _ _ _ _ _ Hens)
    as [(Hf & Hm & Ht & Hc & Htr & Hd) _].
  cbv zeta. destruct (_ || _); [intros [= <- <-]; auto 10|].
  destruct (_curl _ _ e wd) as [rc w2] eqn:Hcurl.
  destruct (curl_spec _ _ _ _ _ _ Hcurl) as (Hd2 & Hm2 & Ht2 & Hc2 & Htr2 & _).
  assert (markers w2 = markers w ∧ tables w2 = tables w
          ∧ title_ids_cache w2 = title_ids_cache w ∧ dirs w ⊆ dirs w2
          ∧ (trace w2 = trace w
             ∨ ∃ url dest, trace w2 = trace w ++ [EvDownload url dest])) as H.
  { repeat split; [congruence.. | by rewrite Hd2 |].
    destruct Htr2 as [[-> _] | ->]; [by left | right; rewrite Htr; eauto]. }
  by destruct rc; intros [= <- <-].
Qed.

(** A fetch that returned: the path it returns, and the dated directory,
    which is there. *)
Lemma download_imdb_file_Ok (name root : string) (e : env) (w w1 : world)
    (p : string) :
  download_imdb_file name root e w = (Ok p, w1) →
  ∃ date, last_modified e (IMDB_BASE +:+ name) = Ok date
    ∧ p = cache_path root date name
    ∧ present (path_join root (strftime_Ymd date)) w1.
Proof.
  rewrite download_imdb_file_run.
  destruct (last_modified e _) as [date|x]; [|done].
  destruct (_ensure_download_path root date e w) as [[dp|x] wd] eqn:Hens; [|done].
  destruct (ensure_download_path_spec _ _ _ _ _ _ Hens) as [_ [-> Hdir]].
  cbv zeta. destruct (_ || _) eqn:Hex.
  - intros [= <- <-]. by exists date.
  - destruct (_curl _ _ e wd) as [[[]|x] w2] eqn:Hcurl; [|done].
    intros [= <- <-]. exists date. split; [done|]. split; [done|].
    destruct (curl_spec _ _ _ _ _ _ Hcurl) as (Hd2 & _).
    destruct Hdir as [Hdir|Hdir]; [left; by rewrite Hd2|].
    (* the directory was found as a file: the process may have rewritten
       it, but a file it stays *)
    right. revert Hcurl. unfold _curl. rewrite bind_run. unfold lift at 1.
    destruct (Shlex.split _) as [args|]; [|done].
    rewrite bind_run, emit_run. unfold check_output.
    destruct (intended args) as [[url dest]|].
    + rewrite transfer_run. destruct (curl_outcome e url); [|done..].
      destruct (can_create dest _); [|done]. intros [= <-]. simpl.
      destruct (decide (dest = path_join root (strftime_Ymd date))) as [->|Hne].
      * by rewrite lookup_insert_eq.
      * by rewrite lookup_insert_ne.
    + run. destruct (stray_ok _); [|done]. intros [= <-]. simpl.
      destruct Hdir as [f Hf].
      destruct (stray_files (curl_other e args)
                  !! path_join root (strftime_Ymd date)) as [g|] eqn:Hg.
      * exists g. by apply lookup_union_Some_l.
      * exists f. rewrite lookup_union_r by done. done.
Qed.

(** A fetch of a generation that is in place returns its path and changes
    nothing. *)
Lemma download_cached (name root : string) (e : env) (w : world) (date : datetime) :
  last_modified e (IMDB_BASE +:+ name) = Ok date →
  present (path_join root (strftime_Ymd date)) w →
  present (cache_path root date name) w →
  download_imdb_file name root e w = (Ok (cache_path root date name), w).
Proof.
  intros Hdate Hdir%present_true Hp%present_true.
  rewrite download_imdb_file_run, Hdate.
  assert (_ensure_download_path root date e w
          = (Ok (path_join root (strftime_Ymd date)), w)) as ->.
  { unfold _ensure_download_path. rewrite bind_run, path_exists_run.
    cbv beta iota. by rewrite Hdir. }
  cbv zeta. unfold cache_path in *. by rewrite Hp.
Qed.

(** *** Safe names *)

(** A download root and a resource name that reach [curl] as they are
    written: no blank, quote, backslash, brace, bracket or hash in them,
    and no dash at the start of the root. *)
Definition safe_names (root name : string) : Prop :=
  all_chars safe_char root = true ∧ starts_with_dash root = false
  ∧ all_chars safe_char name = true.

Lemma is_digit_safe (c : ascii) : is_digit c = true → safe_char c = true.
Proof. by destruct c as [[] [] [] [] [] [] [] []]. Qed.

Lemma strftime_Ymd_safe (d : datetime) :
  all_chars safe_char (strftime_Ymd d) = true
  ∧ ∃ c s, strftime_Ymd d = String c s ∧ is_digit c = true.
Proof.
  destruct (strftime_Ymd_shape d)
    as (y & m & dd & -> & Hy & Hm & Hd & Hny & _).
  split.
  - rewrite all_chars_app. cbn [all_chars]. rewrite all_chars_app.
    cbn [all_chars].
    rewrite !(all_chars_impl is_digit safe_char) by (done || apply is_digit_safe).
    done.
  - destruct y as [|c y]; [done|]. simpl in Hy.
    apply andb_true_iff in Hy as [Hc _]. rewrite app_cons. eauto.
Qed.

Lemma safe_url (name : string) :
  all_chars safe_char name = true → safe_word (IMDB_BASE +:+ name) = true.
Proof.
  intros Hname. unfold safe_word.
  assert (all_chars safe_char (IMDB_BASE +:+ name) = true) as ->
    by by rewrite all_chars_app, Hname.
  change (IMDB_BASE +:+ name)
    with (String "h" ("ttps://datasets.imdbws.com/" +:+ name)).
  by rewrite bool_decide_eq_false_2.
Qed.

Lemma safe_cache_path (root name : string) (date : datetime) :
  safe_names root name → safe_word (cache_path root date name) = true.
Proof.
  intros (Hroot & Hdash & Hname).
  destruct (strftime_Ymd_safe date) as (Hsafe & c & s & Hs & Hc).
  destruct (startswith_sep name) eqn:Hstart.
  - unfold cache_path, path_join at 1. rewrite Hstart.
    unfold safe_word. rewrite Hname.
    destruct name as [|a name]; [done|]. simpl in Hstart.
    rewrite bool_decide_eq_false_2 by done.
    by destruct a as [[] [] [] [] [] [] [] []].
  - destruct (cache_path_shape root name Hstart) as (prefix & Hprefix & ->).
    unfold safe_word.
    assert (all_chars safe_char prefix = true) as Hp.
    { rewrite Hprefix. destruct (_ || _); [done|].
      by rewrite all_chars_app, Hroot. }
    rewrite !all_chars_app, Hp, Hsafe. cbn [all_chars]. rewrite Hname.
    assert (∃ a r, prefix +:+ (strftime_Ymd date +:+ String "/" name) = String a r
                   ∧ starts_with_dash (String a r) = false) as (a & r & -> & ->).
    { destruct root as [|a root].
      - rewrite Hprefix. simpl. rewrite app_nil_l, Hs, app_cons.
        eexists _, _. split; [done|].
        by destruct c as [[] [] [] [] [] [] [] []].
      - rewrite Hprefix. destruct (_ || _); rewrite ?app_assoc, !app_cons; eauto. }
    by rewrite bool_decide_eq_false_2.
Qed.






(** C8, amended.  For a download root and a resource name that reach
    [curl] as they are written, a fetch that raises has done one of four
    things.  The probe failed, and nothing changed.  The dated directory
    could not be made, and no file changed.  [curl] ran on the final cache
    path, where no file was, and failed without writing (the server
    refused, or the file could not be created): no file changed, so there
    is still none at the final path.  Or the transfer was interrupted:
    the partial file is at the final path, nothing is cleaned up, and the
    next fetch under the same date returns that path and changes nothing,
    taking the partial file for the cached snapshot. *)
Theorem failed_download_leaves_what_curl_wrote (name root : string) (e : env)
    (w w1 : world) (x : exn) :
  safe_names root name →
  download_imdb_file name root e w = (Raise x, w1) →
  (last_modified e (IMDB_BASE +:+ name) = Raise x ∧ w1 = w)
  ∨ (∃ date,
       last_modified e (IMDB_BASE +:+ name) = Ok date
       ∧ ((x = OSError ∧ files w1 = files w)
          ∨ (x = CalledProcessError
             ∧ files w !! cache_path root date name = None
             ∧ (files w1 = files w
                ∨ (curl_outcome e (IMDB_BASE +:+ name) = CurlInterrupted
                   ∧ files w1 = <[cache_path root date name := Partial]> (files w)
                   ∧ ∀ e2, last_modified e2 (IMDB_BASE +:+ name) = Ok date →
                       download_imdb_file name root e2 w1
                       = (Ok (cache_path root date name), w1)))))).
Proof.
  intros Hsafe. rewrite download_imdb_file_run.
  destruct (last_modified e (IMDB_BASE +:+ name)) as [date|y].
  2:{ intros [= <- <-]. by left. }
  destruct (_ensure_download_path root date e w) as [[dp|y] wd] eqn:Hens.
  2:{ destruct (ensure_download_path_spec _ _ _ _ _ _ Hens) as [(Hf & _) ->].
      intros [= <- <-]. right. exists date. split; [done|]. by left. }
  destruct (ensure_download_path_spec _ _ _ _ _ _ Hens)
    as [(Hfiles & _) [-> Hdir]].
  cbv zeta. fold (cache_path root date name).
  set (p := cache_path root date name).
  destruct (bool_decide (p ∈ dirs wd) || bool_decide (is_Some (files wd !! p)))
    eqn:Hex; [done|].
  apply orb_false_iff in Hex as [_ Hnone].
  apply bool_decide_eq_false in Hnone. rewrite Hfiles in Hnone.
  assert (files w !! p = None) as Habsent.
  { destruct (files w !! p) eqn:E; [|done]. exfalso. apply Hnone. eauto. }
  rewrite curl_safe;
    [| apply safe_url; by destruct Hsafe as (_ & _ & ?)
     | by apply safe_cache_path].
  rewrite transfer_run. intros Hrun. right. exists date. split; [done|]. right.
  destruct (curl_outcome e (IMDB_BASE +:+ name)) as [rows| |] eqn:Hcurl.
  - destruct (can_create p _); [done|]. injection Hrun as <- <-.
    split; [done|]. split; [done|]. left. simpl. exact Hfiles.
  - injection Hrun as <- <-. split; [done|]. split; [done|]. left. exact Hfiles.
  - injection Hrun as <- <-. split; [done|]. split; [done|].
    destruct (can_create p _); [|left; exact Hfiles]. right.
    split; [done|]. split; [simpl; by rewrite Hfiles|].
    intros e2 Hdate2. apply download_cached; [done| |].
    + destruct Hdir as [Hdir|[f Hf]]; [by left|]. right. simpl.
      destruct (decide (p = path_join root (strftime_Ymd date))) as [<-|Hne].
      * by rewrite lookup_insert_eq.
      * by rewrite lookup_insert_ne, Hf.
    + right. simpl. by rewrite lookup_insert_eq.
Qed.

(** A transfer refused by the server, on a fresh machine. *)
Lemma failed_download_leaves_what_curl_wrote_witness :
  ∃ w1,
    download_imdb_file Movies.FILE_NAME "db" Fixtures.env_down Fixtures.fresh
    = (Raise CalledProcessError, w1)
    ∧ files w1 = files Fixtures.fresh.
Proof.
  destruct (download_imdb_file Movies.FILE_NAME "db" Fixtures.env_down Fixtures.fresh)
    as [r w1] eqn:Hrun.
  assert (r = Raise CalledProcessError) as ->.
  { pose proof Hrun as H0. vm_compute in H0. injection H0 as <- _. reflexivity. }
  exists w1. split; [reflexivity|].
  destruct (failed_download_leaves_what_curl_wrote Movies.FILE_NAME "db"
              Fixtures.env_down Fixtures.fresh w1 CalledProcessError
              ltac:(by repeat split) Hrun)
    as [[Hprobe _]|(date & _ & [[_ Hfiles]|(_ & _ & [Hfiles|[Hcurl _]])])];
    [discriminate Hprobe | exact Hfiles | exact Hfiles | discriminate Hcurl].
Defined.

(** C8 as stated fails: after an interrupted transfer the partial file is
    at the final cache path, and the next fetch takes it for the
    snapshot. *)
Lemma interrupted_download_stays :
  ∃ w1,
    download_imdb_file Movies.FILE_NAME "db" Fixtures.env_torn Fixtures.fresh
    = (Raise CalledProcessError, w1)
    ∧ files w1 !! Fixtures.basics_path = Some Partial
    ∧ download_imdb_file Movies.FILE_NAME "db" Fixtures.env0 w1
      = (Ok Fixtures.basics_path, w1).
Proof.
  eexists. split; [vm_compute; reflexivity|].
  split; vm_compute; reflexivity.
Qed.

End FetcherProps.

(** ** One refresh: fetch, checkpoint, body *)

Module RefreshProps.
Import TableProps FetcherProps.

Lemma checkpoint_run (path : string) (body : M unit) (e : env) (w : world) :
  checkpoint path body e w
  = if bool_decide (path ∈ markers w) then (Ok (), w)
    else match body e w with
         | (Ok _, w') =>
             (Ok (), add_trace [EvMarker path]
                       (set_markers ({[path]} ∪ markers w') w'))
         | (Raise x, w') => (Raise x, w')
         end.
Proof.
  unfold checkpoint. run. destruct (bool_decide _); [done|].
  by destruct (body e w) as [[[]|x] w'].
Qed.

Lemma present_frame (p : string) (w w' : world) :
  dirs w' = dirs w → files w' = files w → present p w → present p w'.
Proof. unfold present. by intros -> ->. Qed.

(** The shape all three [update] functions have. *)
Definition refresh (name : string) (body : string → M unit) : M unit :=
  e ← ask;
  downloaded_file_path ← Movies.download name (DB_DIR e);
  checkpoint downloaded_file_path (body downloaded_file_path).

(** A body keeps the local files and the markers as they are. *)
Definition keeps_files (body : M unit) : Prop :=
  ∀ e w w', body e w = (Ok (), w') →
    dirs w' = dirs w ∧ files w' = files w ∧ markers w' = markers w.

(** A refresh that returned unfolds into its fetch and, when the marker
    was absent, its body. *)
Lemma refresh_Ok (name : string) (body : string → M unit) (e : env) (w w1 : world) :
  refresh name body e w = (Ok (), w1) →
  ∃ date wd,
    last_modified e (Fetcher.IMDB_BASE +:+ name) = Ok date
    ∧ Fetcher.download_imdb_file name (DB_DIR e) e w
      = (Ok (Fetcher.cache_path (DB_DIR e) date name), wd)
    ∧ (let p := Fetcher.cache_path (DB_DIR e) date name in
       (p ∈ markers w ∧ w1 = wd)
       ∨ ((p ∉ markers w) ∧ ∃ wb,
            body p e wd = (Ok (), wb)
            ∧ w1 = add_trace [EvMarker p] (set_markers ({[p]} ∪ markers wb) wb))).
Proof.
  unfold refresh, Movies.download. rewrite bind_run. change (ask e w) with (Ok e, w).
  cbv iota beta. rewrite bind_run.
  destruct (Fetcher.download_imdb_file name (DB_DIR e) e w) as [[p|x] wd] eqn:Hdl;
    [|done].
  destruct (download_imdb_file_Ok _ _ _ _ _ _ Hdl) as (date & Hdate & -> & _).
  destruct (download_frame _ _ _ _ _ _ Hdl) as (Hm & _).
  rewrite checkpoint_run, Hm. intros Hrun.
  exists date, wd. split; [done|]. split; [done|]. cbv zeta.
  case_bool_decide as Hmark.
  - left. by injection Hrun as <-.
  - right. split; [done|].
    destruct (body _ e wd) as [[[]|x] wb]; [|done].
    exists wb. by injection Hrun as <-.
Qed.

(** A body reads the file it is given: it returns only when the file is
    there. *)
Definition reads_file (body : string → M unit) : Prop :=
  ∀ p e w w', body p e w = (Ok (), w') → is_Some (files w !! p).

(** Checkpoint idempotence: after a refresh that returned and found no
    marker, a refresh of the same generation, with any body, returns at
    once and changes nothing. *)
Lemma refresh_again (name : string) (body body2 : string → M unit)
    (e e2 : env) (w w1 : world) :
  (∀ p, keeps_files (body p)) →
  reads_file body →
  refresh name body e w = (Ok (), w1) →
  (∀ date, last_modified e (Fetcher.IMDB_BASE +:+ name) = Ok date →
           Fetcher.cache_path (DB_DIR e) date name ∉ markers w) →
  DB_DIR e2 = DB_DIR e →
  last_modified e2 (Fetcher.IMDB_BASE +:+ name)
  = last_modified e (Fetcher.IMDB_BASE +:+ name) →
  refresh name body2 e2 w1 = (Ok (), w1).
Proof.
  intros Hkeeps Hreads Hrun Hnot Hdir Hsame.
  destruct (refresh_Ok _ _ _ _ _ Hrun) as (date & wd & Hdate & Hdl & Hcase).
  destruct (download_imdb_file_Ok _ _ _ _ _ _ Hdl) as (date' & Hdate' & _ & Hpd).
  assert (date' = date) as -> by congruence.
  set (p := Fetcher.cache_path (DB_DIR e) date name) in *.
  destruct Hcase as [[Hin _]|(Hout & wb & Hbody & ->)].
  { by destruct (Hnot date Hdate). }
  destruct (Hkeeps p _ _ _ Hbody) as (Hd & Hf & _).
  pose proof (Hreads p _ _ _ Hbody) as Hfile.
  unfold refresh, Movies.download. rewrite bind_run.
  change (ask e2 _) with (Ok e2, add_trace [EvMarker p]
                                   (set_markers ({[p]} ∪ markers wb) wb)).
  cbv iota beta. rewrite bind_run, Hdir.
  rewrite (download_cached name (DB_DIR e) e2 _ date);
    [| congruence
     | eapply present_frame; [| |exact Hpd]; by simpl
     | right; simpl; by rewrite Hf].
  fold p. rewrite checkpoint_run. rewrite bool_decide_true; [done|].
  simpl. set_solver.
Qed.

End RefreshProps.

(** ** The Movie refresh *)

Module MoviesUpdateProps.
Import Movies TableProps RefreshProps RegistryProps DictLoop.

Lemma bind_assoc {A B C} (m : M A) (f : A → M B) (g : B → M C) (e : env) (w : world) :
  ((m ≫= f) ≫= g) e w = (m ≫= (λ a, f a ≫= g)) e w.
Proof. rewrite !bind_run. by destruct (m e w) as [[a|x] w']. Qed.

Lemma extract_run (path : string) (e : env) (w : world) :
  extract path e w
  = (match files w !! path with
     | Some (Whole rows) => Ok rows
     | Some _ => Raise ExtractionError
     | None => Raise OSError
     end, add_trace [EvExtract path] w).
Proof. unfold extract. run. by destruct (files w !! path) as [[]|]. Qed.

(** The row [INSERT INTO movies] binds for a Movie. *)
Definition movie_row (m : Movie) : gmap string value :=
  <["imdb_id" := VText (imdb_id m)]>
    (<["title" := VText (title m)]>
       (<["year" := VText (year m)]>
          (<["runtime_minutes" := VText (runtime_minutes m)]> ∅))).

Lemma movies_bind_rows (l : list Movie) :
  bind_rows MoviesTable_insert_ddl (asdict <$> l) = Ok (movie_row <$> l).
Proof.
  induction l as [|m l IH]; [done|].
  rewrite fmap_cons. cbn [bind_rows]. rewrite IH. reflexivity.
Qed.

Definition movies_columns : list column :=
  [ {| col_name := "imdb_id"; col_decl := "TEXT PRIMARY KEY NOT NULL";
       col_references := None |};
    {| col_name := "title"; col_decl := "TEXT NOT NULL"; col_references := None |};
    {| col_name := "year"; col_decl := "INT NOT NULL"; col_references := None |};
    {| col_name := "runtime_minutes"; col_decl := "INT"; col_references := None |} ].

(** The body of the loop in [update]. *)
Definition body (downloaded_file_path : string) : M unit :=
  movies ← _extract_movies downloaded_file_path;
  _ ← MoviesTable_drop_and_create;
  _ ← MoviesTable_insert movies;
  title_ids_cache_clear.

Lemma update_refresh : update = refresh FILE_NAME body.
Proof. reflexivity. Qed.

(** The world the body leaves when it returns. *)
Definition loaded (path : string) (movies : gmap string Movie) (w : world) : world :=
  {| dirs := dirs w; files := files w; markers := markers w;
     tables := <["movies" := {| t_columns := movies_columns;
                                t_rows := movie_row <$> (map_to_list movies).*2;
                                t_indexes := ["title"] |}]> (tables w);
     title_ids_cache := None;
     trace := trace w ++ [EvExtract path; EvDropCreate "movies";
                          EvInsert "movies" (size movies);
                          EvAddIndex "movies" "title"; EvValidate "movies";
                          EvCacheClear] |}.

Lemma body_run (path : string) (e : env) (w : world) :
  body path e w =
  match files w !! path with
  | Some (Whole rows) =>
      match _extract_movies_loop rows ∅ with
      | Ok movies =>
          match rebuild "movies" movies_columns MoviesTable_insert_ddl "title"
                  (asdict <$> (map_to_list movies).*2) (size movies) e
                  (add_trace [EvExtract path] w) with
          | (Ok _, w') => title_ids_cache_clear e w'
          | (Raise x, w') => (Raise x, w')
          end
      | Raise x => (Raise x, add_trace [EvExtract path] w)
      end
  | Some _ => (Raise ExtractionError, add_trace [EvExtract path] w)
  | None => (Raise OSError, add_trace [EvExtract path] w)
  end.
Proof.
  unfold body, _extract_movies. rewrite bind_assoc, bind_run, extract_run.
  destruct (files w !! path) as [[rows| |]|]; [|done..].
  rewrite bind_run. unfold lift at 1.
  destruct (_extract_movies_loop rows ∅) as [movies|]; [|done].
  unfold MoviesTable_insert, rebuild, MoviesTable_drop_and_create,
    MoviesTable_ddl, movies_columns, TABLE_NAME.
  rewrite !bind_run.
  destruct (_drop_and_create _ _ e _) as [[[]|x] w1]; [|done].
  rewrite !bind_run.
  destruct (_insert _ _ _ e w1) as [[[]|?] w2]; [|done].
  rewrite !bind_run.
  destruct (_add_index _ _ e w2) as [[[]|?] w3]; [|done].
  by destruct (_validate _ _ e w3) as [[[]|?] w4].
Qed.

Lemma body_Ok (path : string) (e : env) (w wb : world) :
  body path e w = (Ok (), wb) ↔
  ∃ rows movies,
    files w !! path = Some (Whole rows)
    ∧ _extract_movies_loop rows ∅ = Ok movies
    ∧ no_fault e "movies"
    ∧ wb = loaded path movies w.
Proof.
  rewrite body_run.
  destruct (files w !! path) as [[rows| |]|];
    [|split; [done | by intros (? & ? & [=] & _)]..].
  destruct (_extract_movies_loop rows ∅) as [movies|x] eqn:Hloop;
    [|split; [done | intros (? & ? & [= <-] & ? & _); congruence]].
  assert (size movies = length (asdict <$> (map_to_list movies).*2)) as Hsize.
  { by rewrite !length_fmap, length_map_to_list. }
  rewrite Hsize.
  destruct (rebuild _ _ _ _ _ _ e _) as [[[]|x] w'] eqn:Hre.
  - apply (rebuild_Ok "movies" movies_columns MoviesTable_insert_ddl "title"
             eq_refl eq_refl eq_refl _ _ e _ w' (movies_bind_rows _)) in Hre
      as [Hno ->].
    assert (title_ids_cache_clear e
              (rebuilt "movies" movies_columns "title"
                 (movie_row <$> (map_to_list movies).*2)
                 (add_trace [EvExtract path] w))
            = (Ok (), loaded path movies w)) as ->.
    { unfold title_ids_cache_clear, loaded, rebuilt, add_trace. run.
      rewrite <- !app_assoc. simpl.
      by rewrite !length_fmap, length_map_to_list. }
    split.
    + intros [= <-]. by exists rows, movies.
    + intros (rows' & movies' & Hr & Hl & _ & ->).
      assert (rows' = rows) as -> by congruence.
      assert (movies' = movies) as -> by congruence. done.
  - split; [done|]. intros (rows' & movies' & Hr & Hl & Hno & _).
    assert (rows' = rows) as -> by congruence.
    assert (movies' = movies) as -> by congruence.
    assert (rebuild "movies" movies_columns MoviesTable_insert_ddl "title"
              (asdict <$> (map_to_list movies).*2)
              (length (asdict <$> (map_to_list movies).*2)) e
              (add_trace [EvExtract path] w)
            = (Ok (), rebuilt "movies" movies_columns "title"
                        (movie_row <$> (map_to_list movies).*2)
                        (add_trace [EvExtract path] w))) as Hok.
    { apply (rebuild_Ok "movies" movies_columns MoviesTable_insert_ddl "title"
               eq_refl eq_refl eq_refl _ _ e _ _ (movies_bind_rows _)). done. }
    congruence.
Qed.

Lemma body_keeps_files (path : string) : keeps_files (body path).
Proof.
  intros e w w' (rows & movies & _ & _ & _ & ->)%body_Ok. done.
Qed.





(** A Movie refresh that returned either found the marker and changed
    nothing but the local files, or ran its body once on the fetched
    file. *)
Lemma update_Ok (e : env) (w w1 : world) :
  update e w = (Ok (), w1) →
  ∃ date wd,
    last_modified e (Fetcher.IMDB_BASE +:+ FILE_NAME) = Ok date
    ∧ Fetcher.download_imdb_file FILE_NAME (DB_DIR e) e w
      = (Ok (Fetcher.cache_path (DB_DIR e) date FILE_NAME), wd)
    ∧ (let p := Fetcher.cache_path (DB_DIR e) date FILE_NAME in
       (p ∈ markers w ∧ w1 = wd)
       ∨ ((p ∉ markers w) ∧ ∃ rows movies,
            files wd !! p = Some (Whole rows)
            ∧ _extract_movies_loop rows ∅ = Ok movies
            ∧ no_fault e "movies"
            ∧ w1 = add_trace [EvMarker p]
                     (set_markers ({[p]} ∪ markers wd) (loaded p movies wd)))).
Proof.
  rewrite update_refresh. intros Hrun.
  destruct (refresh_Ok _ _ _ _ _ Hrun) as (date & wd & Hdate & Hdl & Hcase).
  exists date, wd. split; [done|]. split; [done|]. cbv zeta in *.
  destruct Hcase as [?|(Hout & wb & Hbody & ->)]; [by left|]. right.
  split; [done|].
  apply body_Ok in Hbody as (rows & movies & Hfile & Hloop & Hno & ->).
  by exists rows, movies.
Qed.

End MoviesUpdateProps.

(** ** The Person and AkaTitle refreshes *)

Module DependentsProps.
Import TableProps RefreshProps RegistryProps MoviesUpdateProps.

(** The row [INSERT INTO people] binds for a Person. *)
Definition person_row (p : People.Person) : gmap string value :=
  <["imdb_id" := VText (People.imdb_id p)]>
    (<["full_name" := VText (People.full_name p)]>
       (<["last_name" := of_optional (People.last_name p)]>
          (<["first_name" := of_optional (People.first_name p)]>
             (<["birth_year" := of_optional (People.birth_year p)]>
                (<["death_year" := of_optional (People.death_year p)]>
                   (<["primary_profession" := of_optional (People.primary_profession p)]>
                      (<["known_for_title_ids" :=
                           of_optional (People.known_for_title_ids p)]> ∅))))))).

Lemma people_bind_rows (l : list People.Person) :
  bind_rows People.PeopleTable_insert_ddl (People.asdict <$> l)
  = Ok (person_row <$> l).
Proof.
  induction l as [|p l IH]; [done|].
  rewrite fmap_cons. cbn [bind_rows]. rewrite IH. reflexivity.
Qed.

Definition people_columns : list column :=
  [ People.plain "imdb_id" "TEXT PRIMARY KEY NOT NULL";
    People.plain "full_name" "varchar(255) NOT NULL";
    People.plain "last_name" "varchar(255)";
    People.plain "first_name" "varchar(255)";
    People.plain "birth_year" "TEXT";
    People.plain "death_year" "TEXT";
    People.plain "primary_profession" "TEXT";
    People.plain "known_for_title_ids" "TEXT" ].

(** The body of the loop in [_people.update]. *)
Definition people_body (downloaded_file_path : string) : M unit :=
  people ← People._extract_people downloaded_file_path;
  _ ← People.PeopleTable_drop_and_create;
  People.PeopleTable_insert people.

Lemma people_update_refresh : People.update = refresh People.FILE_NAME people_body.
Proof. reflexivity. Qed.

Lemma extract_people_Ok (path : string) (e : env) (w w2 : world)
    (people : gmap string People.Person) :
  People._extract_people path e w = (Ok people, w2) →
  ∃ ids wt rows,
    Movies.title_ids e w = (Ok ids, wt)
    ∧ files w !! path = Some (Whole rows)
    ∧ People._extract_people_loop rows ids ∅ = Ok people
    ∧ w2 = add_trace [EvExtract path] wt.
Proof.
  unfold People._extract_people. rewrite bind_run.
  destruct (Movies.title_ids e w) as [[ids|x] wt] eqn:Hids; [|done].
  rewrite bind_run, extract_run, (title_ids_files _ _ _ _ Hids).
  destruct (files w !! path) as [[rows| |]|]; [|done..].
  unfold lift. intros [= Hloop <-]. by exists ids, wt, rows.
Qed.

Lemma people_body_Ok (path : string) (e : env) (w wb : world) :
  people_body path e w = (Ok (), wb) →
  ∃ ids wt rows people,
    Movies.title_ids e w = (Ok ids, wt)
    ∧ files w !! path = Some (Whole rows)
    ∧ People._extract_people_loop rows ids ∅ = Ok people
    ∧ wb = rebuilt "people" people_columns "full_name"
             (person_row <$> (map_to_list people).*2)
             (add_trace [EvExtract path] wt).
Proof.
  unfold people_body. rewrite bind_run.
  destruct (People._extract_people path e w) as [[people|x] w2] eqn:Hex; [|done].
  apply extract_people_Ok in Hex as (ids & wt & rows & Hids & Hfile & Hloop & ->).
  intros Hrun. exists ids, wt, rows, people. do 3 (split; [done|]).
  assert (size people = length (People.asdict <$> (map_to_list people).*2)) as Hsize.
  { by rewrite !length_fmap, length_map_to_list. }
  apply (rebuild_Ok "people" people_columns People.PeopleTable_insert_ddl "full_name"
           eq_refl eq_refl eq_refl _ _ e _ wb (people_bind_rows _)).
  rewrite <- Hsize, <- Hrun.
  unfold rebuild, People.PeopleTable_insert, People.PeopleTable_drop_and_create,
    People.PeopleTable_ddl, people_columns, People.TABLE_NAME.
  rewrite !bind_run.
  by destruct (_drop_and_create _ _ e _) as [[[]|?] w1].
Qed.

Lemma people_body_keeps_files (path : string) : keeps_files (people_body path).
Proof.
  intros e w w' (ids & wt & rows & people & Hids & _ & _ & ->)%people_body_Ok.
  simpl. by destruct (title_ids_Ok _ _ _ _ Hids) as [[_ ->]|(_ & _ & ->)].
Qed.

(** The row [INSERT INTO aka_titles] binds for an AkaTitle. *)
Definition aka_title_row (a : AkaTitles.AkaTitle) : gmap string value :=
  <["movie_imdb_id" := VText (AkaTitles.movie_imdb_id a)]>
    (<["sequence" := VInt (AkaTitles.sequence a)]>
       (<["title" := VText (AkaTitles.title a)]>
          (<["region" := of_optional (AkaTitles.region a)]>
             (<["language" := of_optional (AkaTitles.language a)]>
                (<["types" := of_optional (AkaTitles.types a)]>
                   (<["attributes" := of_optional (AkaTitles.attributes a)]>
                      (<["is_original_title" :=
                           of_optional (AkaTitles.is_original_title a)]> ∅))))))).

Lemma aka_titles_bind_rows (l : list AkaTitles.AkaTitle) :
  bind_rows (AkaTitles.AkaTitlesTable_insert_ddl "aka_titles") (AkaTitles.asdict <$> l)
  = Ok (aka_title_row <$> l).
Proof.
  induction l as [|a l IH]; [done|].
  rewrite fmap_cons. cbn [bind_rows]. rewrite IH. reflexivity.
Qed.

Definition aka_titles_columns : list column :=
  [ People.plain "id" "INTEGER PRIMARY KEY AUTOINCREMENT NOT NULL";
    {| col_name := "movie_imdb_id"; col_decl := "TEXT NOT NULL";
       col_references := Some ("movies", "imdb_id") |};
    People.plain "sequence" "INT NOT NULL";
    People.plain "title" "TEXT NOT NULL";
    People.plain "region" "TEXT";
    People.plain "language" "TEXT";
    People.plain "types" "TEXT";
    People.plain "attributes" "TEXT";
    People.plain "is_original_title" "BOOLEAN DEFAULT FALSE" ].

(** The body of the loop in [_aka_titles.update]. *)
Definition aka_titles_body (downloaded_file_path : string) : M unit :=
  aka_titles ← AkaTitles._extract_aka_titles downloaded_file_path;
  _ ← AkaTitles.AkaTitlesTable_drop_and_create;
  AkaTitles.AkaTitlesTable_insert aka_titles.

Lemma aka_titles_update_refresh :
  AkaTitles.update = refresh AkaTitles.FILE_NAME aka_titles_body.
Proof. reflexivity. Qed.

Lemma extract_aka_titles_Ok (path : string) (e : env) (w w2 : world)
    (aka_titles : list AkaTitles.AkaTitle) :
  AkaTitles._extract_aka_titles path e w = (Ok aka_titles, w2) →
  ∃ ids wt rows,
    Movies.title_ids e w = (Ok ids, wt)
    ∧ files w !! path = Some (Whole rows)
    ∧ AkaTitles._extract_aka_titles_loop rows ids [] = Ok aka_titles
    ∧ w2 = add_trace [EvExtract path] wt.
Proof.
  unfold AkaTitles._extract_aka_titles. rewrite bind_run.
  destruct (Movies.title_ids e w) as [[ids|x] wt] eqn:Hids; [|done].
  rewrite bind_run, extract_run, (title_ids_files _ _ _ _ Hids).
  destruct (files w !! path) as [[rows| |]|]; [|done..].
  unfold lift. intros [= Hloop <-]. by exists ids, wt, rows.
Qed.

Lemma aka_titles_body_Ok (path : string) (e : env) (w wb : world) :
  aka_titles_body path e w = (Ok (), wb) →
  ∃ ids wt rows aka_titles,
    Movies.title_ids e w = (Ok ids, wt)
    ∧ files w !! path = Some (Whole rows)
    ∧ AkaTitles._extract_aka_titles_loop rows ids [] = Ok aka_titles
    ∧ wb = rebuilt "aka_titles" aka_titles_columns "title"
             (aka_title_row <$> aka_titles)
             (add_trace [EvExtract path] wt).
Proof.
  unfold aka_titles_body. rewrite bind_run.
  destruct (AkaTitles._extract_aka_titles path e w) as [[aka_titles|x] w2] eqn:Hex;
    [|done].
  apply extract_aka_titles_Ok in Hex as (ids & wt & rows & Hids & Hfile & Hloop & ->).
  intros Hrun. exists ids, wt, rows, aka_titles. do 3 (split; [done|]).
  assert (length aka_titles = length (AkaTitles.asdict <$> aka_titles)) as Hsize.
  { by rewrite length_fmap. }
  apply (rebuild_Ok "aka_titles" aka_titles_columns
           (AkaTitles.AkaTitlesTable_insert_ddl "aka_titles") "title"
           eq_refl eq_refl eq_refl _ _ e _ wb (aka_titles_bind_rows _)).
  rewrite <- Hsize, <- Hrun.
  unfold rebuild, AkaTitles.AkaTitlesTable_insert,
    AkaTitles.AkaTitlesTable_drop_and_create, AkaTitles.AkaTitlesTable_ddl,
    aka_titles_columns, AkaTitles.TABLE_NAME.
  rewrite !bind_run.
  by destruct (_drop_and_create _ _ e _) as [[[]|?] w1].
Qed.

Lemma aka_titles_body_keeps_files (path : string) : keeps_files (aka_titles_body path).
Proof.
  intros e w w' (ids & wt & rows & akas & Hids & _ & _ & ->)%aka_titles_body_Ok.
  simpl. by destruct (title_ids_Ok _ _ _ _ Hids) as [[_ ->]|(_ & _ & ->)].
Qed.

End DependentsProps.

(** ** The pipeline: registry and checkpoints *)

Module PipelineProps.
Import TableProps FetcherProps RefreshProps RegistryProps MoviesUpdateProps
  DependentsProps.


(** *** Steps that leave the registry alone *)





















(** The decompression-and-parse passes a trace records. *)
Fixpoint passes (t : list event) : nat :=
  match t with
  | [] => 0
  | EvExtract _ :: t' => S (passes t')
  | _ :: t' => passes t'
  end.

Lemma passes_app (t1 t2 : list event) :
  passes (t1 ++ t2) = (passes t1 + passes t2)%nat.
Proof.
  induction t1 as [|ev t1 IH]; [done|]. simpl. rewrite IH. by destruct ev.
Qed.

(** The checkpoint marker of the generation the server announces is not
    there yet. *)
Definition not_loaded (name : string) (e : env) (w : world) : Prop :=
  ∀ date, last_modified e (Fetcher.IMDB_BASE +:+ name) = Ok date →
          Fetcher.cache_path (DB_DIR e) date name ∉ markers w.

Lemma download_passes (name root : string) (e : env) (w w1 : world)
    (r : result string) :
  Fetcher.download_imdb_file name root e w = (r, w1) →
  passes (trace w1) = passes (trace w).
Proof.
  intros (_ & _ & _ & _ & [->|(url & dest & ->)])%download_frame; [done|].
  rewrite passes_app. simpl. lia.
Qed.

Lemma title_ids_passes (e : env) (w w1 : world) (ids : gset string) :
  Movies.title_ids e w = (Ok ids, w1) → passes (trace w1) = passes (trace w).
Proof.
  intros [[_ ->]|(_ & _ & ->)]%title_ids_Ok; [done|].
  simpl. rewrite passes_app. simpl. lia.
Qed.

Lemma body_reads_file : reads_file body.
Proof. intros p e w w' (rows & movies & Hfile & _)%body_Ok. eauto. Qed.

Lemma people_body_reads_file : reads_file people_body.
Proof.
  intros p e w w' (ids & wt & rows & people & _ & Hfile & _)%people_body_Ok. eauto.
Qed.

Lemma aka_titles_body_reads_file : reads_file aka_titles_body.
Proof.
  intros p e w w' (ids & wt & rows & akas & _ & Hfile & _)%aka_titles_body_Ok.
  eauto.
Qed.

(** C6.  When an entity's refresh has returned on a machine where the
    marker of the announced generation was absent, it has made exactly
    one decompression-and-parse pass, over the file its fetch returned,
    and the entity's table holds the rows of the entities that pass
    accepted (for a Person or an AkaTitle: accepted against the set that
    [title_ids] returned to this run), as many rows as entities.  A
    second refresh of the same generation, whatever the server and the
    database would do, returns without touching anything: its body is
    skipped, there is no further pass, and the table and its row count
    stay those of the one pass. *)
Theorem refresh_twice_one_pass (e e2 : env) (w w1 : world) :
  DB_DIR e2 = DB_DIR e →
  (∀ url, last_modified e2 url = last_modified e url) →
  (Movies.update e w = (Ok (), w1) → not_loaded Movies.FILE_NAME e w →
     ∃ date wd rows (movies : gmap string Movies.Movie),
       let p := Fetcher.cache_path (DB_DIR e) date Movies.FILE_NAME in
       last_modified e (Fetcher.IMDB_BASE +:+ Movies.FILE_NAME) = Ok date
       ∧ Fetcher.download_imdb_file Movies.FILE_NAME (DB_DIR e) e w = (Ok p, wd)
       ∧ files wd !! p = Some (Whole rows)
       ∧ Movies._extract_movies_loop rows ∅ = Ok movies
       ∧ passes (trace w1) = S (passes (trace w))
       ∧ tables w1 !! "movies"
         = Some {| t_columns := movies_columns;
                   t_rows := movie_row <$> (map_to_list movies).*2;
                   t_indexes := ["title"] |}
       ∧ row_count "movies" w1 = size movies
       ∧ Movies.update e2 w1 = (Ok (), w1))
  ∧ (People.update e w = (Ok (), w1) → not_loaded People.FILE_NAME e w →
     ∃ date wd ids wt rows (people : gmap string People.Person),
       let p := Fetcher.cache_path (DB_DIR e) date People.FILE_NAME in
       last_modified e (Fetcher.IMDB_BASE +:+ People.FILE_NAME) = Ok date
       ∧ Fetcher.download_imdb_file People.FILE_NAME (DB_DIR e) e w = (Ok p, wd)
       ∧ Movies.title_ids e wd = (Ok ids, wt)
       ∧ files wd !! p = Some (Whole rows)
       ∧ People._extract_people_loop rows ids ∅ = Ok people
       ∧ passes (trace w1) = S (passes (trace w))
       ∧ tables w1 !! "people"
         = Some {| t_columns := people_columns;
                   t_rows := person_row <$> (map_to_list people).*2;
                   t_indexes := ["full_name"] |}
       ∧ row_count "people" w1 = size people
       ∧ People.update e2 w1 = (Ok (), w1))
  ∧ (AkaTitles.update e w = (Ok (), w1) → not_loaded AkaTitles.FILE_NAME e w →
     ∃ date wd ids wt rows aka_titles,
       let p := Fetcher.cache_path (DB_DIR e) date AkaTitles.FILE_NAME in
       last_modified e (Fetcher.IMDB_BASE +:+ AkaTitles.FILE_NAME) = Ok date
       ∧ Fetcher.download_imdb_file AkaTitles.FILE_NAME (DB_DIR e) e w = (Ok p, wd)
       ∧ Movies.title_ids e wd = (Ok ids, wt)
       ∧ files wd !! p = Some (Whole rows)
       ∧ AkaTitles._extract_aka_titles_loop rows ids [] = Ok aka_titles
       ∧ passes (trace w1) = S (passes (trace w))
       ∧ tables w1 !! "aka_titles"
         = Some {| t_columns := aka_titles_columns;
                   t_rows := aka_title_row <$> aka_titles;
                   t_indexes := ["title"] |}
       ∧ row_count "aka_titles" w1 = length aka_titles
       ∧ AkaTitles.update e2 w1 = (Ok (), w1)).
Proof.
  intros Hdir Hsame. split; [|split].
  - intros Hrun Hnot.
    pose proof (refresh_again _ _ body _ e2 _ _ body_keeps_files body_reads_file
                  Hrun Hnot Hdir (Hsame _)) as Hagain.
    destruct (update_Ok _ _ _ Hrun) as (date & wd & Hdate & Hdl & Hcase).
    cbv zeta in Hcase.
    destruct Hcase as [[Hin _]|(_ & rows & movies & Hfile & Hloop & _ & ->)].
    { by destruct (Hnot date Hdate). }
    exists date, wd, rows, movies. cbv zeta.
    split; [done|]. split; [done|]. split; [done|]. split; [done|].
    split; [|split; [|split; [|done]]].
    + simpl. rewrite !passes_app, (download_passes _ _ _ _ _ _ Hdl). simpl. lia.
    + simpl. by rewrite lookup_insert_eq.
    + unfold row_count. simpl. rewrite lookup_insert_eq. simpl.
      by rewrite !length_fmap, length_map_to_list.
  - intros Hrun Hnot.
    pose proof (refresh_again _ _ people_body _ e2 _ _ people_body_keeps_files
                  people_body_reads_file Hrun Hnot Hdir (Hsame _)) as Hagain.
    rewrite people_update_refresh in Hrun.
    destruct (refresh_Ok _ _ _ _ _ Hrun) as (date & wd & Hdate & Hdl & Hcase).
    cbv zeta in Hcase.
    destruct Hcase as [[Hin _]|(_ & wb & Hbody & ->)].
    { by destruct (Hnot date Hdate). }
    apply people_body_Ok in Hbody
      as (ids & wt & rows & people & Hids & Hfile & Hloop & ->).
    exists date, wd, ids, wt, rows, people. cbv zeta.
    do 5 (split; [done|]). split; [|split; [|split; [|done]]].
    + simpl. rewrite !passes_app, (title_ids_passes _ _ _ _ Hids),
        (download_passes _ _ _ _ _ _ Hdl). simpl. lia.
    + simpl. by rewrite lookup_insert_eq.
    + unfold row_count. simpl. rewrite lookup_insert_eq. simpl.
      by rewrite !length_fmap, length_map_to_list.
  - intros Hrun Hnot.
    pose proof (refresh_again _ _ aka_titles_body _ e2 _ _
                  aka_titles_body_keeps_files aka_titles_body_reads_file
                  Hrun Hnot Hdir (Hsame _)) as Hagain.
    rewrite aka_titles_update_refresh in Hrun.
    destruct (refresh_Ok _ _ _ _ _ Hrun) as (date & wd & Hdate & Hdl & Hcase).
    cbv zeta in Hcase.
    destruct Hcase as [[Hin _]|(_ & wb & Hbody & ->)].
    { by destruct (Hnot date Hdate). }
    apply aka_titles_body_Ok in Hbody
      as (ids & wt & rows & aka_titles & Hids & Hfile & Hloop & ->).
    exists date, wd, ids, wt, rows, aka_titles. cbv zeta.
    do 5 (split; [done|]). split; [|split; [|split; [|done]]].
    + simpl. rewrite !passes_app, (title_ids_passes _ _ _ _ Hids),
        (download_passes _ _ _ _ _ _ Hdl). simpl. lia.
    + simpl. by rewrite lookup_insert_eq.
    + unfold row_count. simpl. rewrite lookup_insert_eq. simpl.
      by rewrite length_fmap.
Qed.

(** Two Movie refreshes on a fresh machine; the second one finds the
    server refusing every transfer. *)
Lemma refresh_twice_one_pass_witness :
  ∃ w1,
    Movies.update Fixtures.env0 Fixtures.fresh = (Ok (), w1)
    ∧ passes (trace w1) = 1%nat
    ∧ row_count "movies" w1 = 1%nat
    ∧ Movies.update Fixtures.env_down w1 = (Ok (), w1).
Proof.
  destruct (Movies.update Fixtures.env0 Fixtures.fresh) as [r w1] eqn:Hrun.
  assert (r = Ok () ∧ passes (trace w1) = 1%nat ∧ row_count "movies" w1 = 1%nat)
    as (-> & Hpasses & Hcount).
  { pose proof Hrun as H0. vm_compute in H0. injection H0 as <- <-.
    repeat split; vm_compute; reflexivity. }
  exists w1. split; [reflexivity|]. split; [exact Hpasses|]. split; [exact Hcount|].
  destruct (refresh_twice_one_pass Fixtures.env0 Fixtures.env_down Fixtures.fresh w1
              eq_refl (λ _, eq_refl))
    as (Hmovies & _).
  destruct Hmovies as (date & wd & rows & movies & H);
    [exact Hrun | intros date _; apply not_elem_of_empty |].
  apply H.
Defined.

End PipelineProps.

(** ** Viewing records and the viewings table *)

Module ViewingsProps.
Import Viewings TableProps.

Lemma write_yaml_Ok (path : string) (mapping : gmap string scalar)
    (e : env) (w w1 : world) :
  write_yaml path mapping e w = (Ok (), w1) →
  w1 = set_files (<[path := Document mapping]> (files w)) w.
Proof.
  unfold write_yaml. run. destruct (_ && _); [|done]. by intros [= <-].
Qed.

Lemma save_Ok (slugify : string → string) (v v1 : Viewing) (e : env)
    (w w1 : world) (p : string) :
  save slugify v e w = (Ok (p, v1), w1) →
  files w1 !! p = Some (Document (to_yaml v)) ∧ v1 = with_file_path v p.
Proof.
  unfold save. rewrite bind_run.
  destruct (_ e w) as [[p0|x] w0]; [|done].
  rewrite bind_run.
  destruct (write_yaml p0 (to_yaml v) e w0) as [[[]|x] w2] eqn:Hwrite; [|done].
  intros [= <- <- <-]. apply write_yaml_Ok in Hwrite as ->. simpl.
  by rewrite lookup_insert_eq.
Qed.

(** Loading what [to_yaml] wrote stops at the third key. *)
Lemma load_saved (v : Viewing) (p : string) (e : env) (w : world) :
  files w !! p = Some (Document (to_yaml v)) →
  load p e w = (Raise (KeyError "year"), w).
Proof.
  intros Hfile. unfold load, read_yaml. run. rewrite Hfile. reflexivity.
Qed.

(** C10.  The mapping [save] writes has exactly the keys sequence, date,
    imdb_id, title and venue; its title is the title followed by the year
    in parentheses; there is no year key.  Whenever [save] returns, the
    file at the path it returns holds that mapping, and [load] of that
    path raises the missing-key error for ['year']. *)
Theorem save_then_load_fails (slugify : string → string) (v : Viewing) :
  dom (to_yaml v) = ({[ "sequence"; "date"; "imdb_id"; "title"; "venue" ]} : gset string)
  ∧ to_yaml v !! "title"
    = Some (SStr (title v +:+ " (" +:+ pretty (year v) +:+ ")"))
  ∧ to_yaml v !! "year" = None
  ∧ ∀ e w w1 p v1,
      save slugify v e w = (Ok (p, v1), w1) →
      files w1 !! p = Some (Document (to_yaml v))
      ∧ load p e w1 = (Raise (KeyError "year"), w1).
Proof.
  split; [|split; [reflexivity|split; [reflexivity|]]].
  - unfold to_yaml. rewrite !dom_insert_L, dom_singleton_L. set_solver.
  - intros e w w1 p v1 [Hfile _]%save_Ok. split; [done|]. by apply (load_saved v).
Qed.

(** A new record saved on a fresh machine, with the slug the real
    [slugify] gives for it. *)
Lemma save_then_load_fails_witness :
  ∃ w1,
    save (λ _, "0001-alpha-1999") Fixtures.viewing0 Fixtures.env0 Fixtures.fresh
    = (Ok ("viewings/0001-alpha-1999.yml",
           with_file_path Fixtures.viewing0 "viewings/0001-alpha-1999.yml"), w1)
    ∧ load "viewings/0001-alpha-1999.yml" Fixtures.env0 w1
      = (Raise (KeyError "year"), w1).
Proof.
  destruct (save (λ _, "0001-alpha-1999") Fixtures.viewing0 Fixtures.env0
              Fixtures.fresh) as [r w1] eqn:Hrun.
  assert (r = Ok ("viewings/0001-alpha-1999.yml",
                  with_file_path Fixtures.viewing0 "viewings/0001-alpha-1999.yml"))
    as ->.
  { pose proof Hrun as H0. vm_compute in H0. by injection H0 as <- _. }
  exists w1. split; [reflexivity|].
  destruct (save_then_load_fails (λ _, "0001-alpha-1999") Fixtures.viewing0)
    as (_ & _ & _ & Hsave).
  by destruct (Hsave _ _ _ _ _ Hrun) as [_ Hload].
Defined.

(** The statements [ViewingsTable.drop_and_create] runs never leave a
    table named viewings. *)
Lemma drop_and_create_no_viewings (e : env) (w w1 : world) (r : result unit) :
  ViewingsTable_drop_and_create e w = (r, w1) →
  (r = Ok () ∨ tables w !! "viewings" = None → tables w1 !! "viewings" = None)
  ∧ (r = Ok () →
     tables w !! "movies" = None
     ∧ tables w1 !! "movies"
       = Some (new_table
                 [ {| col_name := "id"; col_decl := "movie_imdb_id TEXT NOT NULL";
                      col_references := Some ("movies", "id") |};
                   People.plain "date" "DATE NOT NULL";
                   People.plain "sequence" "INT NOT NULL";
                   People.plain "venue" "TEXT NOT NULL" ])).
Proof.
  unfold ViewingsTable_drop_and_create, _drop_and_create. rewrite bind_run, check_fault_run.
  destruct (db_fault e TABLE_NAME StepDropCreate).
  { intros [= <- <-]. split; [by intros [?|?]|done]. }
  unfold ViewingsTable_ddl, exec_script, exec_statement, TABLE_NAME. run.
  rewrite lookup_delete_ne by done.
  destruct (tables w !! "movies") as [t|] eqn:Hmovies; simpl.
  - intros [= <- <-]. simpl. split; [|done]. intros _. apply lookup_delete_eq.
  - intros [= <- <-]. simpl. split.
    + intros _. rewrite lookup_insert_ne by done. apply lookup_delete_eq.
    + intros _. split; [done|]. by rewrite lookup_insert_eq.
Qed.

Lemma load_frame (path : string) (e : env) (w w1 : world) (r : result Viewing) :
  load path e w = (r, w1) → w1 = w.
Proof.
  unfold load, read_yaml. run.
  destruct (files w !! path) as [[| |d]|]; simpl; by intros [= _ <-].
Qed.

Lemma load_all_frame (paths : list string) (acc : list Viewing) (e : env)
    (w w1 : world) (r : result (list Viewing)) :
  load_all paths acc e w = (r, w1) → w1 = w.
Proof.
  revert acc. induction paths as [|p paths IH]; intros acc; simpl.
  - by intros [= _ <-].
  - rewrite bind_run. destruct (load p e w) as [[v|x] w0] eqn:Hload.
    + apply load_frame in Hload as ->. apply IH.
    + apply load_frame in Hload as ->. by intros [= _ <-].
Qed.

Lemma load_viewings_frame (e : env) (w w1 : world) (r : result (list Viewing)) :
  _load_viewings e w = (r, w1) → w1 = w.
Proof. unfold _load_viewings, glob_yml. run. apply load_all_frame. Qed.

Lemma insert_no_viewings (viewings : list Viewing) (e : env) (w : world) :
  tables w !! "viewings" = None →
  ∃ x, ViewingsTable_insert viewings e w = (Raise x, w).
Proof.
  intros Hnone. unfold ViewingsTable_insert, _insert. rewrite !bind_run, check_fault_run.
  destruct (db_fault e TABLE_NAME StepInsert); [eauto|].
  run. rewrite Hnone. eauto.
Qed.

(** C9, on the code.  The viewings rebuild never returns: its DDL drops
    the table named viewings and then creates a table named movies, whose
    first column references movies(id); the insert into viewings that
    follows finds no such table.  No run leaves a viewings table. *)
Theorem viewings_rebuild_never_returns (e : env) (w : world) :
  ∃ x w1, update e w = (Raise x, w1)
          ∧ (tables w !! "viewings" = None → tables w1 !! "viewings" = None).
Proof.
  unfold update. rewrite bind_run.
  destruct (_load_viewings e w) as [[viewings|x] w0] eqn:Hload;
    apply load_viewings_frame in Hload as ->; [|by exists x, w].
  rewrite bind_run.
  destruct (ViewingsTable_drop_and_create e w) as [[[]|x] w1] eqn:Hddl;
    apply drop_and_create_no_viewings in Hddl as [Hnone _].
  - destruct (insert_no_viewings viewings e w1) as [x Hins]; [by apply Hnone; left|].
    exists x, w1. split; [done|]. intros _. apply Hnone. by left.
  - exists x, w1. split; [done|]. intros H. apply Hnone. by right.
Qed.

(** On an empty database the rebuild leaves a table named movies with the
    columns id, date, sequence and venue, and no table named viewings. *)
Lemma viewings_rebuild_on_empty_database :
  ∃ x w1 t,
    update Fixtures.env0 Fixtures.fresh = (Raise x, w1)
    ∧ x = OperationalError "no such table"
    ∧ tables w1 !! "viewings" = None
    ∧ tables w1 !! "movies" = Some t
    ∧ col_name <$> t_columns t = ["id"; "date"; "sequence"; "venue"]
    ∧ col_references <$> t_columns t = [Some ("movies", "id"); None; None; None].
Proof.
  eexists _, _, _. split; [vm_compute; reflexivity|].
  repeat split; vm_compute; reflexivity.
Qed.

End ViewingsProps.

(** ** More on the Movie extractor: errors, duplicates, counts *)

Module MoreFixtures.

(** The first title row of [Fixtures], and a later row of the same
    identifier. *)
Definition feature : row :=
  [Some "tt0000001"; Some "movie"; Some "Alpha"; Some "Alpha"; Some "0";
   Some "1999"; None; Some "90"; Some "Drama,Comedy"].
Definition remake : row :=
  [Some "tt0000001"; Some "movie"; Some "Alpha Again"; Some "Alpha"; Some "0";
   Some "2009"; None; Some "95"; Some "Drama"].

End MoreFixtures.

Module MoviesEdges.
Import Movies DictLoop.

Lemma getitem_Raise {A} (l : list A) (i : nat) (x : exn) :
  getitem l i = Raise x ↔ x = IndexError ∧ (length l ≤ i)%nat.
Proof.
  unfold getitem. destruct (l !! i) as [a|] eqn:Hl.
  - apply lookup_lt_Some in Hl. split; [done|]. intros [_ ?]. lia.
  - apply lookup_ge_None in Hl. split; [by intros [= <-] | by intros [-> _]].
Qed.

(** X1.  [_title_is_valid] raises nothing but [IndexError], and exactly
    when the column it needs next is missing: the type column; for a
    feature, the adult column; for a feature not flagged adult, the year
    column; for one with a year, the genres column.  A row rejected by an
    earlier test is never read further. *)
Theorem title_is_valid_raises (title_line : row) (x : exn) :
  _title_is_valid title_line = Raise x ↔
    x = IndexError
    ∧ ((length title_line < 2)%nat
       ∨ (title_line !! 1%nat = Some (Some "movie")
          ∧ ((length title_line < 5)%nat
             ∨ ((∃ adult, title_line !! 4%nat = Some adult ∧ adult ≠ Some "1")
                ∧ ((length title_line < 6)%nat
                   ∨ ((∃ y, title_line !! 5%nat = Some (Some y))
                      ∧ (length title_line < 9)%nat)))))).
Proof.
  unfold _title_is_valid, getitem. run.
  destruct (title_line !! 1%nat) as [f1|] eqn:H1; simpl.
  2:{ apply lookup_ge_None in H1. split; [intros [= <-]; split; [done|left; lia]|].
      by intros [-> _]. }
  apply lookup_lt_Some in H1 as Hl1.
  case_bool_decide as Hmovie.
  { split; [done|]. intros (_ & [?|[? _]]); [lia | congruence]. }
  subst f1.
  destruct (title_line !! 4%nat) as [f4|] eqn:H4; simpl.
  2:{ apply lookup_ge_None in H4. split.
      - intros [= <-]. split; [done|]. right. split; [done|]. left. lia.
      - by intros [-> _]. }
  apply lookup_lt_Some in H4 as Hl4.
  case_bool_decide as Hadult.
  { split; [done|]. intros (_ & [?|(_ & [?|[(a & [= <-] & Ha) _]])]); [lia..|done]. }
  destruct (title_line !! 5%nat) as [f5|] eqn:H5; simpl.
  2:{ apply lookup_ge_None in H5. split.
      - intros [= <-]. split; [done|]. right. split; [done|]. right.
        split; [by exists f4|]. left. lia.
      - by intros [-> _]. }
  apply lookup_lt_Some in H5 as Hl5.
  case_bool_decide as Hyear.
  { split; [done|].
    intros (_ & [?|(_ & [?|(_ & [?|[(y & [= ->]) _]])])]); [lia..|done]. }
  destruct (title_line !! 8%nat) as [f8|] eqn:H8; simpl.
  2:{ apply lookup_ge_None in H8. split.
      - intros [= <-]. split; [done|]. right. split; [done|]. right.
        split; [by exists f4|]. right. split; [|lia].
        destruct f5 as [y|]; [by exists y | done].
      - by intros [-> _]. }
  apply lookup_lt_Some in H8 as Hl8.
  split.
  - by case_bool_decide.
  - intros (_ & [?|(_ & [?|(_ & [?|[_ ?]])])]); lia.
Qed.

Lemma accepted_is_wide (fields : row) :
  _title_is_valid fields = Ok true → (9 ≤ length fields)%nat.
Proof.
  intros (_ & _ & _ & (g & Hg & _))%MoviesProps.title_is_valid_iff.
  apply lookup_lt_Some in Hg. lia.
Qed.

Lemma title_is_valid_exn (title_line : row) (x : exn) :
  _title_is_valid title_line = Raise x → x = IndexError.
Proof.
  unfold _title_is_valid, getitem. run.
  destruct (title_line !! 1%nat); simpl; [|by intros [= <-]].
  case_bool_decide; [done|].
  destruct (title_line !! 4%nat); simpl; [|by intros [= <-]].
  case_bool_decide; [done|].
  destruct (title_line !! 5%nat); simpl; [|by intros [= <-]].
  case_bool_decide; [done|].
  destruct (title_line !! 8%nat); simpl; [|by intros [= <-]].
  by case_bool_decide.
Qed.

(** X2.  The loop of [_extract_movies] returns exactly when the validity
    test returns on every row: the constructor and the key never fail on
    a row the test accepted.  When the loop raises, it raises
    [IndexError]. *)
Theorem extract_movies_returns_iff (rows : list row) (acc : gmap string Movie) :
  ((∃ movies, _extract_movies_loop rows acc = Ok movies) ↔
     Forall (λ fields, ∃ b, _title_is_valid fields = Ok b) rows)
  ∧ ∀ x, _extract_movies_loop rows acc = Raise x → x = IndexError.
Proof.
  revert acc. induction rows as [|fields rest IH]; intros acc.
  - split; [|done]. split; [constructor | by exists acc].
  - rewrite MoviesProps.extract_movies_loop_cons.
    destruct (_title_is_valid fields) as [[]|y] eqn:Hv.
    + destruct (MoviesProps.Movie_init_total fields (accepted_is_wide _ Hv)) as [m ->].
      destruct (getitem_lt fields 0) as (f0 & -> & _).
      { pose proof (accepted_is_wide _ Hv). lia. }
      destruct (IH (<[str f0 := m]> acc)) as [Hiff Hexn]. split; [|done].
      rewrite Hiff, Forall_cons. split; [eauto | by intros [_ ?]].
    + destruct (IH acc) as [Hiff Hexn]. split; [|done].
      rewrite Hiff, Forall_cons. split; [eauto | by intros [_ ?]].
    + split.
      * split; [by intros [? ?]|]. intros [[b Hb] _]%Forall_cons. congruence.
      * intros x [= <-]. by apply title_is_valid_exn in Hv.
Qed.

Lemma extract_movies_loop_app (rows1 rows2 : list row) (acc : gmap string Movie) :
  _extract_movies_loop (rows1 ++ rows2) acc
  = match _extract_movies_loop rows1 acc with
    | Ok d => _extract_movies_loop rows2 d
    | Raise x => Raise x
    end.
Proof.
  revert acc. induction rows1 as [|fields rest IH]; intros acc; [done|].
  rewrite <- app_comm_cons, !MoviesProps.extract_movies_loop_cons.
  destruct (_title_is_valid fields) as [[]|]; [|by apply IH | done].
  destruct (Movie_init fields); [|done].
  destruct (getitem fields 0); [by apply IH | done].
Qed.

(** Keys of no accepted row keep what the dict held. *)
Lemma extract_movies_loop_other (rows : list row) (acc movies : gmap string Movie)
    (k : string) :
  _extract_movies_loop rows acc = Ok movies →
  Forall (λ g, _title_is_valid g = Ok true → key_of g ≠ k) rows →
  movies !! k = acc !! k.
Proof.
  revert acc. induction rows as [|fields rest IH]; intros acc.
  - by intros [= <-].
  - rewrite MoviesProps.extract_movies_loop_cons.
    intros Hrun [Hhead Hrest]%Forall_cons.
    destruct (_title_is_valid fields) as [[]|]; [| by apply IH | done].
    destruct (Movie_init fields) as [m|]; [|done].
    destruct (getitem fields 0) as [f0|] eqn:Hf0; [|done].
    rewrite (IH _ Hrun Hrest). apply lookup_insert_ne.
    rewrite <- (key_of_getitem _ _ Hf0). by apply Hhead.
Qed.

(** X3.  Of the accepted rows that share an identifier the last one wins:
    the mapping holds the entity of an accepted row when no accepted row
    after it has the same identifier. *)
Theorem extract_movies_last_wins (before after : list row) (fields : row)
    (m : Movie) (movies : gmap string Movie) :
  _extract_movies_loop (before ++ fields :: after) ∅ = Ok movies →
  _title_is_valid fields = Ok true →
  Movie_init fields = Ok m →
  Forall (λ g, _title_is_valid g = Ok true → key_of g ≠ key_of fields) after →
  movies !! key_of fields = Some m.
Proof.
  intros Hrun Hv Hm Hafter. rewrite extract_movies_loop_app in Hrun.
  destruct (_extract_movies_loop before ∅) as [d|]; [|done].
  rewrite MoviesProps.extract_movies_loop_cons, Hv, Hm in Hrun.
  destruct (getitem fields 0) as [f0|] eqn:Hf0; [|done].
  rewrite (extract_movies_loop_other _ _ _ _ Hrun Hafter).
  rewrite (key_of_getitem _ _ Hf0). apply lookup_insert_eq.
Qed.

(** Two accepted rows with the identifier of the first fixture row: the
    entity of the second is the one kept. *)
Lemma extract_movies_last_wins_witness :
  ∃ movies m,
    _extract_movies_loop [MoreFixtures.feature; MoreFixtures.remake] ∅ = Ok movies
    ∧ Movie_init MoreFixtures.remake = Ok m
    ∧ title m = "Alpha Again"
    ∧ movies !! "tt0000001" = Some m.
Proof.
  destruct (_extract_movies_loop [MoreFixtures.feature; MoreFixtures.remake] ∅)
    as [movies|x] eqn:Hrun; [|by vm_compute in Hrun].
  destruct (Movie_init MoreFixtures.remake) as [m|x] eqn:Hm; [|by vm_compute in Hm].
  exists movies, m. split; [done|]. split; [done|]. split.
  { vm_compute in Hm. by injection Hm as <-. }
  apply (extract_movies_last_wins [MoreFixtures.feature] [] MoreFixtures.remake m movies
           Hrun); [vm_compute; reflexivity | exact Hm | constructor].
Defined.

(** With distinct keys outside the dict, every accepted row adds one
    entry. *)
Lemma extract_movies_loop_size (rows : list row) (acc movies : gmap string Movie) :
  _extract_movies_loop rows acc = Ok movies →
  NoDup (key_of <$> rows) →
  Forall (λ g, acc !! key_of g = None) rows →
  size movies
  = (size acc + length (filter (λ g, _title_is_valid g = Ok true) rows))%nat.
Proof.
  revert acc. induction rows as [|fields rest IH]; intros acc.
  - intros [= <-] _ _. simpl. lia.
  - rewrite MoviesProps.extract_movies_loop_cons, fmap_cons.
    intros Hrun [Hnew Hnd]%NoDup_cons [Hhead Hrest]%Forall_cons.
    rewrite filter_cons.
    destruct (_title_is_valid fields) as [[]|] eqn:Hv; [| |done].
    + destruct (Movie_init fields) as [m|]; [|done].
      destruct (getitem fields 0) as [f0|] eqn:Hf0; [|done].
      rewrite decide_True by done.
      rewrite <- (key_of_getitem _ _ Hf0) in Hrun.
      rewrite (IH _ Hrun Hnd).
      * rewrite map_size_insert_None by done. simpl. lia.
      * apply Forall_forall. intros g Hg.
        rewrite lookup_insert_ne; [by apply (proj1 (Forall_forall _ _) Hrest)|].
        intros Heq. apply Hnew. rewrite Heq. by apply list_elem_of_fmap_2.
    + rewrite decide_False by done. by apply IH.
Qed.

(** X4.  When the identifiers of the snapshot rows are distinct, the
    mapping [_extract_movies] builds has one entry per accepted row. *)
Theorem extract_movies_count (rows : list row) (movies : gmap string Movie) :
  _extract_movies_loop rows ∅ = Ok movies →
  NoDup (key_of <$> rows) →
  size movies = length (filter (λ g, _title_is_valid g = Ok true) rows).
Proof.
  intros Hrun Hnd.
  rewrite (extract_movies_loop_size rows ∅ movies Hrun Hnd).
  - by rewrite map_size_empty.
  - apply Forall_forall. intros g _. apply lookup_empty.
Qed.

(** The title rows of [Fixtures]: five distinct identifiers, one accepted
    row. *)
Lemma extract_movies_count_witness :
  ∃ movies,
    _extract_movies_loop Fixtures.basics_rows ∅ = Ok movies
    ∧ NoDup (key_of <$> Fixtures.basics_rows)
    ∧ size movies = 1%nat.
Proof.
  destruct (_extract_movies_loop Fixtures.basics_rows ∅) as [movies|x] eqn:Hrun;
    [|by vm_compute in Hrun].
  assert (NoDup (key_of <$> Fixtures.basics_rows)) as Hnd.
  { apply (bool_decide_unpack _). vm_compute. exact I. }
  exists movies. split; [done|]. split; [exact Hnd|].
  by rewrite (extract_movies_count _ _ Hrun Hnd).
Defined.

End MoviesEdges.

(** ** More on the Person extractor *)

Module PeopleEdges.
Import People DictLoop Str Text PeopleProps MoviesProps.

(** X5.  Comma-separated fields are matched token by token.  For a field
    that is the comma join of tokens holding no comma, a person is accepted
    exactly when one of the tokens is an accepted Movie identifier, and a
    feature with a year is accepted exactly when none of the tokens is
    [Documentary]: part of a token never counts. *)
Theorem comma_fields_match_whole_tokens (tokens : list string) :
  tokens ≠ [] →
  Forall (λ t, no_comma t = true) tokens →
  (∀ valid : gset string,
     _has_valid_known_for_title_ids (Some (String.concat "," tokens)) valid = true
     ↔ ∃ id, id ∈ tokens ∧ id ∈ valid)
  ∧ (∀ (title_line : row) adult y,
       title_line !! 1%nat = Some (Some "movie") →
       title_line !! 4%nat = Some adult → adult ≠ Some "1" →
       title_line !! 5%nat = Some (Some y) →
       title_line !! 8%nat = Some (Some (String.concat "," tokens)) →
       Movies._title_is_valid title_line
       = Ok (bool_decide ("Documentary" ∉ tokens))).
Proof.
  intros Hne Hall. split.
  - intros valid. rewrite has_valid_known_for_iff. split.
    + intros (ids & id & [= <-] & Hid & Hv).
      rewrite split_concat in Hid by done. eauto.
    + intros (id & Hid & Hv). exists (String.concat "," tokens), id.
      by rewrite split_concat.
  - intros title_line adult y H1 H4 Ha H5 H8.
    apply (f_equal (fmap str)) in H8. simpl in H8.
    destruct (Movies._title_is_valid title_line) as [[]|x] eqn:Hvalid.
    + apply title_is_valid_iff in Hvalid as (_ & _ & _ & g & Hg & Hdoc).
      rewrite Hg in H8. injection H8 as H8. rewrite H8 in Hdoc.
      rewrite split_concat in Hdoc by done.
      by rewrite bool_decide_eq_true_2.
    + rewrite bool_decide_eq_false_2; [done|]. intros Hdoc.
      assert (Movies._title_is_valid title_line = Ok true) as Hc; [|congruence].
      apply title_is_valid_iff. split; [done|]. split; [by eauto|].
      split; [by eauto|]. destruct (title_line !! 8%nat) as [g|]; [|done].
      exists g. split; [done|]. injection H8 as ->.
      by rewrite split_concat.
    + destruct (title_line !! 8%nat) eqn:H8'; [|done].
      apply lookup_lt_Some in H8'.
      destruct (title_is_valid_total title_line) as [b Hb]; [lia|].
      congruence.
Qed.

Lemma comma_fields_match_whole_tokens_witness :
  _has_valid_known_for_title_ids (Some "tt0000002,tt0000001") {[ "tt0000001" ]} = true
  ∧ _has_valid_known_for_title_ids (Some "tt0000002,tt0000001") {[ "tt000000" ]} = false.
Proof.
  pose proof (comma_fields_match_whole_tokens ["tt0000002"; "tt0000001"]
                ltac:(done) ltac:(by repeat constructor)) as [H _].
  split.
  - apply (H {[ "tt0000001" ]}). exists "tt0000001". set_solver.
  - apply not_true_is_false. intros (id & Hid & Hv)%(H {[ "tt000000" ]}).
    apply elem_of_singleton in Hv as ->. set_solver.
Defined.

Lemma has_valid_known_for_mono (known : option string) (ids ids' : gset string) :
  ids ⊆ ids' →
  _has_valid_known_for_title_ids known ids = true →
  _has_valid_known_for_title_ids known ids' = true.
Proof. rewrite !has_valid_known_for_iff. set_solver. Qed.

Lemma extract_people_loop_dom (rows : list row) (ids ids' : gset string)
    (acc acc' people people' : gmap string Person) :
  ids ⊆ ids' →
  dom acc ⊆ dom acc' →
  _extract_people_loop rows ids acc = Ok people →
  _extract_people_loop rows ids' acc' = Ok people' →
  dom people ⊆ dom people'.
Proof.
  intros Hsub. revert acc acc'.
  induction rows as [|fields rest IH]; intros acc acc' Hacc.
  { simpl. by intros [= <-] [= <-]. }
  rewrite !extract_people_loop_cons. unfold accept.
  destruct (getitem fields 5) as [f5|]; [|done].
  unfold mbind, mret, result_bind, result_ret.
  destruct (_has_valid_known_for_title_ids f5 ids) eqn:Hv.
  - rewrite (has_valid_known_for_mono f5 ids ids') by done.
    destruct (Person_init fields) as [p|]; simpl; [|done].
    destruct (getitem fields 0) as [f0|]; simpl; [|done].
    apply IH. rewrite !dom_insert. set_solver.
  - destruct (_has_valid_known_for_title_ids f5 ids').
    + destruct (Person_init fields) as [p|]; simpl; [|done].
      destruct (getitem fields 0) as [f0|]; simpl; [|done].
      apply IH. rewrite dom_insert. set_solver.
    + by apply IH.
Qed.

(** X6.  Accepting more movies never drops a person: when the two runs
    over the same rows return, every identifier kept under the smaller set
    of Movie identifiers is kept under the larger one. *)
Theorem more_movies_more_people (rows : list row) (ids ids' : gset string)
    (people people' : gmap string Person) :
  ids ⊆ ids' →
  _extract_people_loop rows ids ∅ = Ok people →
  _extract_people_loop rows ids' ∅ = Ok people' →
  dom people ⊆ dom people'.
Proof. intros ?. by apply extract_people_loop_dom. Qed.

Lemma more_movies_more_people_witness :
  ∃ people people' : gmap string Person,
    _extract_people_loop Fixtures.names_rows {[ "tt0000001" ]} ∅ = Ok people
    ∧ _extract_people_loop Fixtures.names_rows {[ "tt0000001"; "tt0000003" ]} ∅
      = Ok people'
    ∧ dom people ⊆ dom people'
    ∧ size people = 1%nat ∧ size people' = 2%nat.
Proof.
  destruct (_extract_people_loop Fixtures.names_rows {[ "tt0000001" ]} ∅)
    as [people|] eqn:H1; [|by vm_compute in H1].
  destruct (_extract_people_loop Fixtures.names_rows
              {[ "tt0000001"; "tt0000003" ]} ∅)
    as [people'|] eqn:H2; [|by vm_compute in H2].
  exists people, people'. split; [done|]. split; [done|]. split.
  - apply (more_movies_more_people Fixtures.names_rows
             {[ "tt0000001" ]} {[ "tt0000001"; "tt0000003" ]}); [|done..].
    set_solver.
  - vm_compute in H1, H2. injection H1 as <-. injection H2 as <-.
    by vm_compute.
Defined.

(** X7.  Extracting the people returns exactly when every row has at least
    six fields, whatever the names and whatever the Movie identifiers: the
    name pattern never fails, and a short row stops the run with an
    [IndexError] even when it would not be accepted. *)
Theorem extract_people_returns_iff (rows : list row) (ids : gset string)
    (acc : gmap string Person) :
  ((∃ people, _extract_people_loop rows ids acc = Ok people)
   ↔ Forall (λ fields, (6 ≤ length fields)%nat) rows)
  ∧ ∀ x, _extract_people_loop rows ids acc = Raise x → x = IndexError.
Proof.
  revert acc. induction rows as [|fields rest IH]; intros acc.
  { split; [|done]. split; [by constructor | by eexists]. }
  rewrite extract_people_loop_cons.
  destruct (decide (6 ≤ length fields)%nat) as [Hlen | Hlen].
  - destruct (accept_total ids fields Hlen) as [b ->].
    destruct (Person_init_total fields Hlen) as [p ->].
    assert (∃ f0, getitem fields 0 = Ok f0) as [f0 ->].
    { unfold getitem. destruct (fields !! 0%nat) eqn:H0; [by eexists|].
      apply lookup_ge_None in H0. lia. }
    rewrite Forall_cons.
    destruct b; [destruct (IH (<[str f0 := p]> acc)) as [IH1 IH2]
                |destruct (IH acc) as [IH1 IH2]];
      (split; [rewrite IH1; naive_solver | done]).
  - assert (accept ids fields = Raise IndexError) as ->.
    { unfold accept, getitem. rewrite (lookup_ge_None_2 fields 5) by lia.
      done. }
    split; [|by intros x [= <-]]. rewrite Forall_cons.
    split; [by intros [? ?] | naive_solver].
Qed.

Lemma all_chars_take_while (p : ascii → bool) (s : string) :
  all_chars p (take_while p s) = true.
Proof.
  induction s as [|a s IH]; [done|]. simpl.
  destruct (p a) eqn:Hp; [|done]. simpl. by rewrite Hp.
Qed.

(** X8.  The name parts lose nothing of the name.  Either the first name
    is the whole name and the last name is empty, or the name is the first
    name (free of whitespace), one whitespace character, the last name
    (free of line feeds) and at most one final line feed. *)
Theorem person_name_parts_reassemble (fields : row) (p : Person) :
  Person_init fields = Ok p →
  ∃ first last,
    first_name p = Some first ∧ last_name p = Some last
    ∧ ((first = full_name p ∧ last = "")
       ∨ ∃ a tail,
           isspace a = true ∧ (tail = "" ∨ tail = String "010" "")
           ∧ full_name p = first +:+ String a (last +:+ tail)
           ∧ all_chars Re.nonspace first = true
           ∧ all_chars Re.dot last = true).
Proof.
  intros (f1 & m0 & m3 & _ & Hm & _ & Hfull & _)%Person_init_names.
  rewrite name_match_spec in Hm. rewrite Hfull.
  destruct (drop_while Re.nonspace (str f1)) as [|a r] eqn:Hdrop.
  { injection Hm as _ <- <- _. eexists _, _. eauto. }
  destruct (Re.at_end (drop_while Re.dot r)) eqn:Hend.
  2: { injection Hm as _ <- <- _. eexists _, _. eauto. }
  injection Hm as _ <- <- _. eexists _, _. split; [done|]. split; [done|].
  right. exists a, (drop_while Re.dot r). split; [|split; [|split; [|split]]].
  - apply drop_while_head in Hdrop. unfold Re.nonspace in Hdrop.
    by apply negb_false_iff in Hdrop.
  - unfold Re.at_end in Hend.
    destruct (drop_while Re.dot r) as [|c t]; [by left|]. right.
    destruct c as [[] [] [] [] [] [] [] []]; try done; by destruct t.
  - rewrite (take_drop_while Re.dot r), <- Hdrop.
    by rewrite take_drop_while.
  - apply all_chars_take_while.
  - apply all_chars_take_while.
Qed.

Lemma person_name_parts_reassemble_witness :
  ∃ p first last,
    Person_init Fixtures.mary = Ok p
    ∧ first_name p = Some first ∧ last_name p = Some last
    ∧ ((first = full_name p ∧ last = "")
       ∨ ∃ a tail,
           isspace a = true ∧ (tail = "" ∨ tail = String "010" "")
           ∧ full_name p = first +:+ String a (last +:+ tail)
           ∧ all_chars Re.nonspace first = true
           ∧ all_chars Re.dot last = true).
Proof.
  destruct (Person_init Fixtures.mary) as [p|] eqn:Hp; [|by vm_compute in Hp].
  destruct (person_name_parts_reassemble Fixtures.mary p Hp)
    as (first & last & H).
  by exists p, first, last.
Defined.

End PeopleEdges.

(** ** More on the AkaTitle extractor *)

Module AkaTitlesEdges.
Import AkaTitles DictLoop Str Text AkaTitlesProps.

Lemma int_digits_Raise (s : string) (acc : Z) (b : bool) (x : exn) :
  int_digits s acc b = Raise x → x = ValueError.
Proof.
  revert acc b. induction s as [|c s IH]; intros acc b; simpl.
  - destruct b; [done | by intros [= <-]].
  - destruct (Ascii.eqb c "_").
    + destruct b; [apply IH | by intros [= <-]].
    + destruct (digit c); [apply IH | by intros [= <-]].
Qed.

Lemma int_literal_Raise (s : string) (x : exn) :
  int_literal s = Raise x → x = ValueError.
Proof.
  unfold int_literal. destruct (_ <? _)%N; [by intros [= <-]|].
  apply int_digits_Raise.
Qed.

(** [int] raises nothing but [ValueError]. *)
Lemma int_Raise (s : string) (x : exn) : int s = Raise x → x = ValueError.
Proof.
  unfold int.
  assert (∀ t, (n ← int_literal t; mret (- n)) = Raise x → x = ValueError)
    as Hneg.
  { intros t. destruct (int_literal t) eqn:Ht; [done|].
    intros [= <-]. by apply int_literal_Raise in Ht. }
  destruct (int_strip s) as [|c t]; [apply int_literal_Raise|].
  destruct c as [[] [] [] [] [] [] [] []];
    first [apply Hneg | apply int_literal_Raise].
Qed.

Lemma AkaTitle_init_cases (fields : row) :
  match AkaTitle_init fields with
  | Ok aka =>
      (8 ≤ length fields)%nat ∧ int (sequence_text fields) = Ok (sequence aka)
  | Raise x =>
      (x = IndexError ∧ (length fields < 8)%nat)
      ∨ (x = ValueError ∧ (2 ≤ length fields)%nat
         ∧ int (sequence_text fields) = Raise ValueError)
  end.
Proof.
  unfold AkaTitle_init, sequence_text, getitem.
  destruct (fields !! 0%nat) as [f0|] eqn:H0; simpl.
  2: { apply lookup_ge_None in H0. left. split; [done|lia]. }
  destruct (fields !! 1%nat) as [f1|] eqn:H1; simpl.
  2: { apply lookup_ge_None in H1. left. split; [done|lia]. }
  apply lookup_lt_Some in H1 as Hlen1.
  destruct (int (str f1)) as [n|x] eqn:Hint; simpl.
  2: { apply int_Raise in Hint as Hx. subst x. right. split; [done|].
       split; [lia | done]. }
  destruct (fields !! 2%nat) as [f2|] eqn:H2; simpl.
  2: { apply lookup_ge_None in H2. left. split; [done|lia]. }
  destruct (fields !! 3%nat) as [f3|] eqn:H3; simpl.
  2: { apply lookup_ge_None in H3. left. split; [done|lia]. }
  destruct (fields !! 4%nat) as [f4|] eqn:H4; simpl.
  2: { apply lookup_ge_None in H4. left. split; [done|lia]. }
  destruct (fields !! 5%nat) as [f5|] eqn:H5; simpl.
  2: { apply lookup_ge_None in H5. left. split; [done|lia]. }
  destruct (fields !! 6%nat) as [f6|] eqn:H6; simpl.
  2: { apply lookup_ge_None in H6. left. split; [done|lia]. }
  destruct (fields !! 7%nat) as [f7|] eqn:H7; simpl.
  2: { apply lookup_ge_None in H7. left. split; [done|lia]. }
  apply lookup_lt_Some in H7. split; [lia | done].
Qed.

Lemma extract_aka_titles_loop_cons (ids : gset string) (fields : row)
    (rest : list row) (acc : list AkaTitle) :
  _extract_aka_titles_loop (fields :: rest) ids acc =
  match fields with
  | [] => Raise IndexError
  | _ =>
      if accepts ids fields then
        match AkaTitle_init fields with
        | Ok aka => _extract_aka_titles_loop rest ids (acc ++ [aka])
        | Raise x => Raise x
        end
      else _extract_aka_titles_loop rest ids acc
  end.
Proof. destruct fields as [|f0 fields]; [done|]. unfold accepts. done. Qed.

(** X9.  Only accepted rows are parsed.  Extracting the alternative titles
    returns exactly when no row is empty and every accepted row has at
    least eight fields and a sequence field that [int] reads; a row for
    another title may be short or malformed.  The run raises nothing but
    [IndexError] and [ValueError]. *)
Theorem extract_aka_titles_returns_iff (rows : list row) (ids : gset string)
    (acc : list AkaTitle) :
  ((∃ aka_titles, _extract_aka_titles_loop rows ids acc = Ok aka_titles)
   ↔ Forall (λ fields,
        fields ≠ []
        ∧ (accepts ids fields = true →
           (8 ≤ length fields)%nat ∧ ∃ n, int (sequence_text fields) = Ok n))
       rows)
  ∧ ∀ x, _extract_aka_titles_loop rows ids acc = Raise x →
         x = IndexError ∨ x = ValueError.
Proof.
  revert acc. induction rows as [|fields rest IH]; intros acc.
  { split; [|done]. split; [by constructor | by eexists]. }
  rewrite extract_aka_titles_loop_cons, Forall_cons.
  destruct fields as [|f0 fields'] eqn:Hf.
  { split; [|by intros x [= <-]; left]. split; [by intros [? ?]|].
    by intros [[? _] _]. }
  rewrite <- Hf. assert (fields ≠ []) as Hne by by subst.
  clear Hf. destruct (accepts ids fields) eqn:Hacc.
  - pose proof (AkaTitle_init_cases fields) as Hinit.
    destruct (AkaTitle_init fields) as [aka|x].
    + destruct Hinit as [Hlen Hint].
      destruct (IH (acc ++ [aka])) as [IH1 IH2]. split; [|done].
      rewrite IH1. split; [|by intros [_ ?]].
      intros ?. split; [|done]. split; [done|]. intros _. eauto.
    + split.
      * split; [by intros [? ?]|]. intros [[_ Hok] _].
        destruct (Hok eq_refl) as [Hlen [n Hn]].
        destruct Hinit as [[_ ?]|(_ & _ & ?)]; [lia | congruence].
      * intros ? [= <-]. naive_solver.
  - destruct (IH acc) as [IH1 IH2]. split; [|done].
    rewrite IH1. split; [|by intros [_ ?]].
    intros ?. split; [|done]. split; [done|]. by intros [=].
Qed.

(** X10.  The sequence of an alternative title is the number its second
    field writes in decimal, as long as that number has no more than
    4300 digits: beyond that [int] refuses the text and the row raises
    [ValueError].  A row whose second field is null or empty cannot be
    built either and raises [ValueError]. *)
Theorem aka_title_sequence_is_read_as_decimal (fields : row)
    (f1 : option string) :
  fields !! 1%nat = Some f1 →
  (∀ n : Z, f1 = Some (pretty n) → (8 ≤ length fields)%nat →
     (Z.abs n < 10 ^ 4300 →
      ∃ aka, AkaTitle_init fields = Ok aka ∧ sequence aka = n)
     ∧ (10 ^ 4300 ≤ Z.abs n → AkaTitle_init fields = Raise ValueError))
  ∧ (f1 = None ∨ f1 = Some "" → AkaTitle_init fields = Raise ValueError).
Proof.
  intros H1. pose proof (AkaTitle_init_cases fields) as Hinit.
  unfold sequence_text in Hinit. rewrite H1 in Hinit. simpl in Hinit.
  apply lookup_lt_Some in H1 as Hlen.
  assert (int (str f1) = Raise ValueError →
          AkaTitle_init fields = Raise ValueError) as Hraise.
  { intros Hint. unfold AkaTitle_init, getitem in *.
    destruct (fields !! 0%nat) as [f0|] eqn:H0; simpl.
    2: { apply lookup_ge_None in H0. lia. }
    rewrite H1. simpl. by rewrite Hint. }
  split.
  - intros n -> Hwide. split.
    + intros Hsmall. simpl in Hinit. rewrite (int_pretty n Hsmall) in Hinit.
      destruct (AkaTitle_init fields) as [aka|x].
      * exists aka. destruct Hinit as [_ [= ->]]. done.
      * destruct Hinit as [[_ ?]|(_ & _ & ?)]; [lia | done].
    + intros Hlarge. apply Hraise. simpl. by apply int_pretty_large.
  - intros Hf1. apply Hraise. by destruct Hf1 as [-> | ->].
Qed.

Lemma aka_title_sequence_is_read_as_decimal_witness :
  ∃ aka,
    AkaTitle_init [Some "tt0000001"; Some "12"; Some "Alfa"; Some "ES"; None;
                   None; None; Some "0"] = Ok aka
    ∧ sequence aka = 12.
Proof.
  refine (proj1 (proj1 (aka_title_sequence_is_read_as_decimal
           [Some "tt0000001"; Some "12"; Some "Alfa"; Some "ES"; None;
            None; None; Some "0"] (Some "12") eq_refl) 12 eq_refl _) _).
  - simpl. lia.
  - vm_compute. reflexivity.
Defined.

End AkaTitlesEdges.

(** ** The cached registry of Movie identifiers *)

Module RegistryEdges.
Import Movies RegistryProps.

(** X11.  [title_ids] keeps its first answer.  After a call that returned,
    every later call returns the same set and changes nothing, whatever the
    movies table holds by then; a call that raised has cached nothing. *)
Theorem title_ids_keeps_its_first_answer (e : env) (w w1 : world)
    (r : result (gset string)) :
  title_ids e w = (r, w1) →
  match r with
  | Ok ids =>
      ∀ e' tables', title_ids e' (set_tables tables' w1)
                    = (Ok ids, set_tables tables' w1)
  | Raise _ => title_ids_cache w = None ∧ title_ids_cache w1 = None
  end.
Proof.
  intros Hrun. destruct r as [ids|x].
  - apply title_ids_Ok in Hrun as [[Hc ->] | (_ & _ & ->)];
      intros e' tables'; unfold title_ids; run; by rewrite ?Hc.
  - revert Hrun. unfold title_ids. run.
    destruct (title_ids_cache w) eqn:Hc; [done|].
    destruct (tables w !! "movies") as [t|]; simpl.
    + destruct (select_imdb_id t); simpl; [done|]. by intros [= _ <-].
    + by intros [= _ <-].
Qed.

Lemma title_ids_keeps_its_first_answer_witness :
  let w := {| dirs := ∅; files := ∅; markers := ∅;
              tables := {[ "movies" := new_table [People.plain "imdb_id" "TEXT"] ]};
              title_ids_cache := None; trace := [] |} in
  ∃ w1, title_ids Fixtures.env0 w = (Ok ∅, w1)
        ∧ title_ids Fixtures.env0 (set_tables ∅ w1) = (Ok ∅, set_tables ∅ w1).
Proof.
  intros w. destruct (title_ids Fixtures.env0 w) as [r w1] eqn:Hrun.
  assert (r = Ok ∅) as ->
    by (pose proof Hrun as H0; vm_compute in H0; by injection H0 as <- _).
  exists w1. split; [done|].
  apply (title_ids_keeps_its_first_answer Fixtures.env0 w w1 (Ok ∅) Hrun).
Defined.

End RegistryEdges.

(** ** The dated cache paths of the fetcher *)

Module FetcherEdges.
Import Fetcher Str Text FetcherProps.

(** X12.  Generations are kept apart: two downloads of the same relative
    file name under the same root whose probes report different dates
    return different paths, so a new snapshot is never written over an
    older one. *)
Theorem generations_are_kept_apart (name root : string) (e e' : env)
    (w w1 w' w1' : world) (p p' : string) (d d' : datetime) :
  startswith_sep name = false →
  last_modified e (IMDB_BASE +:+ name) = Ok d →
  last_modified e' (IMDB_BASE +:+ name) = Ok d' →
  d ≠ d' →
  download_imdb_file name root e w = (Ok p, w1) →
  download_imdb_file name root e' w' = (Ok p', w1') →
  p ≠ p'.
Proof.
  intros Hname Hd Hd' Hne
    (d0 & H0 & -> & _)%download_imdb_file_Ok
    (d1 & H1 & -> & _)%download_imdb_file_Ok.
  intros Heq%cache_path_inj; [|done]. congruence.
Qed.

Lemma generations_are_kept_apart_witness :
  let later := {| dt_year := 2020; dt_month := 1; dt_day := 12 |} in
  let e' := {| DB_DIR := "db"; last_modified := λ _, Ok later;
               curl_outcome := curl_outcome Fixtures.env0;
               curl_other := curl_other Fixtures.env0;
               db_fault := λ _ _, false |} in
  ∃ p p' w1 w1',
    download_imdb_file Movies.FILE_NAME "db" Fixtures.env0 Fixtures.fresh
    = (Ok p, w1)
    ∧ download_imdb_file Movies.FILE_NAME "db" e' w1 = (Ok p', w1')
    ∧ p ≠ p'.
Proof.
  intros later e'.
  destruct (download_imdb_file Movies.FILE_NAME "db" Fixtures.env0 Fixtures.fresh)
    as [r w1] eqn:H1.
  assert (∃ p, r = Ok p) as [p ->]
    by (pose proof H1 as H0; vm_compute in H0; injection H0 as <- _; eauto).
  destruct (download_imdb_file Movies.FILE_NAME "db" e' w1) as [r' w1'] eqn:H2.
  assert (∃ p', r' = Ok p') as [p' ->].
  { pose proof H1 as H0. vm_compute in H0. injection H0 as _ <-.
    pose proof H2 as H0. vm_compute in H0. injection H0 as <- _. eauto. }
  exists p, p', w1, w1'. split; [done|]. split; [done|].
  apply (generations_are_kept_apart Movies.FILE_NAME "db" Fixtures.env0 e'
           Fixtures.fresh w1 w1 w1' p p' Fixtures.date0 later);
    done.
Defined.

End FetcherEdges.

(** ** More on the viewings: saving twice, saving then rebuilding *)

Module ViewingsEdges.
Import Viewings Str Text TableProps FetcherProps ViewingsProps.

Lemma path_join_nonempty (a b : string) : a ≠ "" → Fetcher.path_join a b ≠ "".
Proof.
  intros Ha. unfold Fetcher.path_join.
  destruct (Fetcher.startswith_sep b) eqn:Hb; [by destruct b|].
  destruct (_ || _); by destruct a.
Qed.

(** What [save] does, step by step: it settles the path, which is never
    empty, touching directories only; then it writes the mapping there. *)
Lemma save_run (slugify : string → string) (v v1 : Viewing) (e : env)
    (w w1 : world) (p : string) :
  save slugify v e w = (Ok (p, v1), w1) →
  ∃ w0, files w0 = files w ∧ p ≠ ""
    ∧ write_yaml p (to_yaml v) e w0 = (Ok (), w1)
    ∧ v1 = with_file_path v p.
Proof.
  unfold save. rewrite bind_run.
  destruct (truthy (file_path v)) eqn:Htruthy.
  - run. destruct (write_yaml _ _ e w) as [[[]|x] w2] eqn:Hwrite; [|done].
    intros [= <- <- <-]. exists w. split; [done|]. split; [|done].
    by destruct (file_path v) as [[|??]|].
  - rewrite bind_run, FetcherProps.path_exists_run.
    match goal with |- context [if ?b then _ else _] => destruct b end.
    + run. destruct (write_yaml _ _ e w) as [[[]|x] w2] eqn:Hwrite; [|done].
      intros [= <- <- <-]. exists w. split; [done|]. split; [|done].
      by apply path_join_nonempty.
    + rewrite !bind_run. unfold Fetcher.makedirs.
      destruct (Fetcher.makedirs_from _ _ e w) as [[[]|x] w0] eqn:Hmk; [|done].
      apply makedirs_from_spec in Hmk as [(Hfiles & _) _].
      run. destruct (write_yaml _ _ e w0) as [[[]|x] w2] eqn:Hwrite; [|done].
      intros [= <- <- <-]. exists w0. split; [done|]. split; [|done].
      by apply path_join_nonempty.
Qed.

(** X13.  Saving is idempotent.  When [save] returns, saving the returned
    object again writes the same mapping to the same path: the world is
    left as the first save left it, and no directory is made. *)
Theorem save_again_changes_nothing (slugify slugify' : string → string)
    (v v1 : Viewing) (e e' : env) (w w1 : world) (p : string) :
  save slugify v e w = (Ok (p, v1), w1) →
  save slugify' v1 e' w1 = (Ok (p, v1), w1).
Proof.
  intros (w0 & Hfiles & Hp & Hwrite & ->)%save_run.
  assert (truthy (Some p) = true) as Htruthy by by destruct p.
  unfold save. rewrite bind_run.
  change (file_path (with_file_path v p)) with (Some p). rewrite Htruthy.
  change ((mret (str (Some p)) : M string) e' w1) with (Ok p, w1).
  cbv beta iota. rewrite bind_run.
  change (to_yaml (with_file_path v p)) with (to_yaml v).
  revert Hwrite. unfold write_yaml. run.
  destruct (_ && _) eqn:Hcond; [|done]. intros [= <-]. simpl.
  rewrite Hcond. unfold set_files. simpl. by rewrite insert_insert_eq.
Qed.

Lemma save_again_changes_nothing_witness :
  ∃ p v1 w1,
    save (λ _, "0001-alpha-1999") Fixtures.viewing0 Fixtures.env0 Fixtures.fresh
    = (Ok (p, v1), w1)
    ∧ save (λ _, "elsewhere") v1 Fixtures.env0 w1 = (Ok (p, v1), w1).
Proof.
  destruct (save (λ _, "0001-alpha-1999") Fixtures.viewing0 Fixtures.env0
              Fixtures.fresh) as [r w1] eqn:Hrun.
  assert (∃ p v1, r = Ok (p, v1)) as (p & v1 & ->)
    by (pose proof Hrun as H0; vm_compute in H0; injection H0 as <- _; eauto).
  exists p, v1, w1. split; [done|].
  apply (save_again_changes_nothing _ _ Fixtures.viewing0 v1 Fixtures.env0
           Fixtures.env0 Fixtures.fresh w1 p Hrun).
Defined.

Lemma load_all_stops (paths : list string) (acc : list Viewing) (p : string)
    (x : exn) (e : env) (w : world) :
  p ∈ paths → load p e w = (Raise x, w) →
  ∃ y, load_all paths acc e w = (Raise y, w).
Proof.
  intros Hin Hload. revert acc.
  induction paths as [|q paths IH]; intros acc; [by apply elem_of_nil in Hin|].
  cbn [load_all]. rewrite bind_run.
  destruct (load q e w) as [[v|y] w0] eqn:Hq;
    apply load_frame in Hq as Hw; subst w0; [|by eauto].
  apply elem_of_cons in Hin as [-> | Hin]; [congruence|]. by apply IH.
Qed.

Lemma glob_yml_run (e : env) (w : world) :
  glob_yml e w
  = (Ok (filter (λ p, matches_yml p = true)
           (elements (dom (files w) ∪ dirs w))), w).
Proof. reflexivity. Qed.

(** What the glob lists: the matching names of files and of
    directories. *)
Lemma elem_of_glob (w : world) (p : string) :
  p ∈ filter (λ p, matches_yml p = true) (elements (dom (files w) ∪ dirs w))
  ↔ matches_yml p = true ∧ (is_Some (files w !! p) ∨ p ∈ dirs w).
Proof.
  rewrite list_elem_of_filter, elem_of_elements, elem_of_union, elem_of_dom.
  done.
Qed.

(** Opening a directory, or a name that is not there, raises. *)
Lemma load_missing (q : string) (e : env) (w : world) :
  files w !! q = None → load q e w = (Raise OSError, w).
Proof. intros Hq. unfold load, read_yaml. run. by rewrite Hq. Qed.

(** The first entry decides how a load of saved mappings and directories
    ends. *)
Lemma load_all_first (paths : list string) (acc : list Viewing) (e : env)
    (w : world) :
  paths ≠ [] →
  Forall (λ q, (∃ v, files w !! q = Some (Document (to_yaml v)))
               ∨ (files w !! q = None ∧ q ∈ dirs w)) paths →
  load_all paths acc e w = (Raise (KeyError "year"), w)
  ∨ (load_all paths acc e w = (Raise OSError, w)
     ∧ ∃ q, q ∈ paths ∧ q ∈ dirs w).
Proof.
  intros Hne Hall. destruct Hall as [|q paths [[v Hq]|[Hq Hdir]] _]; [done| |].
  - left. cbn [load_all]. rewrite bind_run. by rewrite (load_saved v).
  - right. split.
    + cbn [load_all]. rewrite bind_run. by rewrite load_missing.
    + exists q. split; [apply elem_of_cons; by left | done].
Qed.

Lemma load_viewings_stops (e : env) (w : world) (p : string) (v : Viewing) :
  matches_yml p = true →
  files w !! p = Some (Document (to_yaml v)) →
  ∃ x, _load_viewings e w = (Raise x, w).
Proof.
  intros Hm Hfile. unfold _load_viewings. rewrite bind_run, glob_yml_run.
  apply (load_all_stops _ [] p (KeyError "year")).
  - apply elem_of_glob. eauto.
  - by apply (load_saved v).
Qed.

(** X14.  A rebuild of the viewings stops at a file that [save] wrote.
    When a file matching [viewings/*.yml] holds a mapping written by
    [to_yaml], [update] raises while loading and leaves the world, tables
    included, as it was.  When every matching file is such a mapping,
    the error is the missing-key error for ['year'], or the error of
    opening a directory, which happens only where a directory matches
    the pattern too; where none does, it is the missing-key error. *)
Theorem update_stops_at_a_saved_file (e : env) (w : world) (p : string)
    (v : Viewing) :
  matches_yml p = true →
  files w !! p = Some (Document (to_yaml v)) →
  (∃ x, update e w = (Raise x, w))
  ∧ ((∀ q f, matches_yml q = true → files w !! q = Some f →
        ∃ v', f = Document (to_yaml v')) →
     (update e w = (Raise (KeyError "year"), w)
      ∨ (update e w = (Raise OSError, w)
         ∧ ∃ q, matches_yml q = true ∧ q ∈ dirs w))
     ∧ ((∀ q, matches_yml q = true → q ∉ dirs w) →
        update e w = (Raise (KeyError "year"), w))).
Proof.
  intros Hm Hfile.
  set (paths := filter (λ p, matches_yml p = true)
                  (elements (dom (files w) ∪ dirs w))).
  assert (p ∈ paths) as Hin by (apply elem_of_glob; eauto).
  assert (paths ≠ []) as Hne
    by (intros Heq; rewrite Heq in Hin; by apply elem_of_nil in Hin).
  split.
  - destruct (load_viewings_stops e w p v Hm Hfile) as [x Hx].
    exists x. unfold update. by rewrite bind_run, Hx.
  - intros Hall.
    assert (Forall (λ q, (∃ v, files w !! q = Some (Document (to_yaml v)))
                         ∨ (files w !! q = None ∧ q ∈ dirs w)) paths) as Hpaths.
    { apply Forall_forall. intros q [Hq Hthere]%elem_of_glob.
      destruct (files w !! q) as [f|] eqn:Hf.
      - left. destruct (Hall q f Hq Hf) as [v' ->]. eauto.
      - right. split; [done|]. by destruct Hthere as [[? [=]]|]. }
    assert (update e w = match load_all paths [] e w with
                         | (Ok viewings, w') =>
                             (_ ← ViewingsTable_drop_and_create;
                              ViewingsTable_insert viewings) e w'
                         | (Raise x, w') => (Raise x, w')
                         end) as Hupdate.
    { unfold update, _load_viewings. by rewrite !bind_run, glob_yml_run. }
    destruct (load_all_first paths [] e w Hne Hpaths)
      as [Hkey | (Hos & q & [Hq _]%elem_of_glob & Hdir)].
    + rewrite Hupdate, Hkey. split; [by left | done].
    + rewrite Hupdate, Hos. split.
      * right. split; [done|]. eauto.
      * intros Hnone. by destruct (Hnone q Hq).
Qed.

Lemma update_stops_at_a_saved_file_witness :
  let w := {| dirs := {[ "viewings" ]};
              files := {[ "viewings/0001-alpha-1999.yml"
                          := Document (to_yaml Fixtures.viewing0) ]};
              markers := ∅; tables := ∅; title_ids_cache := None;
              trace := [] |} in
  ∃ x, update Fixtures.env0 w = (Raise x, w).
Proof.
  intros w.
  apply (update_stops_at_a_saved_file Fixtures.env0 w
           "viewings/0001-alpha-1999.yml" Fixtures.viewing0); reflexivity.
Defined.

(** A name that [glob('*.yml')] skips as hidden once [.yml] is added. *)
Definition hidden (slug : string) : bool :=
  match slug with
  | "" | String "." _ => true
  | _ => false
  end.

Lemma fresh_path (slug : string) :
  no_sep slug = true →
  Fetcher.path_join TABLE_NAME (slug +:+ ".yml")
  = "viewings/" +:+ slug +:+ ".yml"
  ∧ dirname ("viewings/" +:+ slug +:+ ".yml") = "viewings"
  ∧ matches_yml ("viewings/" +:+ slug +:+ ".yml") = negb (hidden slug).
Proof.
  intros Hslug.
  assert (no_sep (slug +:+ ".yml") = true) as Hname
    by by rewrite no_sep_app, Hslug.
  split; [|split].
  - unfold Fetcher.path_join.
    assert (Fetcher.startswith_sep (slug +:+ ".yml") = false) as ->.
    { destruct slug as [|c slug]; [done|]. rewrite app_cons. simpl in *.
      apply andb_true_iff in Hslug as [Hc _].
      by destruct c as [[] [] [] [] [] [] [] []]. }
    reflexivity.
  - unfold dirname, Fetcher.dirname.
    assert (Fetcher.head_of ("viewings/" +:+ slug +:+ ".yml") = "viewings/")
      as ->.
    { rewrite !app_cons, app_nil_l. cbn [Fetcher.head_of].
      rewrite (head_of_no_sep _ Hname). reflexivity. }
    reflexivity.
  - unfold matches_yml. rewrite !app_cons, app_nil_l. cbn [strip_prefix].
    simpl Ascii.eqb. cbv iota. rewrite Hname, Text.rev_app.
    replace (strip_prefix "lmy." (String.rev ".yml" +:+ String.rev slug))
      with (Some (String.rev slug)) by reflexivity.
    rewrite andb_true_r. cbn [andb].
    destruct slug as [|c slug]; [done|]. rewrite app_cons.
    by destruct c as [[] [] [] [] [] [] [] []].
Qed.

(** X15.  A viewing without a path is saved as [viewings/<slug>.yml].  For
    a slug without a slash, on a machine where [viewings] is not a file
    and the target is not a directory, [save] returns that path, makes
    the directory when it is missing and writes nothing else; unless the
    slug is empty or starts with a dot, the file is one that the rebuild
    globs, and the rebuild that follows raises without touching a
    table. *)
Theorem fresh_save_is_globbed (slugify : string → string) (v : Viewing)
    (e e' : env) (w : world) :
  let slug := slugify (format_04 (sequence v) +:+ " " +:+ title_with_year v) in
  let p := "viewings/" +:+ slug +:+ ".yml" in
  truthy (file_path v) = false →
  no_sep slug = true →
  files w !! "viewings" = None →
  p ∉ dirs w →
  ∃ w1,
    save slugify v e w = (Ok (p, with_file_path v p), w1)
    ∧ dirs w1 = {[ "viewings" ]} ∪ dirs w
    ∧ files w1 = <[p := Document (to_yaml v)]> (files w)
    ∧ tables w1 = tables w
    ∧ matches_yml p = negb (hidden slug)
    ∧ (hidden slug = false → ∃ x, update e' w1 = (Raise x, w1)).
Proof.
  intros slug p Htruthy Hslug Hfile Hdir.
  destruct (fresh_path slug Hslug) as (Hpath & Hdirname & Hmatch).
  fold p in Hpath, Hdirname, Hmatch.
  assert (p ≠ "viewings") as Hp.
  { unfold p. rewrite !app_cons, app_nil_l. by intros [=]. }
  assert (∃ w1, save slugify v e w = (Ok (p, with_file_path v p), w1)
            ∧ dirs w1 = {[ "viewings" ]} ∪ dirs w
            ∧ files w1 = <[p := Document (to_yaml v)]> (files w)
            ∧ tables w1 = tables w) as (w1 & Hsave & Hdirs & Hfiles & Htables).
  { unfold save. rewrite bind_run, Htruthy. fold slug. rewrite Hpath, Hdirname.
    rewrite bind_run, FetcherProps.path_exists_run, Hfile.
    rewrite (bool_decide_eq_false_2 (is_Some None)) by by intros [? [=]].
    rewrite orb_false_r.
    destruct (bool_decide ("viewings" ∈ dirs w)) eqn:Hex.
    - apply bool_decide_eq_true in Hex. run. unfold write_yaml. run.
      rewrite Hdirname, (bool_decide_eq_true_2 _ Hex).
      rewrite (bool_decide_eq_false_2 _ Hdir), orb_true_r. simpl.
      eexists. split; [done|]. simpl.
      split; [|done]. apply leibniz_equiv. set_solver.
    - apply bool_decide_eq_false in Hex.
      assert (Fetcher.makedirs "viewings" e w
              = (Ok (), set_dirs ({[ "viewings" ]} ∪ dirs w) w)) as Hmk.
      { unfold Fetcher.makedirs. simpl String.length.
        rewrite makedirs_from_S. cbv zeta.
        change (Fetcher.basename "viewings") with "viewings".
        change (Fetcher.dirname "viewings") with "".
        rewrite (bool_decide_eq_false_2 ("viewings" = "")) by done.
        rewrite (bool_decide_eq_true_2 ("" = "")) by done. cbn [negb andb].
        rewrite mkdir_run, Hfile.
        rewrite (bool_decide_eq_false_2 _ Hex).
        rewrite (bool_decide_eq_false_2 (is_Some None)) by by intros [? [=]].
        reflexivity. }
      cbn [orb]. rewrite !bind_run, Hmk. run. unfold write_yaml. run.
      rewrite Hdirname.
      rewrite (bool_decide_eq_true_2 ("viewings" ∈ _)) by set_solver.
      rewrite (bool_decide_eq_false_2 (p ∈ _)) by set_solver.
      rewrite orb_true_r. simpl. eexists. split; [done|]. done. }
  exists w1. repeat (split; [done|]). intros Hhid.
  destruct (load_viewings_stops e' w1 p v) as [x Hx].
  - by rewrite Hmatch, Hhid.
  - by rewrite Hfiles, lookup_insert_eq.
  - exists x. unfold update. by rewrite bind_run, Hx.
Qed.

Lemma fresh_save_is_globbed_witness :
  ∃ w1 x,
    save (λ _, "0001-alpha-1999") Fixtures.viewing0 Fixtures.env0 Fixtures.fresh
    = (Ok ("viewings/0001-alpha-1999.yml",
           with_file_path Fixtures.viewing0 "viewings/0001-alpha-1999.yml"), w1)
    ∧ dirs w1 = {[ "viewings" ]} ∪ dirs Fixtures.fresh
    ∧ update Fixtures.env0 w1 = (Raise x, w1).
Proof.
  destruct (fresh_save_is_globbed (λ _, "0001-alpha-1999") Fixtures.viewing0
              Fixtures.env0 Fixtures.env0 Fixtures.fresh)
    as (w1 & Hsave & Hdirs & _ & _ & _ & Hupdate);
    [reflexivity | reflexivity | reflexivity | set_solver |].
  destruct (Hupdate eq_refl) as [x Hx]. by exists w1, x.
Defined.

Lemma load_Ok (p : string) (v : Viewing) (e : env) (w w0 : world) :
  load p e w = (Ok v, w0) →
  ∃ d, files w !! p = Some (Document d) ∧ is_Some (d !! "year")
       ∧ file_path v = Some p.
Proof.
  unfold load, read_yaml. run.
  destruct (files w !! p) as [[rows| |d]|]; simpl; try done.
  unfold dict_getitem.
  destruct (d !! "imdb_id") as [i|]; simpl; [|done].
  destruct (d !! "title") as [t|]; simpl; [|done].
  destruct (d !! "year") as [y|] eqn:Hy; simpl; [|done].
  destruct (d !! "venue") as [n|]; simpl; [|done].
  destruct (d !! "sequence") as [s|]; simpl; [|done].
  destruct (d !! "date") as [a|]; simpl; [|done].
  destruct (as_str i); simpl; [|done]. destruct (as_str t); simpl; [|done].
  destruct (as_int y); simpl; [|done]. destruct (as_str n); simpl; [|done].
  destruct (as_int s); simpl; [|done]. destruct (as_date a); simpl; [|done].
  intros [= <- <-]. exists d. by rewrite Hy.
Qed.

(** X16.  Loading a file and saving the viewing does not give the file
    back.  [save] writes to the path the viewing was loaded from, but the
    mapping it writes has no [year] key, which the loaded file had: the
    file is changed, and it cannot be loaded again. *)
Theorem load_then_save_rewrites_the_file (slugify : string → string)
    (p q : string) (v v1 : Viewing) (e e' e'' : env) (w w0 w1 : world) :
  p ≠ "" →
  load p e w = (Ok v, w0) →
  save slugify v e' w = (Ok (q, v1), w1) →
  q = p ∧ v1 = v
  ∧ files w1 = <[p := Document (to_yaml v)]> (files w)
  ∧ files w1 !! p ≠ files w !! p
  ∧ load p e'' w1 = (Raise (KeyError "year"), w1).
Proof.
  intros Hp (d & Hfile & Hyear & Hpath)%load_Ok.
  assert (truthy (Some p) = true) as Htruthy by by destruct p.
  unfold save. rewrite bind_run, Hpath, Htruthy.
  change ((mret (str (Some p)) : M string) e' w) with (Ok p, w).
  cbv beta iota. rewrite bind_run.
  destruct (write_yaml p (to_yaml v) e' w) as [[[]|x] w2] eqn:Hwrite; [|done].
  apply write_yaml_Ok in Hwrite as ->. intros [= <- <- <-].
  split; [done|]. split; [by destruct v; simpl in *; subst|].
  split; [done|]. simpl. rewrite lookup_insert_eq, Hfile.
  split.
  - intros [= <-]. by destruct Hyear as [? [=]].
  - apply (load_saved v). simpl. by rewrite lookup_insert_eq.
Qed.

Lemma load_then_save_rewrites_the_file_witness :
  let d : gmap string scalar :=
    {[ "imdb_id" := SStr "tt0000001"; "title" := SStr "Alpha";
       "year" := SInt 1999; "venue" := SStr "Home"; "sequence" := SInt 1;
       "date" := SDate Fixtures.date0 ]} in
  let w := {| dirs := {[ "viewings" ]};
              files := {[ "viewings/0001-alpha.yml" := Document d ]};
              markers := ∅; tables := ∅; title_ids_cache := None;
              trace := [] |} in
  ∃ v w1,
    load "viewings/0001-alpha.yml" Fixtures.env0 w = (Ok v, w)
    ∧ save (λ _, "unused") v Fixtures.env0 w
      = (Ok ("viewings/0001-alpha.yml", v), w1)
    ∧ load "viewings/0001-alpha.yml" Fixtures.env0 w1
      = (Raise (KeyError "year"), w1).
Proof.
  intros d w.
  destruct (load "viewings/0001-alpha.yml" Fixtures.env0 w) as [r w0] eqn:Hload.
  assert (w0 = w) as -> by by apply load_frame in Hload.
  assert (∃ v, r = Ok v) as [v ->]
    by (pose proof Hload as H0; vm_compute in H0; injection H0 as <-; eauto).
  destruct (save (λ _, "unused") v Fixtures.env0 w) as [r1 w1] eqn:Hsave.
  assert (∃ q v1, r1 = Ok (q, v1)) as (q & v1 & ->).
  { pose proof Hload as H0. vm_compute in H0. injection H0 as <-.
    pose proof Hsave as H1. vm_compute in H1. injection H1 as <- _. eauto. }
  destruct (load_then_save_rewrites_the_file (λ _, "unused")
              "viewings/0001-alpha.yml" q v v1 Fixtures.env0 Fixtures.env0
              Fixtures.env0 w w w1 ltac:(done) Hload Hsave)
    as (-> & -> & _ & _ & Hagain).
  by exists v, w1.
Defined.

End ViewingsEdges.
